(** * Markdown transformers of [packages/lexical-markdown/src/v2/MarkdownTransformers.js]

    A shallow embedding of the element and text-match transformers
    (headings, quotes, code fences, lists, links): their regular expressions,
    their [replace] functions, which mutate the editor's node map, and their
    [export] functions, which read it. *)

From Stdlib Require Import ZArith Ascii String DecimalString.
From Stdlib Require DecimalPos DecimalZ.
From stdpp Require Import gmap strings list.

Local Open Scope string_scope.
Set Warnings "-clear-no-such-hyp".

(** ** JavaScript values used by the transformers *)

(** Strings are sequences of code units. The embedding covers the code units
    below 256, so that an [ascii] is one code unit and [String.length] is the
    [length] property. *)

(** A [number] is an integer or [NaN]: the transformers only produce numbers
    by [Number] on captured digits, by [length], and by adding a loop counter.
    A number of JavaScript is a double. [Num z] is the double of the integer
    [z] as long as [z] is a safe integer, from [- MAX_SAFE_INTEGER] to
    [MAX_SAFE_INTEGER]: there every integer is a double, sums are exact and
    the string of a number is its decimal digits. Beyond that range a double
    is rounded, prints in exponent notation from 10^21 on, and [Number] of
    some 309 digits or more is [Infinity]; [Num] does not follow the doubles
    there, and the properties below that depend on the value or on the
    digits of a number are stated for safe integers. *)
Inductive number :=
  | Num (z : Z)
  | NaN.

(** [Number.MAX_SAFE_INTEGER], 2^53 - 1. *)
Definition MAX_SAFE_INTEGER : Z := 9007199254740991.

(** [Number(v)] of a string or [undefined]. Decimal digits give their value
    (the double of their value, as long as it is a safe integer), the empty
    string gives [0], [undefined] gives [NaN]. The other numeric literal
    forms of JavaScript (sign, fraction, exponent, radix prefix, surrounding
    white space) do not arise from [\d{1,}] nor from ['h' + length], and are
    read as [NaN] here. *)
Definition Number (v : option string) : number :=
  match v with
  | None => NaN
  | Some s =>
      match NilEmpty.uint_of_string s with
      | Some d => Num (Z.of_uint d)
      | None => NaN
      end
  end.

(** The string of a number, as in a template literal or a string
    concatenation: the decimal digits of a safe integer, with its sign when
    it is negative. *)
Definition toString (x : number) : string :=
  match x with
  | Num z => NilZero.string_of_int (Z.to_int z)
  | NaN => "NaN"
  end.

(** [x + index] for a loop counter [index], exact as long as the sum is a
    safe integer. *)
Definition plus (x : number) (index : nat) : number :=
  match x with
  | Num z => Num (z + Z.of_nat index)
  | NaN => NaN
  end.

(** What a computation of the embedding comes to: a value, an exception, or
    the end of the recursion budget of a function defined with fuel. *)
Inductive Error :=
  | TypeError
  | RangeError
  | Invariant.

Inductive result (A : Type) :=
  | Ok (a : A)
  | Throw (e : Error)
  | OutOfFuel.
Arguments Ok {A} a.
Arguments Throw {A} e.
Arguments OutOfFuel {A}.

Definition result_bind {A B} (r : result A) (f : A → result B) : result B :=
  match r with
  | Ok a => f a
  | Throw e => Throw e
  | OutOfFuel => OutOfFuel
  end.

Definition result_map {A B} (f : A → B) (r : result A) : result B :=
  result_bind r (λ a, Ok (f a)).

Global Instance result_ret : MRet result := @Ok.
Global Instance result_mbind : MBind result := λ A B f r, result_bind r f.
Global Instance result_fmap : FMap result := @result_map.

Fixpoint repeat_nat (s : string) (count : nat) : string :=
  match count with
  | O => ""
  | S n => s ++ repeat_nat s n
  end.

(** [s.repeat(count)]: [NaN] counts as [0], a negative count is a
    [RangeError]. *)
Definition repeat (s : string) (count : number) : result string :=
  match count with
  | NaN => Ok ""
  | Num z => if (z <? 0)%Z then Throw RangeError else Ok (repeat_nat s (Z.to_nat z))
  end.

(** [s.slice(1)] *)
Definition slice1 (s : string) : string :=
  match s with
  | EmptyString => ""
  | String _ s' => s'
  end.

(** [s.slice(0, count)] *)
Fixpoint sliceTo (count : nat) (s : string) : string :=
  match count, s with
  | S n, String c s' => String c (sliceTo n s')
  | _, _ => ""
  end.

(** The line feed, ['\n']. *)
Definition LF : string := String "010" "".

(** [output.join(sep)] *)
Definition join (sep : string) (output : list string) : string :=
  String.concat sep output.

(** ** Regular expressions

    The patterns of the transformers use character classes, sequences,
    capturing groups, an optional group, counted repetitions of a character
    class, and the two anchors. Matching is by backtracking, with greedy
    quantifiers, as [RegExp.prototype.exec] does. *)

Inductive CharClass :=
  | Chr (c : ascii)             (* a literal character *)
  | Space                       (* \s *)
  | Word                        (* \w *)
  | Digit                       (* \d *)
  | OneOf (cs : list ascii)     (* [...] *)
  | NoneOf (cs : list ascii).   (* [^...] *)

Inductive Pattern :=
  | Atom (c : CharClass)
  | Cat (p q : Pattern)
  | Group (i : nat) (p : Pattern)                         (* ( p ), the i-th group *)
  | Opt (p : Pattern)                                     (* p? *)
  | Rep (c : CharClass) (min : nat) (max : option nat)    (* c{min,max}, c*, c+ *)
  | Start                                                 (* ^ *)
  | End.                                                  (* $ *)

Definition code (c : ascii) : N := N_of_ascii c.

Definition in_range (lo hi c : ascii) : bool :=
  ((code lo <=? code c) && (code c <=? code hi))%N.

(** White space and line terminators among the code units below 256. *)
Definition isSpace (c : ascii) : bool :=
  bool_decide (code c ∈ [9; 10; 11; 12; 13; 32; 160]%N).

Definition isDigit (c : ascii) : bool := in_range "0" "9" c.

Definition isWord (c : ascii) : bool :=
  in_range "a" "z" c || in_range "A" "Z" c || isDigit c || bool_decide (c = "_"%char).

Definition accepts (cls : CharClass) (c : ascii) : bool :=
  match cls with
  | Chr a => bool_decide (c = a)
  | Space => isSpace c
  | Word => isWord c
  | Digit => isDigit c
  | OneOf cs => bool_decide (c ∈ cs)
  | NoneOf cs => negb (bool_decide (c ∈ cs))
  end.

(** The captures of a match: index 0 is the matched text, index [i] the text
    of the i-th group, [None] for a group that took no part ([undefined]). *)
Definition MatchResult := list (option string).

(** [match[i]] *)
Definition group (m : MatchResult) (i : nat) : option string :=
  default None (m !! i).

(** A continuation receives the position reached, the input left there and
    the captures so far. *)
Definition Cont := nat → string → MatchResult → option (nat * MatchResult).

Definition below (max : option nat) (count : nat) : bool :=
  match max with
  | None => true
  | Some n => (count <? n)%nat
  end.

Fixpoint matchRep (cls : CharClass) (min : nat) (max : option nat) (count : nat)
    (pos : nat) (s : string) (caps : MatchResult) (k : Cont) : option (nat * MatchResult) :=
  let stop := if (min <=? count)%nat then k pos s caps else None in
  match s with
  | String c s' =>
      if below max count && accepts cls c then
        match matchRep cls min max (S count) (S pos) s' caps k with
        | Some r => Some r
        | None => stop
        end
      else stop
  | EmptyString => stop
  end.

Fixpoint matchPattern (p : Pattern) (pos : nat) (s : string) (caps : MatchResult)
    (k : Cont) : option (nat * MatchResult) :=
  match p with
  | Atom cls =>
      match s with
      | String c s' => if accepts cls c then k (S pos) s' caps else None
      | EmptyString => None
      end
  | Cat p q => matchPattern p pos s caps (λ pos' s' caps', matchPattern q pos' s' caps' k)
  | Group i p =>
      matchPattern p pos s caps
        (λ pos' s' caps', k pos' s' (<[i := Some (sliceTo (pos' - pos) s)]> caps'))
  | Opt p =>
      match matchPattern p pos s caps k with
      | Some r => Some r
      | None => k pos s caps
      end
  | Rep cls min max => matchRep cls min max 0 pos s caps k
  | Start => if (pos =? 0)%nat then k pos s caps else None
  | End =>
      match s with
      | EmptyString => k pos s caps
      | String _ _ => None
      end
  end.

Record RegExp := {
  pattern : Pattern;
  groups : nat;           (* the number of capturing groups *)
}.

(** The match at position [pos] of the input, [s] being the input from
    there, if any. *)
Definition matchAt (re : RegExp) (pos : nat) (s : string) : option MatchResult :=
  match matchPattern (pattern re) pos s (replicate (S (groups re)) None)
          (λ pos' _ caps, Some (pos', caps)) with
  | Some (pos', caps) => Some (<[0 := Some (sliceTo (pos' - pos) s)]> caps)
  | None => None
  end.

Fixpoint search (re : RegExp) (pos : nat) (s : string) : option MatchResult :=
  match matchAt re pos s with
  | Some m => Some m
  | None =>
      match s with
      | String _ s' => search re (S pos) s'
      | EmptyString => None
      end
  end.

(** [text.match(regExp)] for a regular expression without flags: the
    leftmost match, or [None] for [null]. *)
Definition exec (re : RegExp) (text : string) : option MatchResult :=
  search re 0 text.

Definition seq (ps : list Pattern) (last : Pattern) : Pattern :=
  foldr Cat last ps.

Definition lit (c : ascii) : Pattern := Atom (Chr c).

(** The regular expression "/^(#{1,6})\s/". *)
Definition HEADING_regExp : RegExp :=
  {| pattern := seq [Start; Group 1 (Rep (Chr "#") 1 (Some 6))] (Atom Space);
     groups := 1 |}.

(** The regular expression "/^>\s/". *)
Definition QUOTE_regExp : RegExp :=
  {| pattern := seq [Start; lit ">"] (Atom Space); groups := 0 |}.

(** The regular expression "/^```(\w{1,10})?\s/". *)
Definition CODE_regExp : RegExp :=
  {| pattern := seq [Start; lit "`"; lit "`"; lit "`";
                     Opt (Group 1 (Rep Word 1 (Some 10)))] (Atom Space);
     groups := 1 |}.

(** The [regExp] of [UNORDERED_LIST]: at the start of the input, a first
    group of any number of white space characters, then one of [-], [*] and
    [+], then a white space character. *)
Definition UNORDERED_LIST_regExp : RegExp :=
  {| pattern := seq [Start; Group 1 (Rep Space 0 None);
                     Atom (OneOf ["-"; "*"; "+"]%char)] (Atom Space);
     groups := 1 |}.

(** The [regExp] of [ORDERED_LIST]: at the start of the input, a first group
    of any number of white space characters, a second group "(\d{1,})" of one
    or more digits, then a dot and a white space character. *)
Definition ORDERED_LIST_regExp : RegExp :=
  {| pattern := seq [Start; Group 1 (Rep Space 0 None);
                     Group 2 (Rep Digit 1 None); lit "."] (Atom Space);
     groups := 2 |}.

(** The regular expression "/(?:\[([^[]+)\])(?:\(([^(]+)\))/". *)
Definition LINK_importRegExp : RegExp :=
  {| pattern := seq [lit "["; Group 1 (Rep (NoneOf ["["%char]) 1 None); lit "]";
                     lit "("; Group 2 (Rep (NoneOf ["("%char]) 1 None)] (lit ")");
     groups := 2 |}.

(** The regular expression "/(?:\[([^[]+)\])(?:\(([^(]+)\))$/". *)
Definition LINK_regExp : RegExp :=
  {| pattern := seq [lit "["; Group 1 (Rep (NoneOf ["["%char]) 1 None); lit "]";
                     lit "("; Group 2 (Rep (NoneOf ["("%char]) 1 None); lit ")"] End;
     groups := 2 |}.


(** ** The document tree

    The transformers import the node classes and the mutation API of the
    rich-document tree (creation, [append], [replace], [remove], [select],
    [setIndent]) from the [lexical], [@lexical/list], [@lexical/rich-text],
    [@lexical/code] and [@lexical/link] packages, which are not part of the
    sources at hand. The definitions of this section model them from the
    spec (sections 1, 3 and 4.5): a rooted tree in which each child has
    exactly one parent, held in an editor state that maps node keys to
    nodes. *)

(** Modelled from the spec: the key of a node; a node object of the source is
    a [NodeKey] here. *)
Definition NodeKey := positive.

(** The tag of a list, ['ul' | 'ol'] in the source. *)
Inductive ListTag :=
  | ul
  | ol.

Global Instance ListTag_eq_dec : EqDecision ListTag.
Proof. solve_decision. Defined.

(** Modelled from the spec: the node classes, with the fields that the
    transformers read and write. *)
Inductive NodeType :=
  | RootNode
  | ParagraphNode
  | HeadingNode (tag : string)
  | QuoteNode
  | CodeNode (language : option string)
  | ListNode (tag : ListTag) (start : number)
  | ListItemNode
  | LinkNode (url : option string)
  | TextNode (text : string) (format : N).

(** Modelled from the spec: a node holds the key of its parent and, for an
    element node, the keys of its children and an indent level. *)
Record LexicalNode := {
  __type : NodeType;
  __parent : option NodeKey;
  __children : list NodeKey;
  __indent : nat;
}.

(** Modelled from the spec: the editor state. *)
Record EditorState := {
  _nodeMap : gmap NodeKey LexicalNode;
  _keyCounter : NodeKey;                      (* the key of the next node *)
  _selection : option (NodeKey * nat * nat);  (* key, anchor and focus offsets *)
}.

(** Computations in the editor state that may throw. *)
Definition M (A : Type) : Type := EditorState → result (A * EditorState).

Global Instance M_ret : MRet M := λ A a st, Ok (a, st).
Global Instance M_bind : MBind M := λ A B f m st,
  match m st with
  | Ok (a, st') => f a st'
  | Throw e => Throw e
  | OutOfFuel => OutOfFuel
  end.

Definition throw {A} (e : Error) : M A := λ _, Throw e.
Definition gets {A} (f : EditorState → A) : M A := λ st, Ok (f st, st).

(** Writes a node of the node map. *)
Definition setNode (key : NodeKey) (node : LexicalNode) : M unit := λ st,
  Ok ((), {| _nodeMap := <[key := node]> (_nodeMap st);
             _keyCounter := _keyCounter st;
             _selection := _selection st |}).

(** Modelled from the spec: [$getNodeByKey]. *)
Definition getNodeByKey (st : EditorState) (key : NodeKey) : option LexicalNode :=
  _nodeMap st !! key.

(** Modelled from the spec: [node.getLatest()], an invariant failure for a
    node that is not in the node map. *)
Definition getLatest (key : NodeKey) : M LexicalNode := λ st,
  match getNodeByKey st key with
  | Some node => Ok (node, st)
  | None => Throw Invariant
  end.

(** A method call on a reference that is [null]. *)
Definition deref (node : option NodeKey) : M NodeKey :=
  match node with
  | Some key => mret key
  | None => throw TypeError
  end.

(** Modelled from the spec: the creation of a node, detached and without
    children, under the next key. *)
Definition createNode (type : NodeType) : M NodeKey := λ st,
  let key := _keyCounter st in
  Ok (key, {| _nodeMap := <[key := {| __type := type; __parent := None;
                                      __children := []; __indent := 0 |}]> (_nodeMap st);
              _keyCounter := Pos.succ key;
              _selection := _selection st |}).

(** Modelled from the spec: [$createListItemNode()]. *)
Definition createListItemNode : M NodeKey := createNode ListItemNode.

(** Modelled from the spec: [$createListNode(tag, start = 1)]. *)
Definition createListNode (tag : ListTag) (start : option number) : M NodeKey :=
  createNode (ListNode tag (default (Num 1) start)).

(** Modelled from the spec: [$createHeadingNode(tag)]. *)
Definition createHeadingNode (tag : string) : M NodeKey := createNode (HeadingNode tag).

(** Modelled from the spec: [$createQuoteNode()]. *)
Definition createQuoteNode : M NodeKey := createNode QuoteNode.

(** Modelled from the spec: [$createCodeNode(language)]. *)
Definition createCodeNode (language : option string) : M NodeKey :=
  createNode (CodeNode language).

(** Modelled from the spec: [$createLinkNode(url)]. *)
Definition createLinkNode (url : option string) : M NodeKey := createNode (LinkNode url).

(** Modelled from the spec: [$createTextNode(text = '')], without format. *)
Definition createTextNode (text : option string) : M NodeKey :=
  createNode (TextNode (default "" text) 0).

(** Modelled from the spec: a type guard takes a node or [null], and holds
    for a node of the node map that has the type. *)
Definition hasType (P : NodeType → bool) (st : EditorState) (node : option NodeKey) : bool :=
  match node ≫= getNodeByKey st with
  | Some n => P (__type n)
  | None => false
  end.

(** Modelled from the spec: the type guards [$isListNode], [$isListItemNode],
    [$isHeadingNode], [$isQuoteNode], [$isCodeNode], [$isLinkNode] and
    [$isTextNode]. *)
Definition isListNode := hasType (λ t, match t with ListNode _ _ => true | _ => false end).
Definition isListItemNode := hasType (λ t, match t with ListItemNode => true | _ => false end).
Definition isHeadingNode := hasType (λ t, match t with HeadingNode _ => true | _ => false end).
Definition isQuoteNode := hasType (λ t, match t with QuoteNode => true | _ => false end).
Definition isCodeNode := hasType (λ t, match t with CodeNode _ => true | _ => false end).
Definition isLinkNode := hasType (λ t, match t with LinkNode _ => true | _ => false end).
Definition isTextNode := hasType (λ t, match t with TextNode _ _ => true | _ => false end).

(** [array.indexOf(key)], [array.splice(index, 1)] and
    [array.splice(index, 0, key)]. *)
Fixpoint indexOf (key : NodeKey) (keys : list NodeKey) : option nat :=
  match keys with
  | [] => None
  | k :: keys' => if decide (k = key) then Some 0 else S <$> indexOf key keys'
  end.

Definition spliceOut (index : nat) (keys : list NodeKey) : list NodeKey :=
  take index keys ++ drop (S index) keys.

Definition spliceIn (index : nat) (key : NodeKey) (keys : list NodeKey) : list NodeKey :=
  take index keys ++ key :: drop index keys.

Definition setParent (parent : option NodeKey) (node : LexicalNode) : LexicalNode :=
  {| __type := __type node; __parent := parent;
     __children := __children node; __indent := __indent node |}.

Definition setChildren (children : list NodeKey) (node : LexicalNode) : LexicalNode :=
  {| __type := __type node; __parent := __parent node;
     __children := children; __indent := __indent node |}.

(** Modelled from the spec: [node.getParent()], [null] for a detached
    node. *)
Definition getParent (st : EditorState) (key : NodeKey) : option NodeKey :=
  match getNodeByKey st key with
  | Some node =>
      match __parent node with
      | Some parent => const parent <$> getNodeByKey st parent
      | None => None
      end
  | None => None
  end.

(** Modelled from the spec: a node leaves the children of its parent, if it
    has one, before it is put elsewhere. *)
Definition removeFromParent (key : NodeKey) : M unit :=
  oldParent ← gets (λ st, getParent st key);
  match oldParent with
  | None => mret ()
  | Some parentKey =>
      parent ← getLatest parentKey;
      match indexOf key (__children parent) with
      | None => throw Invariant          (* Node is not a child of its parent *)
      | Some index => setNode parentKey (setChildren (spliceOut index (__children parent)) parent)
      end
  end.

Fixpoint forEach {A} (f : A → M unit) (nodes : list A) : M unit :=
  match nodes with
  | [] => mret ()
  | node :: rest => f node;; forEach f rest
  end.

(** Modelled from the spec: one step of [append]; the node leaves its
    previous parent and becomes the last child of [self]. *)
Definition appendNode (self nodeToAppend : NodeKey) : M unit :=
  _ ← getLatest nodeToAppend;
  removeFromParent nodeToAppend;;
  node ← getLatest nodeToAppend;
  setNode nodeToAppend (setParent (Some self) node);;
  writableSelf ← getLatest self;
  setNode self (setChildren (__children writableSelf ++ [nodeToAppend]) writableSelf).

(** Modelled from the spec: [self.append(...nodesToAppend)]. *)
Definition append (self : NodeKey) (nodesToAppend : list NodeKey) : M unit :=
  _ ← getLatest self;
  forEach (appendNode self) nodesToAppend.

(** Modelled from the spec: [node.remove()]. A detached node stays as it is;
    otherwise the node leaves the children of its parent. What becomes of a
    parent that is left empty is not modelled: the transformers only remove
    a node that has a previous sibling. *)
Definition remove (key : NodeKey) : M unit :=
  parent ← gets (λ st, getParent st key);
  match parent with
  | None => mret ()
  | Some _ =>
      removeFromParent key;;
      node ← getLatest key;
      setNode key (setParent None node)
  end.

(** Modelled from the spec: [self.replace(replaceWith)]. The new node takes
    the place of [self] among the children of its parent, and [self] is
    detached. *)
Definition replaceNode (self : NodeKey) (replaceWith : NodeKey) : M unit :=
  _ ← getLatest replaceWith;
  removeFromParent replaceWith;;
  newParent ← gets (λ st, getParent st self);
  match newParent with
  | None => throw Invariant              (* getParentOrThrow *)
  | Some parentKey =>
      parent ← getLatest parentKey;
      match indexOf self (__children parent) with
      | None => throw Invariant          (* Node is not a child of its parent *)
      | Some index =>
          setNode parentKey (setChildren (spliceIn index replaceWith (__children parent)) parent);;
          node ← getLatest replaceWith;
          setNode replaceWith (setParent (Some parentKey) node);;
          remove self
      end
  end.

(** Modelled from the spec: [node.select(anchorOffset, focusOffset)], which
    places the caret inside the node. *)
Definition select (key : NodeKey) (anchorOffset focusOffset : nat) : M unit := λ st,
  match getNodeByKey st key with
  | Some _ =>
      Ok ((), {| _nodeMap := _nodeMap st; _keyCounter := _keyCounter st;
                 _selection := Some (key, anchorOffset, focusOffset) |})
  | None => Throw Invariant
  end.

(** Modelled from the spec: [node.setIndent(indent)] sets the indent level
    of the item, a layout state on the item and not a move in the tree
    (section 4.5). *)
Definition setIndent (key : NodeKey) (indent : nat) : M unit :=
  node ← getLatest key;
  setNode key {| __type := __type node; __parent := __parent node;
                 __children := __children node; __indent := indent |}.

(** Modelled from the spec: [textNode.setFormat(format)]. *)
Definition setFormat (key : NodeKey) (format : N) : M unit :=
  node ← getLatest key;
  match __type node with
  | TextNode text _ =>
      setNode key {| __type := TextNode text format; __parent := __parent node;
                     __children := __children node; __indent := __indent node |}
  | _ => throw TypeError
  end.

(** Modelled from the spec: [textNode.getFormat()]. *)
Definition getFormat (key : NodeKey) : M N :=
  node ← getLatest key;
  match __type node with
  | TextNode _ format => mret format
  | _ => throw TypeError
  end.

(** Modelled from the spec: [node.getPreviousSibling()], the child before
    the node among the children of its parent, or [null]. *)
Definition getPreviousSibling (key : NodeKey) : M (option NodeKey) :=
  _ ← getLatest key;
  parent ← gets (λ st, getParent st key);
  match parent with
  | None => mret None
  | Some parentKey =>
      parent ← getLatest parentKey;
      match indexOf key (__children parent) with
      | None | Some 0 => mret None
      | Some (S index) =>
          gets (λ st, __children parent !! index ≫= λ k, const k <$> getNodeByKey st k)
      end
  end.

(** Modelled from the spec: [node.getChildren()]. *)
Definition getChildren (st : EditorState) (key : NodeKey) : list NodeKey :=
  match getNodeByKey st key with
  | Some node => filter (λ k, is_Some (getNodeByKey st k)) (__children node)
  | None => []
  end.

(** Modelled from the spec: [node.getChildrenSize()]. *)
Definition getChildrenSize (st : EditorState) (key : NodeKey) : nat :=
  match getNodeByKey st key with
  | Some node => length (__children node)
  | None => 0
  end.

(** Modelled from the spec: [node.getFirstChild()]. *)
Definition getFirstChild (st : EditorState) (key : NodeKey) : option NodeKey :=
  match getNodeByKey st key with
  | Some node => head (__children node) ≫= λ k, const k <$> getNodeByKey st k
  | None => None
  end.

(** Modelled from the spec: [listNode.getTag()], [None] where the node has
    no such method. *)
Definition getListTag (st : EditorState) (node : option NodeKey) : option ListTag :=
  match node ≫= getNodeByKey st with
  | Some {| __type := ListNode tag _ |} => Some tag
  | _ => None
  end.

(** Modelled from the spec: [listNode.getStart()]. *)
Definition getStart (st : EditorState) (key : NodeKey) : option number :=
  match getNodeByKey st key with
  | Some {| __type := ListNode _ start |} => Some start
  | _ => None
  end.

(** Modelled from the spec: [headingNode.getTag()]. *)
Definition getHeadingTag (st : EditorState) (key : NodeKey) : option string :=
  match getNodeByKey st key with
  | Some {| __type := HeadingNode tag |} => Some tag
  | _ => None
  end.

(** Modelled from the spec: [linkNode.getURL()]. *)
Definition getURL (st : EditorState) (key : NodeKey) : option (option string) :=
  match getNodeByKey st key with
  | Some {| __type := LinkNode url |} => Some url
  | _ => None
  end.

(** Modelled from the spec: the indent level of a node. *)
Definition getIndent (st : EditorState) (key : NodeKey) : option nat :=
  __indent <$> getNodeByKey st key.

(** *** Indentation as nesting

    The spec gives the indent of a list item twice. In section 4.5 it is a
    layout state of the item, which [setIndent] and [getIndent] above follow.
    In sections 2, 3 and 8 it is the depth of the item in the tree: a list
    item whose sole child is a list is one level of nesting, an indented item
    extends the nested list next to it or starts a new one, and the item of
    the second line of [- a] / [    - b] ends up in a child list. The module
    [ListItem] follows the second account, for the methods of a list item
    that override those of an element. *)

(** Modelled from the spec: [node.getNextSibling()], the child after the
    node among the children of its parent, or [null]. *)
Definition getNextSibling (key : NodeKey) : M (option NodeKey) :=
  _ ← getLatest key;
  parent ← gets (λ st, getParent st key);
  match parent with
  | None => mret None
  | Some parentKey =>
      parent ← getLatest parentKey;
      match indexOf key (__children parent) with
      | None => mret None
      | Some index =>
          gets (λ st, __children parent !! S index ≫= λ k, const k <$> getNodeByKey st k)
      end
  end.

(** Modelled from the spec: [self.insertBefore(nodeToInsert)], for the
    offset 0, and [self.insertAfter(nodeToInsert)], for the offset 1. The
    node leaves its previous parent and becomes the child before, or after,
    [self] of the parent of [self]. *)
Definition insertAt (offset : nat) (self nodeToInsert : NodeKey) : M unit :=
  _ ← getLatest self;
  _ ← getLatest nodeToInsert;
  removeFromParent nodeToInsert;;
  parent ← gets (λ st, getParent st self);
  match parent with
  | None => throw Invariant              (* getParentOrThrow *)
  | Some parentKey =>
      parent ← getLatest parentKey;
      match indexOf self (__children parent) with
      | None => throw Invariant          (* Node is not a child of its parent *)
      | Some index =>
          setNode parentKey
            (setChildren (spliceIn (index + offset) nodeToInsert (__children parent)) parent);;
          node ← getLatest nodeToInsert;
          setNode nodeToInsert (setParent (Some parentKey) node)
      end
  end.

Definition insertBefore : NodeKey → NodeKey → M unit := insertAt 0.
Definition insertAfter : NodeKey → NodeKey → M unit := insertAt 1.

Module ListItem.

(** Modelled from the spec: a list item that holds a nested list, that is,
    whose first child is a list. *)
Definition isNestedListNode (st : EditorState) (node : option NodeKey) : bool :=
  isListItemNode st node && isListNode st (node ≫= getFirstChild st).

(** Modelled from the spec: the loop of [listItem.getIndent()], which counts
    the list items above a node and goes from a list item to the parent of
    its parent. The loop of the source has no bound; [OutOfFuel] is its
    outcome on a chain of parents that does not end. *)
Fixpoint countListItems (fuel : nat) (st : EditorState) (listNodeParent : NodeKey)
    (indentLevel : nat) : result nat :=
  match fuel with
  | O => OutOfFuel
  | S fuel' =>
      if isListItemNode st (Some listNodeParent) then
        match getParent st listNodeParent ≫= getParent st with
        | Some above => countListItems fuel' st above (S indentLevel)
        | None => Throw Invariant        (* getParentOrThrow *)
        end
      else Ok indentLevel
  end.

(** Modelled from the spec: [listItem.getIndent()], the number of list items
    above the item; the item is in a list, which has a parent. *)
Definition getIndent (key : NodeKey) : M nat := λ st,
  match getParent st key ≫= getParent st with
  | Some listNodeParent =>
      indentLevel ← countListItems (Pos.to_nat (_keyCounter st)) st listNodeParent 0;
      Ok (indentLevel, st)
  | None => Throw Invariant              (* getParentOrThrow *)
  end.

(** Modelled from the spec: one level of indentation for a list item
    ([$handleIndent]). An item that holds a nested list stays. An item next
    to items that hold nested lists joins the list of the item before it, at
    its end (and the list of the item after it is merged into that list), or
    else the list of the item after it, at its start. Otherwise a new list of
    the kind of the list of the item, held by a new list item that takes the
    place of the item, holds the item. *)
Definition handleIndent (listItemNode : NodeKey) : M unit :=
  nested ← gets (λ st, isNestedListNode st (Some listItemNode));
  if nested : bool then mret () else
  parent ← gets (λ st, getParent st listItemNode);
  nextSibling ← getNextSibling listItemNode;
  previousSibling ← getPreviousSibling listItemNode;
  nextNested ← gets (λ st, isNestedListNode st nextSibling);
  previousNested ← gets (λ st, isNestedListNode st previousSibling);
  if nextNested && previousNested then
    innerList ← gets (λ st, previousSibling ≫= getFirstChild st);
    isList ← gets (λ st, isListNode st innerList);
    if isList : bool then
      inner ← deref innerList;
      append inner [listItemNode];;
      nextInnerList ← gets (λ st, nextSibling ≫= getFirstChild st);
      isNextList ← gets (λ st, isListNode st nextInnerList);
      if isNextList : bool then
        nextInner ← deref nextInnerList;
        children ← gets (λ st, getChildren st nextInner);
        append inner children;;
        next ← deref nextSibling;
        remove next
      else mret ()
    else mret ()
  else if nextNested : bool then
    innerList ← gets (λ st, nextSibling ≫= getFirstChild st);
    isList ← gets (λ st, isListNode st innerList);
    if isList : bool then
      inner ← deref innerList;
      firstChild ← gets (λ st, getFirstChild st inner);
      match firstChild with
      | Some first => insertBefore first listItemNode
      | None => mret ()
      end
    else mret ()
  else if previousNested : bool then
    innerList ← gets (λ st, previousSibling ≫= getFirstChild st);
    isList ← gets (λ st, isListNode st innerList);
    if isList : bool then
      inner ← deref innerList;
      append inner [listItemNode]
    else mret ()
  else
    tag ← gets (λ st, getListTag st parent);
    match parent, tag with
    | Some parentKey, Some tag =>
        newListItem ← createListItemNode;
        newList ← createListNode tag None;
        append newListItem [newList];;
        append newList [listItemNode];;
        match previousSibling, nextSibling with
        | Some previous, _ => insertAfter previous newListItem
        | None, Some next => insertBefore next newListItem
        | None, None => append parentKey [newListItem]
        end
    | _, _ => mret ()
    end.

Fixpoint handleIndents (count : nat) (listItemNode : NodeKey) : M unit :=
  match count with
  | O => mret ()
  | S count' => handleIndent listItemNode;; handleIndents count' listItemNode
  end.

(** Modelled from the spec: [listItem.setIndent(indent)], which moves the
    item down, one level at a time, until the number of list items above it
    is [indent]. The way up, for an item that is deeper than [indent], is
    not followed: the blocks of an import are children of the root, where
    [listReplace] places the item at the level 0, and the embedding then
    ends without a result. *)
Definition setIndent (key : NodeKey) (indent : nat) : M unit :=
  currentIndent ← getIndent key;
  if decide (currentIndent ≤ indent)%nat
  then handleIndents (indent - currentIndent) key
  else λ _, OutOfFuel.

End ListItem.

(** ** The transformers *)

Inductive TransformerType :=
  | element
  | text_format
  | text_match.

(** The child exporter handed to [export] maps an element node to the
    Markdown of its children. *)
Definition ExportChildren := NodeKey → string.

(** The format exporter handed to the [export] of a text-match transformer
    wraps a text in the tags of the formats of a text node. *)
Definition ExportFormat := NodeKey → string → string.

(** An [export] returns a string or [null]; the exports of lists are
    recursive, and take the depth of recursion available as [fuel]. *)
Record ElementTransformer := {
  export : nat → EditorState → NodeKey → ExportChildren → result (option string);
  regExp : RegExp;
  replace : NodeKey → list NodeKey → MatchResult → bool → M unit;
  type : TransformerType;
}.

Definition replaceWithBlock (createNode : MatchResult → M NodeKey)
    (parentNode : NodeKey) (children : list NodeKey) (match_ : MatchResult)
    (isImport : bool) : M unit :=
  node ← createNode match_;
  append node children;;
  replaceNode parentNode node;;
  select node 0 0.

(** Amount of spaces that define indentation level *)
Definition LIST_INDENT_SIZE : nat := 4.

(** [match[i].length], a [TypeError] when the group is [undefined]. *)
Definition lengthOf (s : option string) : M nat :=
  match s with
  | Some s => mret (String.length s)
  | None => throw TypeError
  end.

(** [listItem.setIndent] is a method of the list package, which is not one
    of the sources at hand: [listReplaceWith] is [listReplace] with that
    method as its first argument. *)
Definition listReplaceWith (setItemIndent : NodeKey → nat → M unit) (listTag : ListTag)
    (parentNode : NodeKey) (children : list NodeKey) (match_ : MatchResult)
    (isImport : bool) : M unit :=
  previousNode ← getPreviousSibling parentNode;
  listItem ← createListItemNode;
  sameList ← gets (λ st, isListNode st previousNode
                         && bool_decide (getListTag st previousNode = Some listTag));
  (if sameList : bool then
     previous ← deref previousNode;
     append previous [listItem];;
     remove parentNode
   else
     list ← createListNode listTag
              (if decide (listTag = ol) then Some (Number (group match_ 2)) else None);
     append list [listItem];;
     replaceNode parentNode list);;
  append listItem children;;
  select listItem 0 0;;
  len ← lengthOf (group match_ 1);
  let indent := len / LIST_INDENT_SIZE in
  if decide (indent ≠ 0) then setItemIndent listItem indent else mret ().

(** [listReplace] with [setIndent] as the layout state of section 4.5. *)
Definition listReplace : ListTag → NodeKey → list NodeKey → MatchResult → bool → M unit :=
  listReplaceWith setIndent.

(** The body of the loop of [listExport] over the children of the list,
    with the loop variables [index] and [output]; [recurse] is [listExport]
    itself. *)
Fixpoint listExportLoop (recurse : NodeKey → nat → result string)
    (st : EditorState) (listNode : NodeKey) (exportChildren : ExportChildren)
    (depth : nat) (children : list NodeKey) (index : nat) (output : list string)
    : result (list string) :=
  match children with
  | [] => Ok output
  | listItemNode :: rest =>
      if isListItemNode st (Some listItemNode) then
        if bool_decide (getChildrenSize st listItemNode = 1)
           && isListNode st (getFirstChild st listItemNode) then
          match getFirstChild st listItemNode with
          | Some firstChild =>
              nested ← recurse firstChild (depth + 1);
              listExportLoop recurse st listNode exportChildren depth rest index
                (output ++ [nested])
          | None => Throw TypeError
          end
        else
          let indent := repeat_nat " " (depth * LIST_INDENT_SIZE) in
          prefix ← match getListTag st (Some listNode) with
                   | Some ul => Ok "- "
                   | Some ol =>
                       match getStart st listNode with
                       | Some start => Ok (toString (plus start index) ++ ". ")
                       | None => Throw TypeError
                       end
                   | None => Throw TypeError
                   end;
          listExportLoop recurse st listNode exportChildren depth rest (index + 1)
            (output ++ [indent ++ prefix ++ exportChildren listItemNode])
      else
        listExportLoop recurse st listNode exportChildren depth rest index output
  end.

Fixpoint listExport (fuel : nat) (st : EditorState) (listNode : NodeKey)
    (exportChildren : ExportChildren) (depth : nat) : result string :=
  match fuel with
  | O => OutOfFuel
  | S fuel' =>
      output ← listExportLoop (λ node depth', listExport fuel' st node exportChildren depth')
                  st listNode exportChildren depth (getChildren st listNode) 0 [];
      Ok (join LF output)
  end.

Definition UNORDERED_LIST : ElementTransformer := {|
  export := λ fuel st node exportChildren,
    if isListNode st (Some node)
    then Some <$> listExport fuel st node exportChildren 0
    else Ok None;
  regExp := UNORDERED_LIST_regExp;
  replace := listReplace ul;
  type := element;
|}.

Definition ORDERED_LIST : ElementTransformer := {|
  export := λ fuel st node exportChildren,
    if isListNode st (Some node)
    then Some <$> listExport fuel st node exportChildren 0
    else Ok None;
  regExp := ORDERED_LIST_regExp;
  replace := listReplace ol;
  type := element;
|}.

Definition HEADING : ElementTransformer := {|
  export := λ _ st node exportChildren,
    if negb (isHeadingNode st (Some node)) then Ok None
    else
      match getHeadingTag st node with
      | Some tag =>
          let level := Number (Some (slice1 tag)) in
          hashes ← repeat "#" level;
          Ok (Some (hashes ++ " " ++ exportChildren node))
      | None => Throw TypeError
      end;
  regExp := HEADING_regExp;
  replace := replaceWithBlock (λ match_,
    len ← lengthOf (group match_ 1);
    let tag := "h" ++ toString (Num (Z.of_nat len)) in
    createHeadingNode tag);
  type := element;
|}.

Definition QUOTE : ElementTransformer := {|
  export := λ _ st node exportChildren,
    Ok (if isQuoteNode st (Some node) then Some ("> " ++ exportChildren node) else None);
  regExp := QUOTE_regExp;
  replace := replaceWithBlock (λ _, createQuoteNode);
  type := element;
|}.

Module TextMatch.

Record TextMatchTransformer := {
  export : EditorState → NodeKey → ExportChildren → ExportFormat → result (option string);
  importRegExp : RegExp;
  regExp : RegExp;
  replace : NodeKey → MatchResult → M unit;
  trigger : string;
  type : TransformerType;
}.

End TextMatch.

Abbreviation TextMatchTransformer := TextMatch.TextMatchTransformer.

(** A value in a template literal: [undefined] prints as its name. *)
Definition template (v : option string) : string := default "undefined" v.

Section TextContent.

(** [node.getTextContent()], the text of a node and of what is below it, is
    the tree's own; the transformers only pass its result on. *)
Variable getTextContent : EditorState → NodeKey → string.

Definition CODE : ElementTransformer := {|
  export := λ _ st node _,
    match getNodeByKey st node with
    | Some {| __type := CodeNode language |} =>
        let textContent := getTextContent st node in
        Ok (Some ("```"
                  ++ match language with Some (String _ _ as l) => l | _ => "" end
                  ++ (if decide (textContent = "") then "" else LF ++ textContent)
                  ++ LF
                  ++ "```"))
    | _ => Ok None
    end;
  regExp := CODE_regExp;
  replace := replaceWithBlock (λ match_, createCodeNode (group match_ 1));
  type := element;
|}.

Definition LINK : TextMatchTransformer := {|
  TextMatch.export := λ st node exportChildren exportFormat,
    if negb (isLinkNode st (Some node)) then Ok None
    else
      match getURL st node with
      | Some url =>
          let linkContent := "[" ++ getTextContent st node ++ "](" ++ template url ++ ")" in
          let firstChild := getFirstChild st node in
          if bool_decide (getChildrenSize st node = 1) && isTextNode st firstChild then
            match firstChild with
            | Some child => Ok (Some (exportFormat child linkContent))
            | None => Throw TypeError
            end
          else Ok (Some linkContent)
      | None => Throw TypeError
      end;
  TextMatch.importRegExp := LINK_importRegExp;
  TextMatch.regExp := LINK_regExp;
  TextMatch.replace := λ textNode match_,
    let linkText := group match_ 1 in
    let linkUrl := group match_ 2 in
    linkNode ← createLinkNode linkUrl;
    linkTextNode ← createTextNode linkText;
    format ← getFormat textNode;
    setFormat linkTextNode format;;
    append linkNode [linkTextNode];;
    replaceNode textNode linkNode;
  TextMatch.trigger := ")";
  TextMatch.type := text_match;
|}.

End TextContent.

(** ** Block import

    Of [$convertFromMarkdownString] the sources at hand only have the
    declaration; its block importer is modelled from section 4.2 of the
    spec. *)

(** Modelled from the spec: [$createParagraphNode()]. *)
Definition createParagraphNode : M NodeKey := createNode ParagraphNode.

(** Modelled from the spec: [textNode.setTextContent(text)]. *)
Definition setTextContent (key : NodeKey) (text : string) : M unit :=
  node ← getLatest key;
  match __type node with
  | TextNode _ format =>
      setNode key {| __type := TextNode text format; __parent := __parent node;
                     __children := __children node; __indent := __indent node |}
  | _ => throw TypeError
  end.

(** Modelled from the spec: the element transformers are tried in order
    against the start of the line; the first that matches wins. *)
Fixpoint firstMatch (elementTransformers : list ElementTransformer) (lineText : string)
    : option (ElementTransformer * MatchResult) :=
  match elementTransformers with
  | [] => None
  | transformer :: rest =>
      match exec (regExp transformer) lineText with
      | Some match_ => Some (transformer, match_)
      | None => firstMatch rest lineText
      end
  end.

(** [text.slice(start)] *)
Definition sliceFrom (start : nat) (text : string) : string :=
  substring start (String.length text - start) text.

(** Modelled from the spec: the block importer for one line (section 4.2).
    The line becomes a paragraph with one text node, appended to the root;
    the first element transformer whose [regExp] matches the line gets
    [replace] called with the paragraph, the text node holding the text
    after the matched prefix, the captures, and [isImport = true]. A line
    that no transformer matches stays a plain paragraph. The inline
    matchers, which afterwards rewrite delimiters and links inside the text
    node, and the verbatim reading of fenced code are not part of this
    model. *)
Definition importBlocks (lineText : string) (rootNode : NodeKey)
    (elementTransformers : list ElementTransformer) : M unit :=
  textNode ← createTextNode (Some lineText);
  elementNode ← createParagraphNode;
  append elementNode [textNode];;
  append rootNode [elementNode];;
  match firstMatch elementTransformers lineText with
  | Some (transformer, match_) =>
      len ← lengthOf (group match_ 0);
      setTextContent textNode (sliceFrom len lineText);;
      replace transformer elementNode [textNode] match_ true
  | None => mret ()
  end.

(** [markdown.split('\n')] *)
Fixpoint splitLines (current : string) (markdown : string) : list string :=
  match markdown with
  | EmptyString => [current]
  | String c rest =>
      if decide (c = "010"%char) then current :: splitLines "" rest
      else splitLines (current ++ String c "") rest
  end.

(** Modelled from the spec: the key of the root node. *)
Definition root : NodeKey := 1%positive.

(** Modelled from the spec: the editor state of an empty document. *)
Definition emptyEditorState : EditorState := {|
  _nodeMap := {[ root := {| __type := RootNode; __parent := None;
                            __children := []; __indent := 0 |} ]};
  _keyCounter := 2%positive;
  _selection := None;
|}.

(** Modelled from the spec: [$convertFromMarkdownString], the block importer
    over the lines of the text. *)
Definition convertFromMarkdownString (markdown : string)
    (elementTransformers : list ElementTransformer) : M unit :=
  forEach (λ lineText, importBlocks lineText root elementTransformers)
          (splitLines "" markdown).

(** Modelled from the spec: the element transformers of the standard set,
    in the order of section 6. *)
Definition ELEMENT_TRANSFORMERS (getTextContent : EditorState → NodeKey → string)
    : list ElementTransformer :=
  [CODE getTextContent; HEADING; QUOTE; UNORDERED_LIST; ORDERED_LIST].

(** Modelled from the spec: the child exporter of the exporter (section 4.6),
    which is not part of the sources at hand, on the leaves it emits
    unchanged. A text leaf without style flags is emitted as its text; the
    results for the children are concatenated. The wrapping of styled leaves
    in their tags and the export of inline elements through the text-match
    transformers are not part of this model, which emits nothing for them. *)
Definition exportPlainChildren (st : EditorState) : ExportChildren := λ node,
  String.concat ""
    (map (λ child, match getNodeByKey st child with
                   | Some {| __type := TextNode text 0 |} => text
                   | _ => ""
                   end)
         (getChildren st node)).

(** The state that a computation leaves, and the state before it when it
    throws. *)
Definition execState (m : M unit) (st : EditorState) : EditorState :=
  match m st with
  | Ok (_, st') => st'
  | _ => st
  end.


(** ** Observations on the editor state, and the properties proved below *)

(** The parent pointer, the child keys and the type of a node. *)
Definition parentOf (st : EditorState) (key : NodeKey) : option NodeKey :=
  getNodeByKey st key ≫= __parent.

Definition childrenOf (st : EditorState) (key : NodeKey) : list NodeKey :=
  default [] (__children <$> getNodeByKey st key).

Definition nodeType (st : EditorState) (key : NodeKey) : option NodeType :=
  __type <$> getNodeByKey st key.

(** Node keys are handed out in increasing order: the keys of the node map
    are below the key counter. *)
Definition keysBelowCounter (st : EditorState) : Prop :=
  map_Forall (λ key _, (key < _keyCounter st)%positive) (_nodeMap st).

(** The imported documents used as examples. *)
Definition importOf (markdown : string) : EditorState :=
  execState (convertFromMarkdownString markdown (ELEMENT_TRANSFORMERS (λ _ _, "")))
            emptyEditorState.

(** *** Code fences *)

Definition allWord (tag : string) : bool :=
  forallb isWord (list_ascii_of_string tag).

(** A line that begins with a triple backtick followed by an optional
    language tag of 1 to 10 word characters. *)
Definition beginsWithFence (line : string) : Prop :=
  ∃ tag rest, line = "```" ++ tag ++ rest ∧ (String.length tag ≤ 10)%nat ∧ allWord tag = true.

(** The same, with a white space character after the tag. *)
Definition beginsWithFenceAndSpace (line : string) : Prop :=
  ∃ tag c rest, line = "```" ++ tag ++ String c rest
                ∧ (String.length tag ≤ 10)%nat ∧ allWord tag = true ∧ isSpace c = true.

(** *** Regular expressions *)

(** A pattern that begins with the start anchor. *)
Definition anchored (re : RegExp) : bool :=
  match pattern re with
  | Cat Start _ => true
  | _ => false
  end.

Definition allAccepted (cls : CharClass) (w : string) : bool :=
  forallb (accepts cls) (list_ascii_of_string w).

Definition withinMax (max : option nat) (n : nat) : Prop :=
  match max with
  | None => True
  | Some m => (n ≤ m)%nat
  end.

(** The next character, if any, cannot extend the repetition. *)
Definition stopsAt (cls : CharClass) (max : option nat) (n : nat) (rest : string) : Prop :=
  max = Some n ∨ match rest with
                 | EmptyString => True
                 | String c _ => accepts cls c = false
                 end.

(** *** The examples of the spec *)

Definition orderedExample : string := "5. a" ++ LF ++ "6. b" ++ LF.

(** *** What a mutation leaves in place

    [unmoved moved st st']: from [st] to [st'] no node was created, every
    node has kept its type and indent, every node outside [moved] has kept
    its parent, and the children of every node are the same as far as the
    nodes outside [moved] go. *)
Record unmoved (moved : list NodeKey) (st st' : EditorState) : Prop := {
  unmoved_counter : _keyCounter st' = _keyCounter st;
  unmoved_type : ∀ key, nodeType st' key = nodeType st key;
  unmoved_indent : ∀ key, getIndent st' key = getIndent st key;
  unmoved_parent : ∀ key, key ∉ moved → parentOf st' key = parentOf st key;
  unmoved_child : ∀ key x, x ∉ moved → x ∈ childrenOf st' key ↔ x ∈ childrenOf st key;
}.

(** *** Where [listReplace] puts the list item

    The list item is the node that [listReplace] creates first, under the key
    that the key counter holds before. *)

(** The previous sibling of the block is a list of the kind of the
    transformer. *)
Definition previousIsList (listTag : ListTag) (st : EditorState) (parentNode : NodeKey)
    : bool :=
  match getPreviousSibling parentNode st with
  | Ok (previousNode, _) =>
      isListNode st previousNode && bool_decide (getListTag st previousNode = Some listTag)
  | _ => false
  end.

(** The indent computed from the first capture. *)
Definition computedIndent (match_ : MatchResult) : option nat :=
  (λ s, String.length s / LIST_INDENT_SIZE) <$> group match_ 1.

(** The list item was appended to the previous sibling of the block: the
    sibling is its parent and has it as its last child, and no other node
    was created. *)
Definition appendedToPrevious (parentNode : NodeKey) (st st' : EditorState) : Prop :=
  let listItem := _keyCounter st in
  ∃ previous,
    getPreviousSibling parentNode st = Ok (Some previous, st)
    ∧ nodeType st' listItem = Some ListItemNode
    ∧ parentOf st' listItem = Some previous
    ∧ last (childrenOf st' previous) = Some listItem
    ∧ _keyCounter st' = Pos.succ listItem.

(** A list node of the kind of the transformer was created after the list
    item, and holds the item and nothing else; no other node was created. *)
Definition heldByNewList (listTag : ListTag) (st st' : EditorState) : Prop :=
  let listItem := _keyCounter st in
  let list := Pos.succ listItem in
  nodeType st list = None
  ∧ (∃ start, nodeType st' list = Some (ListNode listTag start))
  ∧ nodeType st' listItem = Some ListItemNode
  ∧ parentOf st' listItem = Some list
  ∧ childrenOf st' list = [listItem]
  ∧ _keyCounter st' = Pos.succ list.

(** A list node was created, whatever its key and its kind, and is the
    parent of the list item. *)
Definition heldByCreatedList (st st' : EditorState) : Prop :=
  ∃ list,
    nodeType st list = None
    ∧ isListNode st' (Some list) = true
    ∧ parentOf st' (_keyCounter st) = Some list.

(** C1 as the claim states it, for one call of [listReplace] with the
    [setIndent] given: the item is appended to the previous sibling exactly
    when that sibling is a list of the same kind and the computed indent is
    0, and in every other case a list node is created to hold it. *)
Definition listReplaceClaim (setItemIndent : NodeKey → nat → M unit) (listTag : ListTag)
    (parentNode : NodeKey) (children : list NodeKey) (match_ : MatchResult)
    (st : EditorState) : Prop :=
  ∀ st',
    listReplaceWith setItemIndent listTag parentNode children match_ true st = Ok ((), st') →
    (appendedToPrevious parentNode st st'
     ↔ previousIsList listTag st parentNode = true ∧ computedIndent match_ = Some 0)
    ∧ (¬ (previousIsList listTag st parentNode = true ∧ computedIndent match_ = Some 0)
       → heldByCreatedList st st').

(** The state in which [listReplace] hands the list item to [setIndent]:
    the state that it leaves when [setIndent] does nothing. *)
Definition placeListItem : ListTag → NodeKey → list NodeKey → MatchResult → bool → M unit :=
  listReplaceWith (λ _ _, mret ()).

(** A paragraph with the text of a line, appended to the root, as the block
    importer hands it to [replace]. *)
Definition lineBlock (text : string) : M unit :=
  textNode ← createTextNode (Some text);
  elementNode ← createParagraphNode;
  append elementNode [textNode];;
  append root [elementNode].

(** The document of the one-item list of [a], followed by the block of the
    line of [b]: the root holds the list 5 and the paragraph 7, which holds
    the text 6; the next key is 8. *)
Definition secondLineState : EditorState :=
  execState (lineBlock "b") (importOf "- a").

(** The match of the second line, indented by four spaces, and the state
    after [listReplace] on its block. *)
Definition secondLineMatch : MatchResult := [Some "    - "; Some "    "].

Definition secondLineReplaced : EditorState :=
  execState (listReplace ul 7%positive [6%positive] secondLineMatch true) secondLineState.

(** The same with [setIndent] as nesting: the list 5 holds the item 4 and
    the new item 9, whose child is the new list 10 of the item 8 of the
    second line. Then the block of a third line: the root holds the list 5
    and the paragraph 12, which holds the text 11; the next key is 13. *)
Definition secondLineNested : EditorState :=
  execState (listReplaceWith ListItem.setIndent ul 7%positive [6%positive]
               secondLineMatch true) secondLineState.

Definition thirdLineState : EditorState :=
  execState (lineBlock "c") secondLineNested.

Definition thirdLineNested : EditorState :=
  execState (listReplaceWith ListItem.setIndent ul 12%positive [11%positive]
               secondLineMatch true) thirdLineState.

(** The white space at the start of a line. *)
Fixpoint leadingSpace (line : string) : string :=
  match line with
  | String c rest => if isSpace c then String c (leadingSpace rest) else ""
  | EmptyString => ""
  end.

(** *** Headings *)

(** The state in which the block importer calls [replace] for the line of a
    heading marker without text: the paragraph 3 holds the empty text 2. *)
Definition emptyHeadingBlock : EditorState :=
  execState (lineBlock "") emptyEditorState.

Definition emptyHeadingMatch : MatchResult := [Some "### "; Some "###"].

Definition emptyHeadingReplaced : EditorState :=
  execState (replace HEADING 3%positive [2%positive] emptyHeadingMatch true)
            emptyHeadingBlock.

(** *** Links *)

(** The child of a link that has exactly one child, when that child is a
    text node. *)
Definition soleTextChild (st : EditorState) (node : NodeKey) : option NodeKey :=
  match childrenOf st node with
  | [child] => if isTextNode st (Some child) then Some child else None
  | _ => None
  end.

(** The text of the text children of a node, which is the text content of a
    link whose children are text nodes. *)
Definition childTexts (st : EditorState) (node : NodeKey) : string :=
  String.concat ""
    (map (λ child, match getNodeByKey st child with
                   | Some {| __type := TextNode text _ |} => text
                   | _ => ""
                   end)
         (getChildren st node)).

(** The block of a line that ends in a link, with its text in bold (format
    1): the paragraph 3 holds the text 2. *)
Definition linkTextState : EditorState :=
  execState (lineBlock "[a](b)";; setFormat 2%positive 1) emptyEditorState.

Definition linkMatch : MatchResult := [Some "[a](b)"; Some "a"; Some "b"].

Definition linkReplaced : EditorState :=
  execState (TextMatch.replace (LINK childTexts) 2%positive linkMatch) linkTextState.

(** *** The lines of an exported list *)

(** A list item whose sole child is a list. *)
Definition isNestedItem (st : EditorState) (item : NodeKey) : bool :=
  bool_decide (getChildrenSize st item = 1) && isListNode st (getFirstChild st item).

(** The list items among the children of a list, in order. *)
Definition listItems (st : EditorState) (listNode : NodeKey) : list NodeKey :=
  filter (λ child, isListItemNode st (Some child)) (getChildren st listNode).

(** The number of marker lines emitted for the first [i] items. *)
Definition markersBefore (st : EditorState) (items : list NodeKey) (i : nat) : nat :=
  length (filter (λ item, negb (isNestedItem st item)) (take i items)).

Definition listMarker (tag : ListTag) (start : number) (count : nat) : string :=
  match tag with
  | ul => "- "
  | ol => toString (plus start count) ++ ". "
  end.

(** What the item at position [i] of a list at [depth] contributes: the
    export of its sublist one level deeper, or its marker line. *)
Definition itemLines (fuel : nat) (st : EditorState) (exportChildren : ExportChildren)
    (tag : ListTag) (start : number) (depth : nat) (items : list NodeKey)
    (i : nat) (item : NodeKey) : result string :=
  if isNestedItem st item then
    match getFirstChild st item with
    | Some sublist => listExport fuel st sublist exportChildren (depth + 1)
    | None => Throw TypeError
    end
  else
    Ok (repeat_nat " " (depth * 4) ++ listMarker tag start (markersBefore st items i)
        ++ exportChildren item).

(** The lists below a list are nested at most [fuel] levels deep. *)
Fixpoint nestedWithin (fuel : nat) (st : EditorState) (listNode : NodeKey) : bool :=
  forallb (λ item,
             if isNestedItem st item then
               match fuel, getFirstChild st item with
               | S fuel', Some sublist => nestedWithin fuel' st sublist
               | _, _ => false
               end
             else true)
          (listItems st listNode).

(** The document of a list with a nested list: the unordered list 2 of the
    root holds the item 3 with the text 4, and the item 5 whose sole child is
    the ordered list 6, starting at 3, of the items 7 and 9 with the texts 8
    and 10. *)
Definition nestedListState : EditorState :=
  execState
    (list ← createListNode ul None;
     item1 ← createListItemNode;
     text1 ← createTextNode (Some "a");
     item2 ← createListItemNode;
     sublist ← createListNode ol (Some (Num 3));
     item3 ← createListItemNode;
     text3 ← createTextNode (Some "b");
     item4 ← createListItemNode;
     text4 ← createTextNode (Some "c");
     append root [list];;
     append list [item1; item2];;
     append item1 [text1];;
     append item2 [sublist];;
     append sublist [item3; item4];;
     append item3 [text3];;
     append item4 [text4])
    emptyEditorState.

(** *** Well-formed documents

    The keys of the node map are below the key counter, and every node that
    has a parent is among the children of that parent. *)
Definition holdsChild (st : EditorState) (key : NodeKey) (node : LexicalNode) : bool :=
  match __parent node with
  | Some parent => bool_decide (key ∈ childrenOf st parent)
  | None => true
  end.

Definition wellFormed (st : EditorState) : Prop :=
  keysBelowCounter st
  ∧ map_Forall (λ key node, holdsChild st key node = true) (_nodeMap st).

(** A node that is among the children of the parent it points to, if any. *)
Definition attachedTo (st : EditorState) (key : NodeKey) : Prop :=
  ∀ parent, parentOf st key = Some parent → key ∈ childrenOf st parent.

Global Instance wellFormed_dec (st : EditorState) : Decision (wellFormed st).
Proof. unfold wellFormed, keysBelowCounter. apply _. Defined.

(** *** The element transformers side by side *)

(** The element transformers that the file exports, in the order of their
    declaration. *)
Definition elementTransformers (getTextContent : EditorState → NodeKey → string)
    : list ElementTransformer :=
  [HEADING; QUOTE; CODE getTextContent; UNORDERED_LIST; ORDERED_LIST].

(** The first character of a line after the white space at its start. *)
Fixpoint firstMark (line : string) : option ascii :=
  match line with
  | String c rest => if isSpace c then firstMark rest else Some c
  | EmptyString => None
  end.

(** *** Links in text *)

(** A text in which the character [c] does not occur. *)
Definition without (c : ascii) (s : string) : bool := allAccepted (NoneOf [c]) s.

(** The text of a link: the link text in brackets, then the URL in
    parentheses. *)
Definition bracketForm (linkText linkUrl : string) : string :=
  "[" ++ linkText ++ "](" ++ linkUrl ++ ")".

(** A link text and a URL that the regular expressions of [LINK] can
    capture: neither is empty, the text has no opening bracket and the URL no
    opening parenthesis. *)
Definition capturable (linkText linkUrl : string) : Prop :=
  linkText ≠ "" ∧ without "[" linkText = true
  ∧ linkUrl ≠ "" ∧ without "(" linkUrl = true.

(** *** Example documents *)

(** The document of the one-item ordered list that starts at 5, followed by
    the block of a second line: the root holds the list 5 and the paragraph
    7, which holds the text 6. *)
Definition orderedSecondLineState : EditorState :=
  execState (lineBlock "b") (importOf "5. a").

(** The text of an ordered list of two lines: each line is digits, a dot, a
    space and a text, and ends with a line feed. *)
Definition orderedLines (digits1 text1 digits2 text2 : string) : string :=
  digits1 ++ ". " ++ text1 ++ LF ++ digits2 ++ ". " ++ text2 ++ LF.

(** A code node with the language [js] and a quote node under the root. *)
Definition codeBlockState : EditorState :=
  execState (node ← createCodeNode (Some "js"); append root [node]) emptyEditorState.

Definition quoteBlockState : EditorState :=
  execState (node ← createQuoteNode; append root [node]) emptyEditorState.

(** An ordered list without items under the root. *)
Definition emptyListState : EditorState :=
  execState (list ← createListNode ol (Some (Num 7)); append root [list]) emptyEditorState.

(** ** Properties *)

(** C10: [UNORDERED_LIST.export] and [ORDERED_LIST.export] return the same
    result for every node and every child exporter: [null] for a node that is
    not a list, and [listExport] of the node at depth 0 for a list, whose
    markers follow the tag of the list node itself. *)
Theorem list_exports_agree (fuel : nat) (st : EditorState) (node : NodeKey)
    (exportChildren : ExportChildren) :
  export UNORDERED_LIST fuel st node exportChildren
    = export ORDERED_LIST fuel st node exportChildren
  ∧ export UNORDERED_LIST fuel st node exportChildren
    = (if isListNode st (Some node)
       then Some <$> listExport fuel st node exportChildren 0
       else Ok None)
  ∧ export ORDERED_LIST fuel st node exportChildren
    = (if isListNode st (Some node)
       then Some <$> listExport fuel st node exportChildren 0
       else Ok None).
Proof. repeat split. Qed.

(** *** Regular expressions: searching an anchored pattern, and the greedy
    repetition of a character class *)

Lemma matchAt_anchored re pos s :
  anchored re = true → matchAt re (S pos) s = None.
Proof.
  unfold anchored, matchAt. destruct (pattern re) as [| p q | | | | |]; try done.
  destruct p; try done.
Qed.

Lemma search_anchored re pos s :
  anchored re = true → search re (S pos) s = None.
Proof.
  intros Ha. revert pos. induction s as [|c s IH]; intros pos; simpl;
    rewrite matchAt_anchored by done; auto.
Qed.

Lemma exec_anchored re text :
  anchored re = true → exec re text = matchAt re 0 text.
Proof.
  intros Ha. unfold exec. destruct text as [|c s]; simpl.
  - by destruct (matchAt re 0 "").
  - destruct (matchAt re 0 (String c s)); [done|]. by apply search_anchored.
Qed.

(** A repetition that matches has taken some accepted characters, within
    its bounds, and the rest of the pattern matches from there. *)
Lemma matchRep_Some cls min max count pos s caps k r :
  withinMax max count →
  matchRep cls min max count pos s caps k = Some r →
  ∃ w rest, s = w ++ rest ∧ allAccepted cls w = true
            ∧ (min ≤ count + String.length w)%nat
            ∧ withinMax max (count + String.length w)
            ∧ k (pos + String.length w)%nat rest caps = Some r.
Proof.
  revert count pos. induction s as [|c s IH]; intros count pos Hmax; simpl.
  - destruct (min <=? count)%nat eqn:Hmin; [|done]. intros Hk.
    exists "", "". simpl. rewrite !Nat.add_0_r. apply Nat.leb_le in Hmin. done.
  - assert (Hstop : (if (min <=? count)%nat then k pos (String c s) caps else None) = Some r →
      ∃ w rest, String c s = w ++ rest ∧ allAccepted cls w = true
            ∧ (min ≤ count + String.length w)%nat
            ∧ withinMax max (count + String.length w)
            ∧ k (pos + String.length w)%nat rest caps = Some r).
    { destruct (min <=? count)%nat eqn:Hmin; [|done]. intros Hk.
      exists "", (String c s). simpl. rewrite !Nat.add_0_r. apply Nat.leb_le in Hmin. done. }
    destruct (below max count && accepts cls c) eqn:Htake; [|done].
    apply andb_prop in Htake as [Hbelow Hacc].
    destruct (matchRep cls min max (S count) (S pos) s caps k) as [r'|] eqn:Hrec; [|done].
    intros [= ->]. apply IH in Hrec as (w & rest & -> & Hw & Hmin & Hmax' & Hk).
    + exists (String c w), rest. simpl. unfold allAccepted in *. simpl. rewrite Hacc, Hw.
      rewrite !Nat.add_succ_r. done.
    + destruct max as [m|]; simpl in *; [|done]. apply Nat.ltb_lt in Hbelow. lia.
Qed.

(** A repetition takes all the accepted characters that its bounds allow
    when the rest of the pattern matches after them. *)
Lemma matchRep_greedy cls min max count pos w rest caps k r :
  allAccepted cls w = true →
  withinMax max (count + String.length w) →
  stopsAt cls max (count + String.length w) rest →
  (min ≤ count + String.length w)%nat →
  k (pos + String.length w)%nat rest caps = Some r →
  matchRep cls min max count pos (w ++ rest) caps k = Some r.
Proof.
  revert count pos. induction w as [|c w IH]; intros count pos Hw Hmax Hstop Hmin Hk; simpl in *.
  - rewrite !Nat.add_0_r in *. apply Nat.leb_le in Hmin.
    destruct rest as [|c rest]; simpl; rewrite Hmin; [done|].
    destruct Hstop as [-> | Hc].
    + simpl. by rewrite Nat.ltb_irrefl.
    + by rewrite Hc, andb_false_r.
  - unfold allAccepted in Hw. simpl in Hw. apply andb_prop in Hw as [Hc Hw].
    rewrite !Nat.add_succ_r in *.
    assert (Hbelow : below max count = true).
    { destruct max as [m|]; simpl in *; [|done]. apply Nat.ltb_lt. lia. }
    rewrite Hbelow, Hc. simpl.
    by rewrite (IH (S count) (S pos)).
Qed.

Lemma isSpace_not_word c : isSpace c = true → isWord c = false.
Proof. destruct c as [[] [] [] [] [] [] [] []]; vm_compute; congruence. Qed.

Lemma matchAt_is_Some re pos s :
  is_Some (matchAt re pos s)
  ↔ is_Some (matchPattern (pattern re) pos s (replicate (S (groups re)) None)
               (λ pos' _ caps, Some (pos', caps))).
Proof.
  unfold matchAt. destruct (matchPattern _ _ _ _ _) as [[pos' caps]|]; split;
    intros [x Hx]; try done; eauto.
Qed.

(** C4, as the code has it: a line matches the regular expression of the
    code-fence transformer exactly when it begins with a triple backtick,
    then an optional language tag of 1 to 10 word characters, then a white
    space character. *)
Theorem CODE_regExp_matches (getTextContent : EditorState → NodeKey → string)
    (line : string) :
  is_Some (exec (regExp (CODE getTextContent)) line) ↔ beginsWithFenceAndSpace line.
Proof.
  simpl. rewrite exec_anchored by done. rewrite matchAt_is_Some.
  unfold beginsWithFenceAndSpace. split.
  - intros [r Hr]. simpl in Hr.
    destruct line as [|c1 line]; [done|].
    destruct (bool_decide (c1 = "`"%char)) eqn:H1; [|done].
    destruct line as [|c2 line]; [done|].
    destruct (bool_decide (c2 = "`"%char)) eqn:H2; [|done].
    destruct line as [|c3 s]; [done|].
    destruct (bool_decide (c3 = "`"%char)) eqn:H3; [|done].
    apply bool_decide_eq_true in H1, H2, H3. subst.
    destruct (matchRep Word 1 (Some 10) 0 3 s _ _) as [r'|] eqn:Hrep.
    + apply matchRep_Some in Hrep as (w & rest & -> & Hw & Hmin & Hmax & Hk); [|simpl; lia].
      simpl in Hk. destruct rest as [|c rest]; [done|].
      destruct (isSpace c) eqn:Hc; [|done].
      exists w, c, rest. simpl in *. by split_and!.
    + simpl in Hr. destruct s as [|c rest]; [done|].
      destruct (isSpace c) eqn:Hc; [|done].
      exists "", c, rest. simpl. split_and!; try done. lia.
  - intros (tag & c & rest & -> & Hlen & Hw & Hc). simpl.
    destruct tag as [|t tag].
    + simpl. rewrite (isSpace_not_word c Hc). simpl. rewrite Hc. by eexists.
    + change ("" +:+ String t tag +:+ String c rest)
        with (String t tag +:+ String c rest).
      erewrite (matchRep_greedy Word 1 (Some 10) 0 3 (String t tag)); [by eexists|done|..].
      * simpl in *. lia.
      * right. simpl. by apply isSpace_not_word.
      * simpl. lia.
      * simpl. rewrite Hc. done.
Qed.

(** C4, as the claim states it, fails on a fence line that ends after the
    language tag: it begins with a triple backtick and a tag, and the regular
    expression, which wants a white space character next, does not match. *)
Lemma CODE_regExp_wants_space :
  ¬ (is_Some (exec CODE_regExp "```js") ↔ beginsWithFence "```js").
Proof.
  intros [_ H].
  assert (Hb : beginsWithFence "```js").
  { exists "js", "". split_and!; [reflexivity | simpl; lia | reflexivity]. }
  apply H in Hb as [m Hm]. vm_compute in Hm. done.
Qed.

(** C9: the line that only has a heading marker of three characters is
    accepted: the heading transformer matches it and the import makes a
    heading of level 3 whose only child is an empty text; the export of the
    heading is the marker followed by the export of its children, which is
    again the line when the children export as the empty string. *)
Theorem empty_heading_round_trip (getTextContent : EditorState → NodeKey → string) :
  ∃ st,
    importBlocks "### " root (ELEMENT_TRANSFORMERS getTextContent) emptyEditorState
      = Ok ((), st)
    ∧ exec (regExp HEADING) "### " = Some [Some "### "; Some "###"]
    ∧ childrenOf st root = [4%positive]
    ∧ getNodeByKey st 4%positive
      = Some {| __type := HeadingNode "h3"; __parent := Some root;
                __children := [2%positive]; __indent := 0 |}
    ∧ getNodeByKey st 2%positive
      = Some {| __type := TextNode "" 0; __parent := Some 4%positive;
                __children := []; __indent := 0 |}
    ∧ (∀ fuel exportChildren,
         export HEADING fuel st 4%positive exportChildren
         = Ok (Some ("### " ++ exportChildren 4%positive)))
    ∧ ∀ fuel, export HEADING fuel st 4%positive (exportPlainChildren st) = Ok (Some "### ").
Proof.
  exists (execState (importBlocks "### " root (ELEMENT_TRANSFORMERS getTextContent))
                    emptyEditorState).
  split_and!; vm_compute; reflexivity.
Qed.

(** *** Computations in the editor state *)

Lemma bind_Ok {A B} (m : M A) (f : A → M B) st b st' :
  (m ≫= f) st = Ok (b, st') → ∃ a st1, m st = Ok (a, st1) ∧ f a st1 = Ok (b, st').
Proof.
  unfold mbind, M_bind. destruct (m st) as [[a st1]| |]; try done. eauto.
Qed.

Lemma ret_Ok {A} (a b : A) st st' : mret (M := M) a st = Ok (b, st') → b = a ∧ st' = st.
Proof. by intros [= -> ->]. Qed.

Lemma gets_Ok {A} (f : EditorState → A) st a st' :
  gets f st = Ok (a, st') → a = f st ∧ st' = st.
Proof. by intros [= <- <-]. Qed.

Lemma getLatest_Ok key st node st' :
  getLatest key st = Ok (node, st') → getNodeByKey st key = Some node ∧ st' = st.
Proof. unfold getLatest. destruct (getNodeByKey st key); by intros [= <- <-]. Qed.

Lemma setNode_Ok key node st u st' :
  setNode key node st = Ok (u, st') →
  (∀ k, getNodeByKey st' k = if decide (key = k) then Some node else getNodeByKey st k)
  ∧ _keyCounter st' = _keyCounter st ∧ _selection st' = _selection st.
Proof.
  intros [= <- <-]. split_and!; try done. intros k. unfold getNodeByKey. simpl.
  by rewrite lookup_insert.
Qed.

Lemma createNode_Ok type st key st' :
  createNode type st = Ok (key, st') →
  key = _keyCounter st
  ∧ _keyCounter st' = Pos.succ key
  ∧ (∀ k, getNodeByKey st' k
          = if decide (key = k)
            then Some {| __type := type; __parent := None; __children := []; __indent := 0 |}
            else getNodeByKey st k).
Proof.
  intros [= <- <-]. split_and!; try done. intros k. unfold getNodeByKey. simpl.
  by rewrite lookup_insert.
Qed.

Lemma throw_Ok {A} e st (a : A) st' : throw e st = Ok (a, st') → False.
Proof. done. Qed.

(** Steps through the binds of a computation that ended in [Ok]. *)
Ltac steps :=
  repeat match goal with
    | H : (_ ≫= _) _ = Ok _ |- _ => apply bind_Ok in H as (? & ? & ? & H)
    | H : mret _ _ = Ok _ |- _ => apply ret_Ok in H as [? ?]; subst
    | H : gets _ _ = Ok _ |- _ => apply gets_Ok in H as [? ?]; subst
    | H : getLatest _ _ = Ok _ |- _ => apply getLatest_Ok in H as [H ?]; subst
    | H : throw _ _ = Ok _ |- _ => destruct (throw_Ok _ _ _ _ H)
    end.

Lemma keysBelowCounter_fresh st key :
  keysBelowCounter st → (_keyCounter st ≤ key)%positive → getNodeByKey st key = None.
Proof.
  intros Hst Hle. destruct (getNodeByKey st key) eqn:Hk; [|done].
  apply Hst in Hk. simpl in Hk. lia.
Qed.

Lemma unmoved_refl moved st : unmoved moved st st.
Proof. by split. Qed.

Lemma unmoved_trans moved1 moved2 st st1 st2 :
  unmoved moved1 st st1 → unmoved moved2 st1 st2 → unmoved (moved1 ++ moved2) st st2.
Proof.
  intros [Hc1 Ht1 Hi1 Hp1 Hx1] [Hc2 Ht2 Hi2 Hp2 Hx2]. split; intros.
  - congruence.
  - congruence.
  - congruence.
  - match goal with H : _ ∉ (_ ++ _)%list |- _ => apply not_elem_of_app in H as [? ?] end.
    by rewrite Hp2, Hp1.
  - match goal with H : _ ∉ (_ ++ _)%list |- _ => apply not_elem_of_app in H as [? ?] end.
    by rewrite Hx2, Hx1.
Qed.

Lemma unmoved_weaken moved moved' st st' :
  moved ⊆ moved' → unmoved moved st st' → unmoved moved' st st'.
Proof.
  intros Hsub [Hc Ht Hi Hp Hx]. split; intros; auto.
Qed.

Lemma unmoved_step moved st st1 st2 :
  unmoved moved st st1 → unmoved moved st1 st2 → unmoved moved st st2.
Proof.
  intros H1 H2. eapply unmoved_weaken; [|by eapply unmoved_trans]. set_solver.
Qed.

(** A node that gets other children, the same as far as the nodes outside
    [moved] go. *)
Lemma setChildren_unmoved moved key node children st u st' :
  getNodeByKey st key = Some node →
  (∀ x, x ∉ moved → x ∈ children ↔ x ∈ __children node) →
  setNode key (setChildren children node) st = Ok (u, st') →
  unmoved moved st st'.
Proof.
  intros Hnode Hsame (Hget & Hcounter & _)%setNode_Ok.
  split; try done; intros; unfold nodeType, getIndent, parentOf, childrenOf;
    rewrite Hget; case_decide; subst; rewrite ?Hnode; try done.
  simpl. by apply Hsame.
Qed.

(** A moved node that gets another parent. *)
Lemma setParent_unmoved moved key node parent st u st' :
  getNodeByKey st key = Some node →
  key ∈ moved →
  setNode key (setParent parent node) st = Ok (u, st') →
  unmoved moved st st'.
Proof.
  intros Hnode Hmoved (Hget & Hcounter & _)%setNode_Ok.
  split; try done; intros; unfold nodeType, getIndent, parentOf, childrenOf;
    rewrite Hget; case_decide; subst; rewrite ?Hnode; try done.
Qed.

Lemma indexOf_Some key keys index :
  indexOf key keys = Some index →
  keys = (take index keys ++ key :: drop (S index) keys)%list ∧ key ∉ take index keys.
Proof.
  revert index. induction keys as [|k keys IH]; intros index; simpl; [done|].
  case_decide as Hk.
  - intros [= <-]. subst. simpl. rewrite drop_0. split; [done|]. set_solver.
  - destruct (indexOf key keys) as [i|]; [|done]. intros [= <-]. simpl.
    destruct (IH i eq_refl) as [Heq Hnotin]. split; [by rewrite <- Heq|].
    set_solver.
Qed.

Lemma elem_of_spliceOut key keys index x :
  indexOf key keys = Some index → x ≠ key → x ∈ spliceOut index keys ↔ x ∈ keys.
Proof.
  intros [Heq _]%indexOf_Some Hx. unfold spliceOut. rewrite Heq at 3. set_solver.
Qed.

Lemma elem_of_spliceIn key keys index x :
  x ∈ spliceIn index key keys ↔ x = key ∨ x ∈ keys.
Proof.
  unfold spliceIn. rewrite <- (take_drop index keys) at 3. set_solver.
Qed.

Lemma removeFromParent_unmoved key st u st' :
  removeFromParent key st = Ok (u, st') → unmoved [key] st st'.
Proof.
  unfold removeFromParent. intros H. steps.
  destruct (getParent _ key) as [parentKey|]; steps; [|apply unmoved_refl].
  match goal with
  | H : context [indexOf ?k ?l] |- _ => destruct (indexOf k l) as [index|] eqn:Hindex
  end; steps.
  eapply setChildren_unmoved; [done| |done].
  intros y Hy. eapply elem_of_spliceOut; [exact Hindex | set_solver].
Qed.

Lemma appendNode_unmoved self nodeToAppend st u st' :
  appendNode self nodeToAppend st = Ok (u, st') → unmoved [nodeToAppend] st st'.
Proof.
  unfold appendNode. intros H. steps.
  repeat match goal with
    | H : removeFromParent _ _ = Ok _ |- _ => apply removeFromParent_unmoved in H
    | H : setNode _ (setParent _ _) _ = Ok _ |- _ =>
        eapply (setParent_unmoved [nodeToAppend]) in H; [|done|set_solver]
    | H : setNode _ (setChildren _ _) _ = Ok _ |- _ =>
        eapply (setChildren_unmoved [nodeToAppend]) in H; [|done|set_solver]
    end.
  eauto using unmoved_step.
Qed.

(** After [self.append(node)] the node is a child of [self], and [self] its
    parent. *)
Lemma appendNode_child self nodeToAppend st u st' :
  appendNode self nodeToAppend st = Ok (u, st') →
  parentOf st' nodeToAppend = Some self ∧ nodeToAppend ∈ childrenOf st' self.
Proof.
  unfold appendNode. intros H. steps.
  match goal with
  | H1 : setNode nodeToAppend _ ?s1 = Ok (_, ?s2), H2 : setNode self _ ?s2 = Ok _,
    H3 : getNodeByKey ?s2 self = Some _ |- _ =>
      apply setNode_Ok in H1 as (Hget1 & _); apply setNode_Ok in H2 as (Hget2 & _);
      rename H3 into Hself
  end.
  unfold parentOf, childrenOf. rewrite !Hget2. split.
  - case_decide as Heq.
    + subst. rewrite Hget1 in Hself. rewrite decide_True in Hself by done.
      by injection Hself as <-.
    + rewrite Hget1. by rewrite decide_True.
  - rewrite decide_True by done. simpl. set_solver.
Qed.

Lemma forEach_unmoved (f : NodeKey → M unit) nodes st u st' :
  (∀ node st1 u1 st2, f node st1 = Ok (u1, st2) → unmoved [node] st1 st2) →
  forEach f nodes st = Ok (u, st') → unmoved nodes st st'.
Proof.
  intros Hf. revert st. induction nodes as [|node nodes IH]; intros st H; simpl in H; steps.
  - apply unmoved_refl.
  - match goal with H : f _ _ = Ok _ |- _ => apply Hf in H end. apply IH in H.
    change (node :: nodes) with ([node] ++ nodes)%list. eauto using unmoved_trans.
Qed.

Lemma append_unmoved self nodes st u st' :
  append self nodes st = Ok (u, st') → unmoved nodes st st'.
Proof.
  unfold append. intros H. steps.
  eapply forEach_unmoved; [|done]. intros. by eapply appendNode_unmoved.
Qed.

Lemma append_one self node st u st' :
  append self [node] st = Ok (u, st') → appendNode self node st = Ok (u, st').
Proof.
  unfold append. intros H. steps. simpl in *. steps.
  match goal with H : appendNode _ _ _ = Ok (?x, _) |- _ => by destruct x end.
Qed.

Lemma remove_unmoved key st u st' :
  remove key st = Ok (u, st') → unmoved [key] st st'.
Proof.
  unfold remove. intros H. steps.
  destruct (getParent _ key); steps; [|apply unmoved_refl].
  repeat match goal with
    | H : removeFromParent _ _ = Ok _ |- _ => apply removeFromParent_unmoved in H
    | H : setNode _ (setParent _ _) _ = Ok _ |- _ =>
        eapply (setParent_unmoved [key]) in H; [|done|set_solver]
    end.
  eauto using unmoved_step.
Qed.

Lemma select_unmoved key anchorOffset focusOffset st u st' :
  select key anchorOffset focusOffset st = Ok (u, st') → unmoved [] st st'.
Proof.
  unfold select. destruct (getNodeByKey st key); [|done]. intros [= <- <-]. by split.
Qed.

Lemma replaceNode_unmoved self replaceWith st u st' :
  replaceNode self replaceWith st = Ok (u, st') → unmoved [self; replaceWith] st st'.
Proof.
  unfold replaceNode. intros H. steps.
  destruct (getParent _ self) as [parentKey|]; steps.
  match goal with
  | H : context [indexOf ?k ?l] |- _ => destruct (indexOf k l) as [index|] eqn:Hindex
  end; steps.
  repeat match goal with
    | H : removeFromParent _ _ = Ok _ |- _ =>
        apply removeFromParent_unmoved, (unmoved_weaken _ [self; replaceWith]) in H;
        [|set_solver]
    | H : remove _ _ = Ok _ |- _ =>
        apply remove_unmoved, (unmoved_weaken _ [self; replaceWith]) in H; [|set_solver]
    | H : setNode _ (setParent _ _) _ = Ok _ |- _ =>
        eapply (setParent_unmoved [self; replaceWith]) in H; [|done|set_solver]
    | H : setNode _ (setChildren _ _) _ = Ok _ |- _ =>
        eapply (setChildren_unmoved [self; replaceWith]) in H;
        [|done|intros y Hy; rewrite elem_of_spliceIn; set_solver]
    end.
  eauto using unmoved_step.
Qed.

(** After [self.replace(node)] the node is a child of the parent that [self]
    had, and that parent is its parent. *)
Lemma replaceNode_child self replaceWith st u st' :
  replaceNode self replaceWith st = Ok (u, st') →
  replaceWith ≠ self →
  ∃ parentKey, parentOf st' replaceWith = Some parentKey
               ∧ replaceWith ∈ childrenOf st' parentKey.
Proof.
  unfold replaceNode. intros H Hne. steps.
  destruct (getParent _ self) as [parentKey|]; steps.
  match goal with
  | H : context [indexOf ?k ?l] |- _ => destruct (indexOf k l) as [index|] eqn:Hindex
  end; steps.
  exists parentKey.
  match goal with
  | H1 : setNode parentKey _ _ = Ok (_, ?s2), H2 : setNode replaceWith _ ?s2 = Ok (_, ?s3),
    H3 : getNodeByKey ?s2 replaceWith = Some _, H4 : remove self _ = Ok _ |- _ =>
      apply setNode_Ok in H1 as (Hget1 & _); apply setNode_Ok in H2 as (Hget2 & _);
      apply remove_unmoved in H4 as [_ _ _ Hparent Hchild]; rename H3 into Hnew
  end.
  rewrite Hparent, Hchild by set_solver.
  unfold parentOf, childrenOf. rewrite !Hget2. split.
  - by rewrite decide_True.
  - case_decide as Heq.
    + subst. rewrite Hget1, decide_True in Hnew by done. injection Hnew as <-.
      simpl. apply elem_of_spliceIn. by left.
    + rewrite Hget1, decide_True by done. simpl. apply elem_of_spliceIn. by left.
Qed.

Lemma setIndent_Ok key indent st u st' :
  setIndent key indent st = Ok (u, st') →
  getIndent st' key = Some indent
  ∧ _keyCounter st' = _keyCounter st
  ∧ ∀ k, nodeType st' k = nodeType st k ∧ parentOf st' k = parentOf st k
         ∧ childrenOf st' k = childrenOf st k.
Proof.
  unfold setIndent. intros H. steps.
  apply setNode_Ok in H as (Hget & Hcounter & _).
  unfold getIndent, nodeType, parentOf, childrenOf. split_and!; try done.
  - by rewrite Hget, decide_True.
  - intros k. rewrite !Hget. case_decide; [|done]. subst.
    match goal with H : getNodeByKey _ _ = Some _ |- _ => by rewrite H end.
Qed.

Lemma getPreviousSibling_Ok key st previous st' :
  getPreviousSibling key st = Ok (previous, st') →
  st' = st ∧ is_Some (getNodeByKey st key)
  ∧ ∀ p, previous = Some p → is_Some (getNodeByKey st p).
Proof.
  unfold getPreviousSibling. intros H. steps.
  destruct (getParent _ key) as [parentKey|]; steps; [|done].
  match goal with
  | H : context [indexOf ?k ?l] |- _ => destruct (indexOf k l) as [[|index]|] eqn:Hindex
  end; steps; try done.
  split_and!; try done. intros p Hp.
  match goal with H : context [_ !! index] |- _ => destruct (_ !! index) as [k|] end;
    simpl in Hp; [|done].
  destruct (getNodeByKey _ k) eqn:Hk; simpl in Hp; [|done]. injection Hp as <-. by rewrite Hk.
Qed.

(** *** Well-formed documents: the mutations succeed and keep them so *)

Lemma bind_intro {A B} (m : M A) (f : A → M B) st a st1 r :
  m st = Ok (a, st1) → f a st1 = r → (m ≫= f) st = r.
Proof. unfold mbind, M_bind. by intros -> <-. Qed.

Lemma getLatest_intro key st node :
  getNodeByKey st key = Some node → getLatest key st = Ok (node, st).
Proof. unfold getLatest. by intros ->. Qed.

Lemma nodeType_is_Some st key : is_Some (nodeType st key) ↔ is_Some (getNodeByKey st key).
Proof. unfold nodeType. by rewrite fmap_is_Some. Qed.

Lemma unmoved_is_Some moved st st' key :
  unmoved moved st st' → is_Some (getNodeByKey st key) → is_Some (getNodeByKey st' key).
Proof. intros [_ Ht _ _ _]. rewrite <- !nodeType_is_Some. by rewrite Ht. Qed.

Lemma elem_of_childrenOf st key parent :
  key ∈ childrenOf st parent →
  ∃ pnode, getNodeByKey st parent = Some pnode ∧ key ∈ __children pnode.
Proof.
  unfold childrenOf. destruct (getNodeByKey st parent) as [pnode|]; simpl; [eauto|].
  by intros ?%elem_of_nil.
Qed.

Lemma wellFormed_attachedTo st key : wellFormed st → attachedTo st key.
Proof.
  intros [_ Hwf] parent Hparent. unfold parentOf in Hparent.
  destruct (getNodeByKey st key) as [node|] eqn:Hnode; [|done]. simpl in Hparent.
  apply Hwf in Hnode. unfold holdsChild in Hnode. rewrite Hparent in Hnode.
  by apply bool_decide_eq_true in Hnode.
Qed.

Lemma attachedTo_wellFormed st :
  keysBelowCounter st → (∀ key, attachedTo st key) → wellFormed st.
Proof.
  intros Hkeys Hattached. split; [done|]. intros key node Hnode. unfold holdsChild.
  destruct (__parent node) as [parent|] eqn:Hparent; [|done].
  apply bool_decide_eq_true, Hattached. unfold parentOf, getNodeByKey. by rewrite Hnode.
Qed.

(** A mutation keeps the document well formed when the nodes that it moved
    are attached afterwards. *)
Lemma unmoved_wellFormed moved st st' :
  unmoved moved st st' → wellFormed st →
  (∀ key, key ∈ moved → attachedTo st' key) →
  wellFormed st'.
Proof.
  intros Hun Hwf Hmoved. pose proof Hun as [Hc Ht _ Hp Hx].
  apply attachedTo_wellFormed.
  - intros key node Hnode. simpl. rewrite Hc. destruct Hwf as [Hkeys _].
    assert (is_Some (getNodeByKey st key)) as [n Hn]; [|by apply Hkeys in Hn].
    apply nodeType_is_Some. rewrite <- Ht. apply nodeType_is_Some. by exists node.
  - intros key. destruct (decide (key ∈ moved)) as [Hin|Hout]; [by apply Hmoved|].
    intros parent Hparent. rewrite Hp in Hparent by done. rewrite Hx by done.
    by apply wellFormed_attachedTo.
Qed.

Lemma indexOf_elem key keys : key ∈ keys → is_Some (indexOf key keys).
Proof.
  induction keys as [|k keys IH]; [by intros ?%elem_of_nil|]. simpl.
  case_decide; [eauto|]. intros [->|Hin]%elem_of_cons; [done|].
  destruct (IH Hin) as [i ->]. simpl. eauto.
Qed.

Lemma getParent_Some st key parent :
  getParent st key = Some parent ↔
  parentOf st key = Some parent ∧ is_Some (getNodeByKey st parent).
Proof.
  unfold getParent, parentOf. destruct (getNodeByKey st key) as [node|]; simpl.
  - destruct (__parent node) as [p|]; simpl.
    + destruct (getNodeByKey st p) eqn:Hp; simpl; split.
      * intros [= <-]. by rewrite Hp.
      * by intros [[= <-] _].
      * done.
      * intros [[= <-] [? ?]]. congruence.
    + split; [done|]. by intros [? _].
  - split; [done|]. by intros [? _].
Qed.

Lemma removeFromParent_Ok key st :
  attachedTo st key → ∃ st', removeFromParent key st = Ok ((), st').
Proof.
  intros Hattached. unfold removeFromParent.
  destruct (getParent st key) as [parent|] eqn:Hparent.
  - pose proof Hparent as [Hp _]%getParent_Some.
    apply Hattached, elem_of_childrenOf in Hp as (pnode & Hpnode & Hin).
    apply indexOf_elem in Hin as [index Hindex].
    eexists. eapply bind_intro; [reflexivity|]. rewrite Hparent.
    eapply bind_intro; [by apply getLatest_intro|]. rewrite Hindex. reflexivity.
  - eexists. eapply bind_intro; [reflexivity|]. by rewrite Hparent.
Qed.

Lemma appendNode_Ok self nodeToAppend st :
  wellFormed st →
  is_Some (getNodeByKey st self) → is_Some (getNodeByKey st nodeToAppend) →
  ∃ st', appendNode self nodeToAppend st = Ok ((), st') ∧ wellFormed st'.
Proof.
  intros Hwf Hself [node Hnode].
  destruct (removeFromParent_Ok nodeToAppend st) as [st1 Hremove];
    [by apply wellFormed_attachedTo|].
  pose proof (removeFromParent_unmoved _ _ _ _ Hremove) as Hun1.
  destruct (unmoved_is_Some _ _ _ nodeToAppend Hun1) as [node1 Hnode1]; [by eexists|].
  set (st2 := {| _nodeMap := <[nodeToAppend := setParent (Some self) node1]> (_nodeMap st1);
                 _keyCounter := _keyCounter st1; _selection := _selection st1 |}).
  assert (Hset : setNode nodeToAppend (setParent (Some self) node1) st1 = Ok ((), st2))
    by done.
  pose proof (setParent_unmoved [nodeToAppend] _ _ _ _ _ _ Hnode1 ltac:(set_solver) Hset)
    as Hun2.
  destruct (unmoved_is_Some _ _ _ self (unmoved_step _ _ _ _ Hun1 Hun2)) as [wself Hwself];
    [done|].
  assert (Happend : appendNode self nodeToAppend st
            = setNode self (setChildren (__children wself ++ [nodeToAppend]) wself) st2).
  { unfold appendNode.
    eapply bind_intro; [by apply getLatest_intro|].
    eapply bind_intro; [exact Hremove|].
    eapply bind_intro; [by apply getLatest_intro|].
    eapply bind_intro; [exact Hset|].
    eapply bind_intro; [by apply getLatest_intro|]. done. }
  set (st' := {| _nodeMap := <[self := setChildren (__children wself ++ [nodeToAppend]) wself]>
                               (_nodeMap st2);
                 _keyCounter := _keyCounter st2; _selection := _selection st2 |}).
  assert (Hrun : appendNode self nodeToAppend st = Ok ((), st')) by (by rewrite Happend).
  exists st'. split; [done|].
  eapply unmoved_wellFormed; [by eapply appendNode_unmoved|done|].
  intros key ->%list_elem_of_singleton parent Hparent.
  destruct (appendNode_child _ _ _ _ _ Hrun) as [Hp Hc]. congruence.
Qed.

Lemma append_Ok self nodes st :
  wellFormed st →
  is_Some (getNodeByKey st self) →
  Forall (λ node, is_Some (getNodeByKey st node)) nodes →
  ∃ st', append self nodes st = Ok ((), st') ∧ wellFormed st'.
Proof.
  intros Hwf [wself Hself] Hnodes.
  assert (∃ st', forEach (appendNode self) nodes st = Ok ((), st') ∧ wellFormed st')
    as (st' & Hrun & Hwf').
  { assert (Hself' : is_Some (getNodeByKey st self)) by eauto. clear Hself.
    revert st Hwf Hself' Hnodes. induction nodes as [|node nodes IH]; intros st Hwf Hself Hnodes.
    - by exists st.
    - apply Forall_cons in Hnodes as [Hnode Hnodes].
      destruct (appendNode_Ok self node st) as (st1 & Hrun1 & Hwf1); [done..|].
      pose proof (appendNode_unmoved _ _ _ _ _ Hrun1) as Hun.
      destruct (IH st1) as (st' & Hrun & Hwf'); [done|by eapply unmoved_is_Some| |].
      { eapply Forall_impl; [exact Hnodes|]. intros k Hk. by eapply unmoved_is_Some. }
      exists st'. split; [|done]. simpl. by eapply bind_intro. }
  exists st'. split; [|done]. unfold append.
  eapply bind_intro; [by apply getLatest_intro|done].
Qed.

Lemma remove_Ok key st :
  wellFormed st → ∃ st', remove key st = Ok ((), st') ∧ wellFormed st'.
Proof.
  intros Hwf. unfold remove. destruct (getParent st key) as [parent|] eqn:Hparent.
  - destruct (removeFromParent_Ok key st) as [st1 Hremove]; [by apply wellFormed_attachedTo|].
    pose proof (removeFromParent_unmoved _ _ _ _ Hremove) as Hun1.
    assert (is_Some (getNodeByKey st key)) as Hkey.
    { unfold getParent in Hparent. by destruct (getNodeByKey st key). }
    destruct (unmoved_is_Some _ _ _ key Hun1 Hkey) as [node1 Hnode1].
    set (st' := {| _nodeMap := <[key := setParent None node1]> (_nodeMap st1);
                   _keyCounter := _keyCounter st1; _selection := _selection st1 |}).
    assert (Hset : setNode key (setParent None node1) st1 = Ok ((), st')) by done.
    pose proof (setParent_unmoved [key] _ _ _ _ _ _ Hnode1 ltac:(set_solver) Hset) as Hun2.
    exists st'. split.
    + eapply bind_intro; [reflexivity|]. rewrite Hparent.
      eapply bind_intro; [exact Hremove|].
      eapply bind_intro; [by apply getLatest_intro|]. done.
    + eapply unmoved_wellFormed; [exact (unmoved_step _ _ _ _ Hun1 Hun2)|done|].
      intros k ->%list_elem_of_singleton p Hp. unfold parentOf, getNodeByKey, st' in Hp.
      simpl in Hp. by rewrite lookup_insert_eq in Hp.
  - exists st. split; [|done]. eapply bind_intro; [reflexivity|]. by rewrite Hparent.
Qed.

Lemma replaceNode_Ok self replaceWith st :
  wellFormed st →
  is_Some (getNodeByKey st replaceWith) →
  is_Some (parentOf st self) →
  replaceWith ≠ self →
  ∃ st', replaceNode self replaceWith st = Ok ((), st') ∧ wellFormed st'.
Proof.
  intros Hwf Hnew [parent Hparent] Hne. pose proof Hnew as [node0 Hnode0].
  pose proof (wellFormed_attachedTo st self Hwf parent Hparent) as Hin.
  destruct (removeFromParent_Ok replaceWith st) as [st1 Hremove];
    [by apply wellFormed_attachedTo|].
  pose proof (removeFromParent_unmoved _ _ _ _ Hremove) as Hun1.
  pose proof Hun1 as [_ _ _ Hp1 Hx1].
  assert (Hparent1 : getParent st1 self = Some parent).
  { apply getParent_Some. rewrite Hp1 by set_solver. split; [done|].
    apply elem_of_childrenOf in Hin as (pnode & Hpnode & _).
    eapply unmoved_is_Some; [done|by eexists]. }
  assert (Hin1 : self ∈ childrenOf st1 parent) by (rewrite Hx1 by set_solver; done).
  apply elem_of_childrenOf in Hin1 as (pnode1 & Hpnode1 & Hin1).
  destruct (indexOf_elem _ _ Hin1) as [index Hindex].
  set (st2 := {| _nodeMap := <[parent := setChildren (spliceIn index replaceWith
                                                       (__children pnode1)) pnode1]>
                               (_nodeMap st1);
                 _keyCounter := _keyCounter st1; _selection := _selection st1 |}).
  assert (Hset2 : setNode parent (setChildren (spliceIn index replaceWith (__children pnode1))
                                    pnode1) st1 = Ok ((), st2)) by done.
  assert (Hun2 : unmoved [self; replaceWith] st1 st2).
  { eapply setChildren_unmoved; [done| |done]. intros y Hy.
    rewrite elem_of_spliceIn. set_solver. }
  assert (Hun1' : unmoved [self; replaceWith] st st1).
  { eapply unmoved_weaken; [|exact Hun1]. set_solver. }
  destruct (unmoved_is_Some _ _ _ replaceWith (unmoved_step _ _ _ _ Hun1' Hun2) Hnew)
    as [node2 Hnode2].
  set (st3 := {| _nodeMap := <[replaceWith := setParent (Some parent) node2]> (_nodeMap st2);
                 _keyCounter := _keyCounter st2; _selection := _selection st2 |}).
  assert (Hset3 : setNode replaceWith (setParent (Some parent) node2) st2 = Ok ((), st3))
    by done.
  assert (Hrun3 : replaceNode self replaceWith st = remove self st3).
  { unfold replaceNode.
    eapply bind_intro; [by apply getLatest_intro|].
    eapply bind_intro; [exact Hremove|].
    eapply bind_intro; [reflexivity|]. rewrite Hparent1.
    eapply bind_intro; [by apply getLatest_intro|]. rewrite Hindex.
    eapply bind_intro; [exact Hset2|].
    eapply bind_intro; [by apply getLatest_intro|].
    eapply bind_intro; [exact Hset3|]. done. }
  (* the state before [self] is removed is well formed but for nothing *)
  assert (Hwf3 : wellFormed st3).
  { pose proof (setParent_unmoved [self; replaceWith] _ _ _ _ _ _ Hnode2
                  ltac:(set_solver) Hset3) as Hun3.
    eapply unmoved_wellFormed.
    - eapply unmoved_step; [|exact Hun3]. eapply unmoved_step; [|exact Hun2]. exact Hun1'.
    - done.
    - intros key Hkey p Hp.
      assert (Hchildren3 : ∀ x, x ∈ childrenOf st3 parent
                                ↔ x = replaceWith ∨ x ∈ __children pnode1).
      { intros x. unfold childrenOf, getNodeByKey, st3, st2. simpl.
        destruct (decide (replaceWith = parent)) as [->|Hnp].
        - rewrite lookup_insert_eq. simpl.
          unfold getNodeByKey, st2 in Hnode2. simpl in Hnode2.
          rewrite lookup_insert_eq in Hnode2. injection Hnode2 as <-. simpl.
          apply elem_of_spliceIn.
        - rewrite lookup_insert_ne, lookup_insert_eq by done. simpl.
          apply elem_of_spliceIn. }
      apply elem_of_cons in Hkey as [->|Hkey%list_elem_of_singleton].
      + assert (p = parent) as ->.
        { unfold parentOf, getNodeByKey, st3, st2 in Hp. simpl in Hp.
          rewrite lookup_insert_ne in Hp by done.
          destruct (decide (parent = self)) as [->|Hps].
          - rewrite lookup_insert_eq in Hp. simpl in Hp.
            apply getParent_Some in Hparent1 as [Hparent1 _].
            unfold parentOf in Hparent1. rewrite Hpnode1 in Hparent1. simpl in Hparent1.
            congruence.
          - rewrite lookup_insert_ne in Hp by done.
            apply getParent_Some in Hparent1 as [Hparent1 _].
            unfold parentOf, getNodeByKey in Hparent1. congruence. }
        apply Hchildren3. by right.
      + subst key. assert (p = parent) as ->.
        { unfold parentOf, getNodeByKey, st3 in Hp. simpl in Hp.
          rewrite lookup_insert_eq in Hp. simpl in Hp. congruence. }
        apply Hchildren3. by left. }
  destruct (remove_Ok self st3 Hwf3) as (st' & Hrun & Hwf').
  exists st'. by rewrite Hrun3.
Qed.

Lemma createNode_wellFormed type st key st' :
  createNode type st = Ok (key, st') → wellFormed st → wellFormed st'.
Proof.
  intros (-> & Hcounter & Hget)%createNode_Ok Hwf. pose proof Hwf as [Hkeys _].
  apply attachedTo_wellFormed.
  - intros k node Hk. simpl. rewrite Hcounter.
    change (getNodeByKey st' k = Some node) in Hk. rewrite Hget in Hk. case_decide; [lia|].
    apply Hkeys in Hk. simpl in Hk. lia.
  - intros k parent. unfold parentOf, childrenOf. rewrite !Hget.
    case_decide as Hk; [done|]. intros Hp.
    pose proof (wellFormed_attachedTo st k Hwf parent Hp) as Hin.
    apply elem_of_childrenOf in Hin as (pnode & Hpnode & Hin).
    rewrite decide_False, Hpnode; [done|]. intros <-.
    rewrite keysBelowCounter_fresh in Hpnode; [done|done|lia].
Qed.

Lemma createNode_is_Some type st key st' k :
  createNode type st = Ok (key, st') →
  is_Some (getNodeByKey st k) → is_Some (getNodeByKey st' k).
Proof.
  intros (-> & _ & Hget)%createNode_Ok Hk. rewrite Hget. by case_decide.
Qed.

Lemma select_Ok key anchorOffset focusOffset st :
  is_Some (getNodeByKey st key) →
  ∃ st', select key anchorOffset focusOffset st = Ok ((), st').
Proof. intros [node Hnode]. unfold select. rewrite Hnode. eauto. Qed.

Lemma getPreviousSibling_total key st :
  is_Some (getNodeByKey st key) →
  ∃ previous, getPreviousSibling key st = Ok (previous, st).
Proof.
  intros [node Hnode]. unfold getPreviousSibling.
  destruct (getParent st key) as [parent|] eqn:Hparent.
  - pose proof Hparent as [_ [pnode Hpnode]]%getParent_Some.
    destruct (indexOf key (__children pnode)) as [[|index]|] eqn:Hindex.
    all: eexists; eapply bind_intro; [by apply getLatest_intro|];
      (eapply bind_intro; [reflexivity|]); rewrite Hparent;
      (eapply bind_intro; [by apply getLatest_intro|]); rewrite Hindex; reflexivity.
  - eexists. eapply bind_intro; [by apply getLatest_intro|].
    eapply bind_intro; [reflexivity|]. by rewrite Hparent.
Qed.

(** *** [listReplace] *)

Lemma createNode_other type st key st' k :
  createNode type st = Ok (key, st') →
  is_Some (getNodeByKey st k) → keysBelowCounter st →
  k ≠ key ∧ getNodeByKey st' k = getNodeByKey st k.
Proof.
  intros (-> & _ & Hget)%createNode_Ok [n Hk] Hst.
  assert (k ≠ _keyCounter st).
  { intros ->. rewrite keysBelowCounter_fresh in Hk; [done|done|lia]. }
  split; [done|]. rewrite Hget. by rewrite decide_False.
Qed.

Lemma hasType_createNode P type st key st' node :
  createNode type st = Ok (key, st') → keysBelowCounter st →
  (∀ p, node = Some p → is_Some (getNodeByKey st p)) →
  hasType P st' node = hasType P st node ∧ getListTag st' node = getListTag st node.
Proof.
  intros Hcreate Hst Hnode. unfold hasType, getListTag. destruct node as [p|]; [|done]. simpl.
  destruct (createNode_other _ _ _ _ p Hcreate) as [_ ->]; auto.
Qed.

(** The end of [listReplace], from the call that appends the children to the
    list item on: the item gets the indent computed from the first capture,
    and nothing else changes but the place of the children. *)
Lemma listReplace_tail listItem children match_ st st' :
  (append listItem children;;
   select listItem 0 0;;
   len ← lengthOf (group match_ 1);
   let indent := len / LIST_INDENT_SIZE in
   if decide (indent ≠ 0) then setIndent listItem indent else mret ()) st = Ok ((), st') →
  getIndent st listItem = Some 0 →
  (∃ ws, group match_ 1 = Some ws
         ∧ getIndent st' listItem = Some (String.length ws / LIST_INDENT_SIZE))
  ∧ _keyCounter st' = _keyCounter st
  ∧ (∀ key, nodeType st' key = nodeType st key)
  ∧ (∀ key, key ∉ children → parentOf st' key = parentOf st key)
  ∧ (∀ key x, x ∉ children → x ∈ childrenOf st' key ↔ x ∈ childrenOf st key).
Proof.
  intros H Hindent. steps.
  match goal with H : append _ _ _ = Ok _ |- _ => apply append_unmoved in H as Happend end.
  match goal with H : select _ _ _ _ = Ok _ |- _ => apply select_unmoved in H as Hselect end.
  pose proof (unmoved_trans _ _ _ _ _ Happend Hselect) as [Hc Ht Hi Hp Hx].
  rewrite app_nil_r in Hp, Hx.
  destruct (group match_ 1) as [ws|] eqn:Hws; simpl in *; steps.
  case_decide as Hzero; steps.
  - match goal with H : setIndent _ _ _ = Ok _ |- _ =>
      apply setIndent_Ok in H as (Hset & Hcounter & Hsame) end.
    split_and!.
    + by exists ws.
    + congruence.
    + intros key. destruct (Hsame key) as (-> & _ & _). apply Ht.
    + intros key Hkey. destruct (Hsame key) as (_ & -> & _). by apply Hp.
    + intros key y Hy. destruct (Hsame key) as (_ & _ & ->). by apply Hx.
  - split_and!; try done. exists ws. split; [done|]. rewrite Hi, Hindent.
    by rewrite Hzero.
Qed.

Lemma listReplace_spec listTag parentNode children match_ isImport st st' :
  keysBelowCounter st →
  Forall (λ child, is_Some (getNodeByKey st child)) children →
  listReplace listTag parentNode children match_ isImport st = Ok ((), st') →
  (∃ ws, group match_ 1 = Some ws
         ∧ getIndent st' (_keyCounter st) = Some (String.length ws / LIST_INDENT_SIZE))
  ∧ nodeType st' (_keyCounter st) = Some ListItemNode.
Proof.
  intros Hst Hchildren H. unfold listReplace, listReplaceWith in H.
  apply bind_Ok in H as (previousNode & st0 & Hprev & H).
  apply bind_Ok in H as (listItem & st1 & Hitem & H).
  apply bind_Ok in H as (sameList & ? & [-> ->]%gets_Ok & H).
  apply bind_Ok in H as ([] & st2 & Hplace & H).
  pose proof Hprev as (-> & Hparent & Hprevious)%getPreviousSibling_Ok.
  destruct (hasType_createNode
              (λ t, match t with ListNode _ _ => true | _ => false end)
              _ _ _ _ previousNode Hitem Hst Hprevious) as [HisList Htag].
  fold isListNode in HisList. rewrite HisList, Htag in Hplace.
  pose proof Hitem as (-> & Hcounter1 & Hget1)%createNode_Ok.
  set (listItem := _keyCounter st) in *.
  assert (HnotChild : listItem ∉ children).
  { intros Hin. rewrite Forall_forall in Hchildren. apply Hchildren in Hin as [n Hn].
    rewrite keysBelowCounter_fresh in Hn; [done|done|]. unfold listItem. lia. }
  assert (HnotParent : listItem ≠ parentNode).
  { intros <-. destruct Hparent as [n Hn].
    rewrite keysBelowCounter_fresh in Hn; [done|done|]. unfold listItem. lia. }
  assert (Htype1 : nodeType st1 listItem = Some ListItemNode).
  { unfold nodeType. by rewrite Hget1, decide_True. }
  assert (Hindent1 : getIndent st1 listItem = Some 0).
  { unfold getIndent. by rewrite Hget1, decide_True. }
  destruct (isListNode st previousNode
            && bool_decide (getListTag st previousNode = Some listTag)) eqn:Hsame.
  - (* the previous sibling is a list of the same kind *)
    destruct previousNode as [previous|]; [|done]. simpl in Hplace.
    apply bind_Ok in Hplace as (? & ? & [-> ->]%ret_Ok & Hplace).
    apply bind_Ok in Hplace as ([] & st1' & Happend & Hremove).
    apply append_one in Happend.
    pose proof (appendNode_child _ _ _ _ _ Happend) as [Hp Hc].
    apply appendNode_unmoved in Happend as [Hc1 Ht1 Hi1 _ _].
    apply remove_unmoved in Hremove as [Hc2 Ht2 Hi2 Hp2 Hx2].
    apply listReplace_tail in H as (Hws & Hc3 & Ht3 & Hp3 & Hx3);
      [|by rewrite Hi2, Hi1].
    split; [done|]. by rewrite Ht3, Ht2, Ht1.
  - (* another sibling, or none: a new list *)
    apply bind_Ok in Hplace as (list & st1' & Hlist & Hplace).
    apply bind_Ok in Hplace as ([] & st1'' & Happend & Hreplace).
    pose proof Hlist as (-> & Hcounter2 & Hget2)%createNode_Ok.
    rewrite Hcounter1 in *.
    assert (Hne : listItem ≠ Pos.succ listItem) by lia.
    apply append_one in Happend.
    pose proof (appendNode_child _ _ _ _ _ Happend) as [Hp Hc].
    apply appendNode_unmoved in Happend as [Hc1 Ht1 Hi1 _ _].
    apply replaceNode_unmoved in Hreplace as [Hc2 Ht2 Hi2 Hp2 Hx2].
    apply listReplace_tail in H as (Hws & Hc3 & Ht3 & Hp3 & Hx3).
    2:{ rewrite Hi2, Hi1. unfold getIndent. rewrite Hget2, decide_False by done.
        apply Hindent1. }
    split; [done|]. rewrite Ht3, Ht2, Ht1. unfold nodeType.
    rewrite Hget2, decide_False by done. apply Htype1.
Qed.

Lemma setIndent_total key indent st :
  is_Some (getNodeByKey st key) → ∃ st', setIndent key indent st = Ok ((), st').
Proof.
  intros [node Hnode]. unfold setIndent. eexists.
  eapply bind_intro; [by apply getLatest_intro|]. reflexivity.
Qed.

Lemma append_is_Some self nodes st u st' key :
  append self nodes st = Ok (u, st') →
  is_Some (getNodeByKey st key) → is_Some (getNodeByKey st' key).
Proof. intros Hrun%append_unmoved. by eapply unmoved_is_Some. Qed.

Lemma listReplace_tail_Ok listItem children match_ st :
  wellFormed st →
  is_Some (getNodeByKey st listItem) →
  Forall (λ child, is_Some (getNodeByKey st child)) children →
  is_Some (group match_ 1) →
  ∃ st',
    (append listItem children;;
     select listItem 0 0;;
     len ← lengthOf (group match_ 1);
     let indent := len / LIST_INDENT_SIZE in
     if decide (indent ≠ 0) then setIndent listItem indent else mret ()) st = Ok ((), st').
Proof.
  intros Hwf Hitem Hchildren [ws Hws].
  destruct (append_Ok listItem children st) as (st1 & Happend & Hwf1); [done..|].
  pose proof (append_is_Some _ _ _ _ _ listItem Happend Hitem) as Hitem1.
  destruct (select_Ok listItem 0 0 st1 Hitem1) as [st2 Hselect].
  assert (Hitem2 : is_Some (getNodeByKey st2 listItem)).
  { apply select_unmoved in Hselect. by eapply unmoved_is_Some. }
  destruct (setIndent_total listItem (String.length ws / LIST_INDENT_SIZE) st2 Hitem2)
    as [st3 Hindent].
  exists (if decide (String.length ws / LIST_INDENT_SIZE ≠ 0) then st3 else st2).
  eapply bind_intro; [exact Happend|]. eapply bind_intro; [exact Hselect|].
  rewrite Hws. simpl. eapply bind_intro; [reflexivity|].
  by case_decide.
Qed.

(** On a well-formed document, for a block that has a parent, children that
    are nodes of the document and a match with a first capture,
    [listReplace] succeeds. *)
Lemma listReplace_Ok listTag parentNode children match_ isImport st :
  wellFormed st →
  is_Some (parentOf st parentNode) →
  Forall (λ child, is_Some (getNodeByKey st child)) children →
  is_Some (group match_ 1) →
  ∃ st', listReplace listTag parentNode children match_ isImport st = Ok ((), st').
Proof.
  intros Hwf [parent Hparent] Hchildren Hws. pose proof Hwf as [Hkeys _].
  assert (Hblock : is_Some (getNodeByKey st parentNode)).
  { unfold parentOf in Hparent. by destruct (getNodeByKey st parentNode). }
  destruct (getPreviousSibling_total parentNode st Hblock) as [previousNode Hprev].
  pose proof Hprev as (_ & _ & Hprevious)%getPreviousSibling_Ok.
  destruct (createListItemNode st) as [[listItem st1]| |] eqn:Hitem; try done.
  pose proof (createNode_wellFormed _ _ _ _ Hitem Hwf) as Hwf1.
  pose proof Hitem as (-> & Hcounter1 & Hget1)%createNode_Ok.
  set (listItem := _keyCounter st) in *.
  assert (Hitem1 : is_Some (getNodeByKey st1 listItem)).
  { rewrite Hget1, decide_True by done. eauto. }
  assert (Hold1 : ∀ k, is_Some (getNodeByKey st k) → is_Some (getNodeByKey st1 k)).
  { intros k. by apply (createNode_is_Some _ _ _ _ _ Hitem). }
  assert (Hplace : ∃ st2,
    (if isListNode st1 previousNode && bool_decide (getListTag st1 previousNode = Some listTag)
     then previous ← deref previousNode; append previous [listItem];; remove parentNode
     else list ← createListNode listTag
                   (if decide (listTag = ol) then Some (Number (group match_ 2)) else None);
          append list [listItem];; replaceNode parentNode list) st1 = Ok ((), st2)
    ∧ wellFormed st2
    ∧ ∀ k, is_Some (getNodeByKey st1 k) → is_Some (getNodeByKey st2 k)).
  { destruct (isListNode st1 previousNode
              && bool_decide (getListTag st1 previousNode = Some listTag)) eqn:Hsame.
    - destruct previousNode as [previous|]; [|done].
      destruct (append_Ok previous [listItem] st1) as (st2 & Happend & Hwf2);
        [done|by apply Hold1, Hprevious|by repeat constructor|].
      destruct (remove_Ok parentNode st2 Hwf2) as (st3 & Hremove & Hwf3).
      exists st3. split_and!; [|done|].
      + simpl. eapply bind_intro; [reflexivity|]. eapply bind_intro; [exact Happend|]. done.
      + intros k Hk. apply remove_unmoved in Hremove.
        eapply unmoved_is_Some; [done|]. by eapply append_is_Some.
    - destruct (createListNode listTag
                  (if decide (listTag = ol) then Some (Number (group match_ 2)) else None)
                  st1) as [[list st2]| |] eqn:Hlist; try done.
      pose proof (createNode_wellFormed _ _ _ _ Hlist Hwf1) as Hwf2.
      pose proof Hlist as (-> & Hcounter2 & Hget2)%createNode_Ok.
      rewrite Hcounter1 in *. set (list := Pos.succ listItem) in *.
      assert (Hold2 : ∀ k, is_Some (getNodeByKey st1 k) → is_Some (getNodeByKey st2 k)).
      { intros k. by apply (createNode_is_Some _ _ _ _ _ Hlist). }
      assert (Hlist2 : is_Some (getNodeByKey st2 list)).
      { rewrite Hget2, decide_True by done. eauto. }
      destruct (append_Ok list [listItem] st2) as (st3 & Happend & Hwf3);
        [done|done|by repeat constructor; apply Hold2|].
      assert (Hne1 : listItem ≠ parentNode).
      { intros <-. destruct Hblock as [n Hn].
        rewrite keysBelowCounter_fresh in Hn; [done|done|unfold listItem; lia]. }
      assert (Hne2 : list ≠ parentNode).
      { intros <-. destruct Hblock as [n Hn].
        rewrite keysBelowCounter_fresh in Hn; [done|done|unfold list, listItem; lia]. }
      destruct (replaceNode_Ok parentNode list st3) as (st4 & Hreplace & Hwf4);
        [done|by eapply append_is_Some| |done|].
      { exists parent. apply append_unmoved in Happend as [_ _ _ Hp3 _].
        rewrite Hp3 by set_solver. unfold parentOf. rewrite Hget2, decide_False by done.
        rewrite Hget1, decide_False by done. apply Hparent. }
      exists st4. split_and!; [|done|].
      + eapply bind_intro; [exact Hlist|]. eapply bind_intro; [exact Happend|]. done.
      + intros k Hk. apply replaceNode_unmoved in Hreplace.
        eapply unmoved_is_Some; [done|]. eapply append_is_Some; [done|]. by apply Hold2. }
  destruct Hplace as (st2 & Hplace & Hwf2 & Hold2).
  destruct (listReplace_tail_Ok listItem children match_ st2) as [st' Htail]; [done|auto| |done|].
  { eapply Forall_impl; [exact Hchildren|]. intros k Hk. simpl. auto. }
  exists st'. unfold listReplace, listReplaceWith.
  eapply bind_intro; [exact Hprev|]. eapply bind_intro; [exact Hitem|].
  eapply bind_intro; [reflexivity|]. eapply bind_intro; [exact Hplace|]. exact Htail.
Qed.

(** On a well-formed document, for a block that has a parent and children
    that are nodes of the document other than the block, [replaceWithBlock]
    succeeds. *)
Lemma replaceWithBlock_Ok create type parentNode children match_ isImport st :
  (∀ s, create match_ s = createNode type s) →
  wellFormed st →
  is_Some (parentOf st parentNode) →
  Forall (λ child, is_Some (getNodeByKey st child)) children →
  parentNode ∉ children →
  ∃ st', replaceWithBlock create parentNode children match_ isImport st = Ok ((), st').
Proof.
  intros Hcreate Hwf [parent Hparent] Hchildren Hblock'. pose proof Hwf as [Hkeys _].
  assert (Hblock : is_Some (getNodeByKey st parentNode)).
  { unfold parentOf in Hparent. by destruct (getNodeByKey st parentNode). }
  destruct (createNode type st) as [[node st1]| |] eqn:Hnode; try done.
  pose proof (createNode_wellFormed _ _ _ _ Hnode Hwf) as Hwf1.
  pose proof Hnode as (-> & Hcounter1 & Hget1)%createNode_Ok.
  set (node := _keyCounter st) in *.
  assert (Hnode1 : is_Some (getNodeByKey st1 node)).
  { rewrite Hget1, decide_True by done. eauto. }
  assert (Hne : node ≠ parentNode).
  { intros <-. destruct Hblock as [n Hn].
    rewrite keysBelowCounter_fresh in Hn; [done|done|unfold node; lia]. }
  destruct (append_Ok node children st1) as (st2 & Happend & Hwf2); [done|done| |].
  { eapply Forall_impl; [exact Hchildren|]. intros k Hk. simpl.
    by apply (createNode_is_Some _ _ _ _ _ Hnode). }
  destruct (replaceNode_Ok parentNode node st2) as (st3 & Hreplace & Hwf3);
    [done|by eapply append_is_Some| |done|].
  { exists parent. apply append_unmoved in Happend as [_ _ _ Hp2 _].
    rewrite Hp2 by done. unfold parentOf. rewrite Hget1, decide_False by done.
    apply Hparent. }
  destruct (select_Ok node 0 0 st3) as [st4 Hselect].
  { apply replaceNode_unmoved in Hreplace. eapply unmoved_is_Some; [done|].
    by eapply append_is_Some. }
  exists st4. unfold replaceWithBlock.
  eapply bind_intro; [by rewrite Hcreate|]. eapply bind_intro; [exact Happend|].
  eapply bind_intro; [exact Hreplace|]. exact Hselect.
Qed.

Lemma keysBelowCounter_decide st :
  bool_decide (keysBelowCounter st) = true → keysBelowCounter st.
Proof. apply bool_decide_eq_true_1. Qed.

Lemma wellFormed_decide st : bool_decide (wellFormed st) = true → wellFormed st.
Proof. apply bool_decide_eq_true_1. Qed.

(** *** The first capture of the list transformers *)

Lemma sliceTo_prefix w rest : sliceTo (String.length w) (w ++ rest) = w.
Proof. induction w as [|c w IH]; simpl; [done|]. by rewrite IH. Qed.

Lemma leadingSpace_app w rest :
  allAccepted Space w = true →
  match rest with
  | EmptyString => True
  | String c _ => isSpace c = false
  end →
  leadingSpace (w ++ rest) = w.
Proof.
  intros Hw Hrest. induction w as [|c w IH]; simpl.
  - destruct rest as [|c rest]; [done|]. simpl. by rewrite Hrest.
  - unfold allAccepted in Hw. simpl in Hw. apply andb_prop in Hw as [Hc Hw].
    rewrite Hc. by rewrite IH.
Qed.

Lemma isDigit_not_space c : isDigit c = true → isSpace c = false.
Proof. destruct c as [[] [] [] [] [] [] [] []]; vm_compute; congruence. Qed.

(** The first capture of a line that the regular expression of the unordered
    list matches is the white space at the start of the line. *)
Lemma UNORDERED_LIST_capture line m :
  exec (regExp UNORDERED_LIST) line = Some m → group m 1 = Some (leadingSpace line).
Proof.
  simpl. rewrite exec_anchored by done. unfold matchAt. simpl.
  destruct (matchRep _ _ _ _ _ _ _ _) as [[pos' caps]|] eqn:Hm; [|done].
  intros [= <-].
  apply matchRep_Some in Hm as (w & rest & -> & Hw & _ & _ & Hk); [|done].
  simpl in Hk.
  destruct rest as [|c [|c' rest]]; try done.
  { by case_match. }
  destruct (bool_decide (c ∈ _)) eqn:Hc; [|done].
  destruct (isSpace c'); [|done]. injection Hk as <- <-.
  unfold group. simpl. rewrite Nat.sub_0_r, sliceTo_prefix.
  rewrite leadingSpace_app; [done|done|].
  apply bool_decide_eq_true in Hc.
  repeat (apply elem_of_cons in Hc as [->|Hc]; [done|]). by apply elem_of_nil in Hc.
Qed.

Lemma ORDERED_LIST_capture line m :
  exec (regExp ORDERED_LIST) line = Some m → group m 1 = Some (leadingSpace line).
Proof.
  simpl. rewrite exec_anchored by done. unfold matchAt. simpl.
  destruct (matchRep _ _ _ _ _ _ _ _) as [[pos' caps]|] eqn:Hm; [|done].
  intros [= <-].
  apply matchRep_Some in Hm as (w & rest & -> & Hw & _ & _ & Hk); [|done].
  apply matchRep_Some in Hk as (d & rest' & -> & Hd & Hmin & _ & Hk); [|done].
  simpl in Hk.
  destruct rest' as [|c [|c' rest']]; try done.
  { by case_match. }
  destruct (bool_decide (c = _)); [|done].
  destruct (isSpace c'); [|done]. injection Hk as <- <-.
  unfold group. simpl. rewrite Nat.sub_0_r, sliceTo_prefix.
  rewrite leadingSpace_app; [done|done|].
  destruct d as [|c0 d]; simpl in *; [lia|].
  unfold allAccepted in Hd. simpl in Hd. apply andb_prop in Hd as [Hc0 _].
  by apply isDigit_not_space.
Qed.

(** C7: for a line that a list transformer matches, [replace] succeeds on a
    well-formed document and gives the list item that it creates the indent
    level of the length of the white space at the start of the line, divided
    by [LIST_INDENT_SIZE], that is 4, and rounded down. *)
Theorem list_item_indent (transformer : ElementTransformer) (line : string)
    (match_ : MatchResult) (parentNode : NodeKey) (children : list NodeKey)
    (isImport : bool) (st : EditorState) :
  transformer = UNORDERED_LIST ∨ transformer = ORDERED_LIST →
  wellFormed st →
  is_Some (parentOf st parentNode) →
  Forall (λ child, is_Some (getNodeByKey st child)) children →
  exec (regExp transformer) line = Some match_ →
  ∃ st',
    replace transformer parentNode children match_ isImport st = Ok ((), st')
    ∧ nodeType st' (_keyCounter st) = Some ListItemNode
    ∧ getIndent st' (_keyCounter st) = Some (String.length (leadingSpace line) / 4)
    ∧ LIST_INDENT_SIZE = 4.
Proof.
  intros Htransformer Hwf Hparent Hchildren Hmatch.
  assert (Hcapture : group match_ 1 = Some (leadingSpace line)).
  { destruct Htransformer as [-> | ->];
      [by apply UNORDERED_LIST_capture | by apply ORDERED_LIST_capture]. }
  assert (∃ listTag, replace transformer = listReplace listTag) as [listTag Hreplace].
  { destruct Htransformer as [-> | ->]; [by exists ul | by exists ol]. }
  rewrite Hreplace.
  destruct (listReplace_Ok listTag parentNode children match_ isImport st) as [st' H];
    [done|done|done|by rewrite Hcapture|].
  exists st'. split; [done|]. destruct Hwf as [Hst _].
  destruct (listReplace_spec _ _ _ _ _ _ _ Hst Hchildren H)
    as [(ws & Hws & Hindent) Htype].
  rewrite Hcapture in Hws. injection Hws as <-. by split_and!.
Qed.

Lemma list_item_indent_witness :
  (UNORDERED_LIST = UNORDERED_LIST ∨ UNORDERED_LIST = ORDERED_LIST)
  ∧ wellFormed secondLineState
  ∧ is_Some (parentOf secondLineState 7%positive)
  ∧ Forall (λ child, is_Some (getNodeByKey secondLineState child)) [6%positive]
  ∧ exec (regExp UNORDERED_LIST) "    - b" = Some secondLineMatch
  ∧ getIndent secondLineReplaced 8%positive = Some 1
  ∧ ∃ st',
      replace UNORDERED_LIST 7%positive [6%positive] secondLineMatch true secondLineState
      = Ok ((), st')
      ∧ nodeType st' (_keyCounter secondLineState) = Some ListItemNode
      ∧ getIndent st' (_keyCounter secondLineState)
        = Some (String.length (leadingSpace "    - b") / 4)
      ∧ LIST_INDENT_SIZE = 4.
Proof.
  assert (H0 : UNORDERED_LIST = UNORDERED_LIST ∨ UNORDERED_LIST = ORDERED_LIST)
    by (left; reflexivity).
  assert (H1 : wellFormed secondLineState).
  { apply wellFormed_decide. vm_compute. reflexivity. }
  assert (H2 : is_Some (parentOf secondLineState 7%positive)).
  { vm_compute. eauto. }
  assert (H3 : Forall (λ child, is_Some (getNodeByKey secondLineState child)) [6%positive]).
  { repeat constructor. vm_compute. eauto. }
  assert (H4 : exec (regExp UNORDERED_LIST) "    - b" = Some secondLineMatch).
  { vm_compute. reflexivity. }
  split; [exact H0|]. split; [exact H1|]. split; [exact H2|]. split; [exact H3|].
  split; [exact H4|]. split; [vm_compute; reflexivity|].
  exact (list_item_indent UNORDERED_LIST "    - b" secondLineMatch 7%positive [6%positive]
           true secondLineState H0 H1 H2 H3 H4).
Defined.

(** *** Headings *)

Lemma replaceWithBlock_spec create type parentNode children match_ isImport st st' :
  (∀ s, create match_ s = createNode type s) →
  keysBelowCounter st →
  is_Some (getNodeByKey st parentNode) →
  replaceWithBlock create parentNode children match_ isImport st = Ok ((), st') →
  nodeType st' (_keyCounter st) = Some type
  ∧ ∃ parent, parentOf st' (_keyCounter st) = Some parent
              ∧ _keyCounter st ∈ childrenOf st' parent.
Proof.
  intros Hcreate Hst [block Hblock] H. unfold replaceWithBlock in H.
  apply bind_Ok in H as (node & st1 & Hnode & H).
  apply bind_Ok in H as ([] & st2 & Happend & H).
  apply bind_Ok in H as ([] & st3 & Hreplace & Hselect).
  rewrite Hcreate in Hnode. pose proof Hnode as (-> & _ & Hget)%createNode_Ok.
  apply append_unmoved in Happend as [_ Ht2 _ _ _].
  assert (Hne : _keyCounter st ≠ parentNode).
  { intros <-. rewrite keysBelowCounter_fresh in Hblock; [done|done|lia]. }
  destruct (replaceNode_child _ _ _ _ _ Hreplace Hne) as (parent & Hparent & Hchild).
  apply replaceNode_unmoved in Hreplace as [_ Ht3 _ _ _].
  apply select_unmoved in Hselect as [_ Ht4 _ Hp4 Hx4].
  split.
  - rewrite Ht4, Ht3, Ht2. unfold nodeType. by rewrite Hget, decide_True.
  - exists parent. rewrite Hp4, Hx4 by set_solver. done.
Qed.

(** C8: a line of [n] hash characters, [n] from 1 to 6, and a space is
    matched by the heading transformer, which captures the hash characters;
    on a well-formed document its [replace] succeeds and puts a heading node
    with the tag of level [n] among the children of a parent; and the export
    of a heading node of level [n] is [n] hash characters, a space, and the
    export of its children. *)
Theorem heading_level (n : nat) (rest : string) (parentNode : NodeKey)
    (children : list NodeKey) (isImport : bool) (st : EditorState)
    (fuel : nat) (exported : EditorState) (node : NodeKey)
    (exportChildren : ExportChildren) :
  let hashes := repeat_nat "#" n in
  let match_ := [Some (hashes ++ " "); Some hashes] in
  let tag := "h" ++ toString (Num (Z.of_nat n)) in
  (1 ≤ n ≤ 6)%nat →
  wellFormed st →
  is_Some (parentOf st parentNode) →
  Forall (λ child, is_Some (getNodeByKey st child)) children →
  parentNode ∉ children →
  nodeType exported node = Some (HeadingNode tag) →
  exec (regExp HEADING) (hashes ++ " " ++ rest) = Some match_
  ∧ (∃ st',
       replace HEADING parentNode children match_ isImport st = Ok ((), st')
       ∧ nodeType st' (_keyCounter st) = Some (HeadingNode tag)
       ∧ ∃ parent, parentOf st' (_keyCounter st) = Some parent
                   ∧ _keyCounter st ∈ childrenOf st' parent)
  ∧ export HEADING fuel exported node exportChildren
    = Ok (Some (hashes ++ " " ++ exportChildren node)).
Proof.
  intros hashes match_ tag Hn Hwf Hparent Hchildren Hblock Hnode.
  assert (Hmatch : exec (regExp HEADING) (hashes ++ " " ++ rest) = Some match_).
  { subst hashes match_. destruct n as [|[|[|[|[|[|[|n]]]]]]]; try lia;
      vm_compute; reflexivity. }
  split; [done|].
  assert (Hlen : String.length hashes = n).
  { subst hashes. clear. induction n as [|n IH]; [done|].
    change (S (String.length (repeat_nat "#" n)) = S n). by rewrite IH. }
  set (create := λ match_ : MatchResult,
         len ← lengthOf (group match_ 1);
         let tag := "h" ++ toString (Num (Z.of_nat len)) in
         createHeadingNode tag).
  assert (Hcreate : ∀ s, create match_ s = createNode (HeadingNode tag) s).
  { intros s. unfold create, group, lengthOf. simpl. unfold mbind, M_bind. simpl.
    by rewrite Hlen. }
  split.
  - change (replace HEADING) with (replaceWithBlock create).
    destruct (replaceWithBlock_Ok create (HeadingNode tag) parentNode children match_
                isImport st Hcreate Hwf Hparent Hchildren Hblock) as [st' Hreplace].
    exists st'. split; [exact Hreplace|].
    apply (replaceWithBlock_spec create (HeadingNode tag) parentNode children match_ isImport
             st st' Hcreate); [by destruct Hwf| |done].
    destruct Hparent as [p Hp]. unfold parentOf in Hp.
    by destruct (getNodeByKey st parentNode).
  - simpl. unfold isHeadingNode, hasType, getHeadingTag. simpl.
    unfold nodeType in Hnode. destruct (getNodeByKey exported node) as [[type ? ? ?]|];
      [|done].
    simpl in *. injection Hnode as ->. simpl.
    subst hashes tag. destruct n as [|[|[|[|[|[|[|n]]]]]]]; try lia; reflexivity.
Qed.

Lemma heading_level_witness :
  (1 ≤ 3 ≤ 6)%nat
  ∧ wellFormed emptyHeadingBlock
  ∧ is_Some (parentOf emptyHeadingBlock 3%positive)
  ∧ Forall (λ child, is_Some (getNodeByKey emptyHeadingBlock child)) [2%positive]
  ∧ (3%positive ∉ [2%positive])
  ∧ nodeType emptyHeadingReplaced 4%positive = Some (HeadingNode "h3")
  ∧ exec (regExp HEADING) "### " = Some emptyHeadingMatch
  ∧ (∃ st',
       replace HEADING 3%positive [2%positive] emptyHeadingMatch true emptyHeadingBlock
       = Ok ((), st')
       ∧ nodeType st' (_keyCounter emptyHeadingBlock) = Some (HeadingNode "h3")
       ∧ ∃ parent, parentOf st' (_keyCounter emptyHeadingBlock) = Some parent
                   ∧ _keyCounter emptyHeadingBlock ∈ childrenOf st' parent)
  ∧ export HEADING 0 emptyHeadingReplaced 4%positive (exportPlainChildren emptyHeadingReplaced)
    = Ok (Some ("###" ++ " " ++ exportPlainChildren emptyHeadingReplaced 4%positive)).
Proof.
  assert (H0 : (1 ≤ 3 ≤ 6)%nat) by lia.
  assert (H1 : wellFormed emptyHeadingBlock).
  { apply wellFormed_decide. vm_compute. reflexivity. }
  assert (H2 : is_Some (parentOf emptyHeadingBlock 3%positive)).
  { vm_compute. eauto. }
  assert (H3 : Forall (λ child, is_Some (getNodeByKey emptyHeadingBlock child)) [2%positive]).
  { repeat constructor. vm_compute. eauto. }
  assert (H4 : 3%positive ∉ [2%positive]).
  { intros Hin%list_elem_of_singleton. discriminate Hin. }
  assert (H5 : nodeType emptyHeadingReplaced 4%positive = Some (HeadingNode "h3")).
  { vm_compute. reflexivity. }
  split; [exact H0|]. split; [exact H1|]. split; [exact H2|]. split; [exact H3|].
  split; [exact H4|]. split; [exact H5|].
  exact (heading_level 3 "" 3%positive [2%positive] true emptyHeadingBlock
           0 emptyHeadingReplaced 4%positive
           (exportPlainChildren emptyHeadingReplaced) H0 H1 H2 H3 H4 H5).
Defined.

(** *** Links *)

(** C5: the export of a link node is the text content of the node in
    brackets followed by its URL in parentheses; when the link has exactly
    one child and that child is a text node, that string goes through the
    format exporter with the child, and otherwise it is returned as it is. *)
Theorem LINK_export_spec (getTextContent : EditorState → NodeKey → string)
    (st : EditorState) (node : NodeKey) (url : option string)
    (exportChildren : ExportChildren) (exportFormat : ExportFormat) :
  nodeType st node = Some (LinkNode url) →
  TextMatch.export (LINK getTextContent) st node exportChildren exportFormat
  = Ok (Some (let linkContent := "[" ++ getTextContent st node ++ "](" ++ template url ++ ")" in
              match soleTextChild st node with
              | Some child => exportFormat child linkContent
              | None => linkContent
              end)).
Proof.
  intros Hnode. simpl.
  unfold isLinkNode, hasType, getURL, soleTextChild, childrenOf, getChildrenSize,
    getFirstChild, nodeType in *. simpl.
  destruct (getNodeByKey st node) as [[type parent children indent]|]; [|done].
  simpl in *. injection Hnode as ->. simpl.
  destruct children as [|child [|child' children]]; simpl; try done.
  unfold isTextNode, hasType. simpl.
  destruct (getNodeByKey st child) as [[[] ? ? ?]|] eqn:Hchild; simpl;
    rewrite ?Hchild; done.
Qed.

Lemma indexOf_spliceIn key new keys index :
  indexOf key keys = Some index → new ≠ key →
  indexOf key (spliceIn index new keys) = Some (S index)
  ∧ spliceOut (S index) (spliceIn index new keys) = <[index := new]> keys.
Proof.
  revert index. induction keys as [|k keys IH]; intros index; simpl; [done|].
  case_decide as Hk.
  - intros [= <-] Hne. subst. unfold spliceIn, spliceOut. simpl.
    rewrite decide_False by done. rewrite decide_True by done. by rewrite drop_0.
  - destruct (indexOf key keys) as [i|]; [|done]. intros [= <-] Hne. simpl.
    destruct (IH i eq_refl Hne) as [Hindex Hsplice]. unfold spliceIn, spliceOut in *.
    simpl. rewrite decide_False by done. rewrite Hindex. split; [done|].
    simpl in Hsplice. by rewrite Hsplice.
Qed.

(** C6: [LINK.replace] on a text node of the document succeeds and puts a
    link node in the place of the text node among the children of its
    parent; the URL of the link is the second capture, and its single child
    is a new text node with the first capture as text and the format of the
    text node that was replaced. *)
Theorem LINK_replace_spec (getTextContent : EditorState → NodeKey → string)
    (textNode : NodeKey) (match_ : MatchResult) (st : EditorState)
    (text : string) (format : N) (parent : NodeKey) (block : LexicalNode) (index : nat) :
  keysBelowCounter st →
  nodeType st textNode = Some (TextNode text format) →
  parentOf st textNode = Some parent →
  getNodeByKey st parent = Some block →
  indexOf textNode (__children block) = Some index →
  parent ≠ textNode →
  let linkNode := _keyCounter st in
  let linkTextNode := Pos.succ linkNode in
  ∃ st',
    TextMatch.replace (LINK getTextContent) textNode match_ st = Ok ((), st')
    ∧ getNodeByKey st' linkNode
      = Some {| __type := LinkNode (group match_ 2); __parent := Some parent;
                __children := [linkTextNode]; __indent := 0 |}
    ∧ getNodeByKey st' linkTextNode
      = Some {| __type := TextNode (default "" (group match_ 1)) format;
                __parent := Some linkNode; __children := []; __indent := 0 |}
    ∧ childrenOf st' parent = <[index := linkNode]> (__children block)
    ∧ parentOf st' textNode = None.
Proof.
  intros Hst Htext Hparent Hblock Hindex Hne linkNode linkTextNode.
  assert (Hfresh1 : getNodeByKey st linkNode = None).
  { apply keysBelowCounter_fresh; [done|]. unfold linkNode. lia. }
  assert (Hfresh2 : getNodeByKey st linkTextNode = None).
  { apply keysBelowCounter_fresh; [done|]. unfold linkTextNode, linkNode. lia. }
  assert (linkNode ≠ linkTextNode) by (unfold linkTextNode; lia).
  assert (linkNode ≠ textNode) by (intros ->; unfold nodeType in Htext; by rewrite Hfresh1 in Htext).
  assert (linkTextNode ≠ textNode)
    by (intros ->; unfold nodeType in Htext; by rewrite Hfresh2 in Htext).
  assert (linkNode ≠ parent) by congruence.
  assert (linkTextNode ≠ parent) by congruence.
  unfold nodeType, parentOf in *.
  destruct (getNodeByKey st textNode) as [[ttype tparent tchildren tindent]|] eqn:Htn; [|done].
  simpl in *. injection Htext as ->. subst tparent.
  destruct st as [m counter sel]. unfold getNodeByKey in *. simpl in *.
  eexists. split.
  { unfold createLinkNode, createTextNode, getFormat, setFormat, append, forEach, appendNode,
      replaceNode, remove, removeFromParent, getParent, getLatest, setNode, createNode, gets,
      getNodeByKey, mbind, M_bind, mret, M_ret. simpl.
    fold linkNode. fold linkTextNode.
    simplify_map_eq.
    destruct (indexOf_spliceIn textNode linkNode (__children block) index) as [Hi Hs];
      [done|done|].
    rewrite Hi. simpl. simplify_map_eq. rewrite Hs. reflexivity. }
  simpl. unfold childrenOf, parentOf, getNodeByKey. simpl.
  split_and!; by simplify_map_eq.
Qed.

(** *** [listExport] *)

Lemma mapM_id_cons {B} (r : result B) (l : list (result B)) :
  mapM id (r :: l) = y ← r; k ← mapM id l; Ok (y :: k).
Proof. done. Qed.

Lemma markers_snoc st done' item :
  length (filter (λ item, negb (isNestedItem st item)) (done' ++ [item])%list)
  = (length (filter (λ item, negb (isNestedItem st item)) done')
     + (if isNestedItem st item then 0 else 1))%nat.
Proof.
  rewrite filter_app, length_app, filter_cons, filter_nil.
  destruct (isNestedItem st item); simpl; done.
Qed.

Lemma listExportLoop_spec fuel st listNode exportChildren depth tag start
    children done' output :
  getListTag st (Some listNode) = Some tag →
  getStart st listNode = Some start →
  let items := (done' ++ filter (λ child, isListItemNode st (Some child)) children)%list in
  listExportLoop (λ node depth', listExport fuel st node exportChildren depth')
    st listNode exportChildren depth children
    (length (filter (λ item, negb (isNestedItem st item)) done')) output
  = (lines ← mapM id
               (imap (λ i, itemLines fuel st exportChildren tag start depth items
                             (length done' + i))
                     (filter (λ child, isListItemNode st (Some child)) children));
     Ok (output ++ lines)%list).
Proof.
  intros Htag Hstart. revert done' output.
  induction children as [|child children IH]; intros done' output items.
  - simpl. by rewrite app_nil_r.
  - subst items. simpl. rewrite !filter_cons.
    destruct (isListItemNode st (Some child)) eqn:Hitem.
    + rewrite !decide_True by done. rewrite imap_cons, mapM_id_cons.
      set (items := (done' ++ child :: _)%list).
      assert (Hrest : ∀ output',
        listExportLoop (λ node depth', listExport fuel st node exportChildren depth')
          st listNode exportChildren depth children
          (length (filter (λ item, negb (isNestedItem st item)) done')
           + (if isNestedItem st child then 0 else 1)) output'
        = (lines ← mapM id
                     (imap ((λ i, itemLines fuel st exportChildren tag start depth items
                                    (length done' + i)) ∘ S)
                           (filter (λ child, isListItemNode st (Some child)) children));
           Ok (output' ++ lines)%list)).
      { intros output'. rewrite <- markers_snoc. rewrite (IH (done' ++ [child])%list).
        f_equal. f_equal. apply imap_ext. intros i item _. simpl.
        unfold items. rewrite length_app, <- app_assoc. simpl.
        by replace (length done' + 1 + i)%nat with (length done' + S i)%nat by lia. }
      set (tail := mapM id (imap _ _)) in *.
      unfold itemLines.
      change (bool_decide (getChildrenSize st child = 1)
              && isListNode st (getFirstChild st child)) with (isNestedItem st child).
      destruct (isNestedItem st child) eqn:Hnested.
      * destruct (getFirstChild st child) as [firstChild|]; [|done].
        destruct (listExport fuel st firstChild exportChildren (depth + 1)) as [nested| |];
          [|done|done].
        simpl. rewrite Nat.add_0_r in Hrest. rewrite Hrest.
        destruct tail as [lines| |]; simpl; [|done|done].
        by rewrite <- app_assoc.
      * rewrite Htag.
        assert (Hprefix :
          match tag with
          | ul => Ok "- "
          | ol => match getStart st listNode with
                  | Some start0 =>
                      Ok (toString (plus start0
                            (length (filter (λ item, negb (isNestedItem st item)) done')))
                          ++ ". ")
                  | None => Throw TypeError
                  end
          end = Ok (listMarker tag start (markersBefore st items (length done' + 0)))).
        { unfold markersBefore, items. rewrite Nat.add_0_r, take_app_length.
          destruct tag; [done|]. by rewrite Hstart. }
        rewrite Hprefix. simpl. rewrite Hrest.
        destruct tail as [lines| |]; simpl; [|done|done].
        by rewrite <- app_assoc.
    + rewrite !decide_False by (cbv; tauto). apply IH.
Qed.

Lemma nodeType_list st listNode tag start :
  nodeType st listNode = Some (ListNode tag start) →
  getListTag st (Some listNode) = Some tag ∧ getStart st listNode = Some start
  ∧ isListNode st (Some listNode) = true.
Proof.
  unfold nodeType, getListTag, getStart, isListNode, hasType. simpl.
  destruct (getNodeByKey st listNode) as [[type ? ? ?]|]; simpl; [|done].
  by intros [= ->].
Qed.

Lemma listExport_unfold fuel st listNode exportChildren depth tag start :
  nodeType st listNode = Some (ListNode tag start) →
  listExport (S fuel) st listNode exportChildren depth
  = join LF <$> mapM id (imap (itemLines fuel st exportChildren tag start depth
                                 (listItems st listNode))
                              (listItems st listNode)).
Proof.
  intros (Htag & Hstart & _)%nodeType_list. simpl.
  pose proof (listExportLoop_spec fuel st listNode exportChildren depth tag start
                (getChildren st listNode) [] [] Htag Hstart) as Hloop.
  simpl in Hloop. rewrite Hloop. fold (listItems st listNode).
  by destruct (mapM id _).
Qed.

Lemma mapM_id_Ok {B} (l : list (result B)) :
  Forall (λ r, ∃ x, r = Ok x) l → ∃ xs, mapM id l = Ok xs ∧ length xs = length l.
Proof.
  induction 1 as [|r l [x ->] _ (xs & IH & Hlen)].
  - by exists [].
  - exists (x :: xs). rewrite mapM_id_cons, IH. simpl. by rewrite Hlen.
Qed.

Lemma isListNode_type st listNode :
  isListNode st (Some listNode) = true →
  ∃ tag start, nodeType st listNode = Some (ListNode tag start).
Proof.
  unfold isListNode, hasType, nodeType. simpl.
  destruct (getNodeByKey st listNode) as [[[] ? ? ?]|]; simpl; try done. eauto.
Qed.

(** [listExport] returns when every item of the list contributes a line. *)
Lemma listExport_items_Ok fuel st listNode exportChildren depth tag start :
  nodeType st listNode = Some (ListNode tag start) →
  (∀ item sublist, item ∈ listItems st listNode → isNestedItem st item = true →
     getFirstChild st item = Some sublist →
     ∃ s, listExport fuel st sublist exportChildren (depth + 1) = Ok s) →
  ∃ lines,
    mapM id (imap (itemLines fuel st exportChildren tag start depth (listItems st listNode))
                  (listItems st listNode)) = Ok lines
    ∧ length lines = length (listItems st listNode)
    ∧ listExport (S fuel) st listNode exportChildren depth = Ok (join LF lines).
Proof.
  intros Htype Hsub. rewrite (listExport_unfold _ _ _ _ _ _ _ Htype).
  destruct (mapM_id_Ok
         (imap (itemLines fuel st exportChildren tag start depth (listItems st listNode))
               (listItems st listNode))) as (lines & Hlines & Hlen).
  - apply Forall_lookup. intros i r Hr. rewrite list_lookup_imap in Hr.
    destruct (listItems st listNode !! i) as [item|] eqn:Hitem; simpl in Hr; [|done].
    injection Hr as <-. unfold itemLines.
    destruct (isNestedItem st item) eqn:Hnested; [|by eexists].
    assert (Hlist : isListNode st (getFirstChild st item) = true).
    { unfold isNestedItem in Hnested. by apply andb_prop in Hnested as [_ ?]. }
    destruct (getFirstChild st item) as [sublist|] eqn:Hfirst; [|done].
    eapply Hsub; [|done|done]. by eapply list_elem_of_lookup_2.
  - exists lines. rewrite Hlines. rewrite length_imap in Hlen. done.
Qed.

(** With fuel for the depth of nesting, [listExport] returns. *)
Lemma listExport_total exportChildren st fuel :
  ∀ listNode depth,
    isListNode st (Some listNode) = true →
    nestedWithin fuel st listNode = true →
    ∃ s, listExport (S fuel) st listNode exportChildren depth = Ok s.
Proof.
  induction fuel as [|fuel IH]; intros listNode depth [tag [start Htype]]%isListNode_type Hnested.
  - destruct (listExport_items_Ok 0 st listNode exportChildren depth tag start Htype)
      as (lines & _ & _ & ->); [|by eexists].
    intros item sublist Hin Hitem _. simpl in Hnested.
    apply Is_true_true, forallb_True in Hnested. rewrite Forall_forall in Hnested.
    apply Hnested in Hin. by rewrite Hitem in Hin.
  - destruct (listExport_items_Ok (S fuel) st listNode exportChildren depth tag start Htype)
      as (lines & _ & _ & ->); [|by eexists].
    intros item sublist Hin Hitem Hfirst. simpl in Hnested.
    apply Is_true_true, forallb_True in Hnested. rewrite Forall_forall in Hnested.
    apply Hnested in Hin. rewrite Hitem, Hfirst in Hin. apply Is_true_true in Hin.
    apply IH; [|done].
    unfold isNestedItem in Hitem. apply andb_prop in Hitem as [_ Hlist].
    by rewrite Hfirst in Hlist.
Qed.

(** C3: the export of a list node is the lines of its list items, in order,
    joined by single newlines. An item whose sole child is a list contributes
    the export of that list one level deeper, and no marker line; any other
    item contributes [depth * 4] spaces, the marker, and the export of the
    item, the marker of an unordered list being a dash and a space, and that
    of an ordered list the start value of the list plus the number of marker
    lines already emitted for the list, a dot and a space. With fuel for the
    depth of nesting the export returns. *)
Theorem listExport_lines (fuel : nat) (st : EditorState) (listNode : NodeKey)
    (exportChildren : ExportChildren) (depth : nat) (tag : ListTag) (start : number) :
  nodeType st listNode = Some (ListNode tag start) →
  nestedWithin fuel st listNode = true →
  let items := listItems st listNode in
  listExport (S fuel) st listNode exportChildren depth
  = join LF <$> mapM id (imap (itemLines fuel st exportChildren tag start depth items) items)
  ∧ ∃ lines,
      mapM id (imap (itemLines fuel st exportChildren tag start depth items) items) = Ok lines
      ∧ length lines = length items
      ∧ listExport (S fuel) st listNode exportChildren depth = Ok (join LF lines).
Proof.
  intros Htype Hnested items. split; [by apply listExport_unfold|].
  apply listExport_items_Ok; [done|].
  intros item sublist Hin Hitem Hfirst.
  apply Is_true_true in Hnested. destruct fuel as [|fuel]; simpl in Hnested;
    apply forallb_True in Hnested; rewrite Forall_forall in Hnested;
    apply Hnested in Hin; rewrite Hitem in Hin; [done|].
  rewrite Hfirst in Hin. apply Is_true_true in Hin.
  apply listExport_total; [|done].
  unfold isNestedItem in Hitem. apply andb_prop in Hitem as [_ Hlist].
  by rewrite Hfirst in Hlist.
Qed.

Lemma listExport_lines_witness :
  nodeType nestedListState 2%positive = Some (ListNode ul (Num 1))
  ∧ nestedWithin 1 nestedListState 2%positive = true
  ∧ listItems nestedListState 2%positive = [3%positive; 5%positive]
  ∧ listExport 2 nestedListState 2%positive (exportPlainChildren nestedListState) 0
    = Ok ("- a" ++ LF ++ "    3. b" ++ LF ++ "    4. c")
  ∧ let items := listItems nestedListState 2%positive in
    listExport 2 nestedListState 2%positive (exportPlainChildren nestedListState) 0
    = join LF <$> mapM id (imap (itemLines 1 nestedListState
                                   (exportPlainChildren nestedListState) ul (Num 1) 0 items)
                                items)
    ∧ ∃ lines,
        mapM id (imap (itemLines 1 nestedListState (exportPlainChildren nestedListState)
                         ul (Num 1) 0 items) items) = Ok lines
        ∧ length lines = length items
        ∧ listExport 2 nestedListState 2%positive (exportPlainChildren nestedListState) 0
          = Ok (join LF lines).
Proof.
  assert (H1 : nodeType nestedListState 2%positive = Some (ListNode ul (Num 1))).
  { vm_compute. reflexivity. }
  assert (H2 : nestedWithin 1 nestedListState 2%positive = true).
  { vm_compute. reflexivity. }
  split; [exact H1|]. split; [exact H2|].
  split; [vm_compute; reflexivity|]. split; [vm_compute; reflexivity|].
  exact (listExport_lines 1 nestedListState 2%positive (exportPlainChildren nestedListState)
           0 ul (Num 1) H1 H2).
Defined.

Lemma LINK_replace_spec_witness :
  keysBelowCounter linkTextState
  ∧ nodeType linkTextState 2%positive = Some (TextNode "[a](b)" 1)
  ∧ parentOf linkTextState 2%positive = Some 3%positive
  ∧ getNodeByKey linkTextState 3%positive
    = Some {| __type := ParagraphNode; __parent := Some root;
              __children := [2%positive]; __indent := 0 |}
  ∧ indexOf 2%positive [2%positive] = Some 0
  ∧ 3%positive ≠ 2%positive
  ∧ ∃ st',
      TextMatch.replace (LINK childTexts) 2%positive linkMatch linkTextState = Ok ((), st')
      ∧ getNodeByKey st' 4%positive
        = Some {| __type := LinkNode (Some "b"); __parent := Some 3%positive;
                  __children := [5%positive]; __indent := 0 |}
      ∧ getNodeByKey st' 5%positive
        = Some {| __type := TextNode "a" 1; __parent := Some 4%positive;
                  __children := []; __indent := 0 |}
      ∧ childrenOf st' 3%positive = [4%positive]
      ∧ parentOf st' 2%positive = None.
Proof.
  assert (H1 : keysBelowCounter linkTextState).
  { apply keysBelowCounter_decide. vm_compute. reflexivity. }
  assert (H2 : nodeType linkTextState 2%positive = Some (TextNode "[a](b)" 1)).
  { vm_compute. reflexivity. }
  assert (H3 : parentOf linkTextState 2%positive = Some 3%positive).
  { vm_compute. reflexivity. }
  assert (H4 : getNodeByKey linkTextState 3%positive
               = Some {| __type := ParagraphNode; __parent := Some root;
                         __children := [2%positive]; __indent := 0 |}).
  { vm_compute. reflexivity. }
  assert (H5 : indexOf 2%positive [2%positive] = Some 0) by reflexivity.
  assert (H6 : 3%positive ≠ 2%positive) by lia.
  split; [exact H1|]. split; [exact H2|]. split; [exact H3|]. split; [exact H4|].
  split; [exact H5|]. split; [exact H6|].
  exact (LINK_replace_spec childTexts 2%positive linkMatch linkTextState "[a](b)" 1
           3%positive _ 0 H1 H2 H3 H4 H5 H6).
Defined.

Lemma LINK_export_spec_witness :
  nodeType linkReplaced 4%positive = Some (LinkNode (Some "b"))
  ∧ soleTextChild linkReplaced 4%positive = Some 5%positive
  ∧ TextMatch.export (LINK childTexts) linkReplaced 4%positive
      (exportPlainChildren linkReplaced) (λ _ content, "**" ++ content ++ "**")
    = Ok (Some "**[a](b)**")
  ∧ TextMatch.export (LINK childTexts) linkReplaced 4%positive
      (exportPlainChildren linkReplaced) (λ _ content, "**" ++ content ++ "**")
    = Ok (Some (let linkContent := "[" ++ childTexts linkReplaced 4%positive ++ "]("
                                   ++ template (Some "b") ++ ")" in
                match soleTextChild linkReplaced 4%positive with
                | Some child => "**" ++ linkContent ++ "**"
                | None => linkContent
                end)).
Proof.
  assert (H1 : nodeType linkReplaced 4%positive = Some (LinkNode (Some "b"))).
  { vm_compute. reflexivity. }
  split; [exact H1|]. split; [vm_compute; reflexivity|]. split; [vm_compute; reflexivity|].
  exact (LINK_export_spec childTexts linkReplaced 4%positive (Some "b")
           (exportPlainChildren linkReplaced) (λ _ content, "**" ++ content ++ "**") H1).
Defined.

(** ** Further properties of the transformers *)

(** *** The regular expressions of the element transformers *)

Lemma sliceTo_app w rest n :
  sliceTo (String.length w + n) (w ++ rest) = w ++ sliceTo n rest.
Proof. induction w as [|c w IH]; simpl; [done|]. by rewrite IH. Qed.

Lemma sliceTo_snoc w c rest :
  sliceTo (S (String.length w)) (w ++ String c rest) = w ++ String c "".
Proof. induction w as [|c' w IH]; [done|]. simpl in *. by rewrite IH. Qed.

Lemma length_app_string (a b : string) :
  String.length (a ++ b) = (String.length a + String.length b)%nat.
Proof. induction a as [|c a IH]; simpl; [done|]. by rewrite IH. Qed.

Lemma length_repeat_nat c n : String.length (repeat_nat (String c "") n) = n.
Proof.
  induction n as [|n IH]; [done|].
  change (S (String.length (repeat_nat (String c "") n)) = S n). by rewrite IH.
Qed.

Lemma allAccepted_Chr a w :
  allAccepted (Chr a) w = true → w = repeat_nat (String a "") (String.length w).
Proof.
  unfold allAccepted. induction w as [|c w IH]; simpl; [done|].
  intros [Hc Hw]%andb_prop. apply bool_decide_eq_true in Hc as ->.
  change (String a w = String a (repeat_nat (String a "") (String.length w))).
  by rewrite <- IH.
Qed.

Lemma allAccepted_repeat cls c n :
  accepts cls c = true → allAccepted cls (repeat_nat (String c "") n) = true.
Proof.
  intros Hc. unfold allAccepted. induction n as [|n IH]; [done|].
  change (forallb (accepts cls) (c :: list_ascii_of_string (repeat_nat (String c "") n)) = true).
  simpl. by rewrite Hc, IH.
Qed.

Lemma isSpace_not_hash c : isSpace c = true → bool_decide (c = "#"%char) = false.
Proof. destruct c as [[] [] [] [] [] [] [] []]; vm_compute; congruence. Qed.

(** A line that the heading expression matches begins with one to six
    hash characters and a white space character. *)
Lemma HEADING_regExp_shape line m :
  exec (regExp HEADING) line = Some m →
  ∃ n c rest,
    (1 ≤ n ≤ 6)%nat ∧ isSpace c = true
    ∧ line = repeat_nat "#" n ++ String c rest
    ∧ m = [Some (repeat_nat "#" n ++ String c ""); Some (repeat_nat "#" n)].
Proof.
  simpl. rewrite exec_anchored by done. unfold matchAt. simpl.
  destruct (matchRep _ _ _ _ _ _ _ _) as [[pos' caps]|] eqn:Hm; [|done].
  intros [= <-].
  apply matchRep_Some in Hm as (w & rest & -> & Hw & Hmin & Hmax & Hk); [|simpl; lia].
  simpl in *. destruct rest as [|c rest]; [done|].
  destruct (isSpace c) eqn:Hc; [|done]. injection Hk as <- <-.
  exists (String.length w), c, rest.
  rewrite <- (allAccepted_Chr _ _ Hw). split_and!; try done; try lia.
  simpl. rewrite Nat.sub_0_r, sliceTo_prefix.
  by rewrite <- (sliceTo_snoc w c rest).
Qed.

(** The heading expression matches one to six hash characters followed by
    a white space character. *)
Lemma HEADING_regExp_matches n c rest :
  (1 ≤ n ≤ 6)%nat →
  isSpace c = true →
  exec (regExp HEADING) (repeat_nat "#" n ++ String c rest)
  = Some [Some (repeat_nat "#" n ++ String c ""); Some (repeat_nat "#" n)].
Proof.
  intros Hn Hc.
  remember (repeat_nat "#" n ++ String c rest) as line eqn:Hline.
  remember [Some (repeat_nat "#" n ++ String c ""); Some (repeat_nat "#" n)] as m eqn:Hm.
  simpl. rewrite exec_anchored by done. unfold matchAt. simpl.
  subst line m.
  match goal with
  | |- context [matchRep ?a ?b ?c ?d ?e ?s ?caps ?k] =>
      assert (Hrep : matchRep a b c d e s caps k
                     = Some (S n, [None; Some (repeat_nat "#" n)]))
  end.
  { apply matchRep_greedy; rewrite ?length_repeat_nat.
    - by apply allAccepted_repeat.
    - simpl. lia.
    - right. simpl. by apply isSpace_not_hash.
    - lia.
    - simpl. rewrite Hc, Nat.sub_0_r. do 3 f_equal.
      rewrite <- (length_repeat_nat "#" n) at 1. by rewrite sliceTo_prefix. }
  rewrite Hrep. rewrite Nat.sub_0_r.
  rewrite <- (length_repeat_nat "#" n) at 1. by rewrite sliceTo_snoc.
Qed.

(** X1: the regular expression of the heading transformer matches exactly
    the lines that begin with one to six hash characters followed by a white
    space character; the match is the hash characters with that character,
    and the first capture the hash characters. A seventh hash character
    rules the line out. *)
Theorem HEADING_regExp_spec (line : string) (m : MatchResult) :
  exec (regExp HEADING) line = Some m
  ↔ ∃ n c rest,
      (1 ≤ n ≤ 6)%nat ∧ isSpace c = true
      ∧ line = repeat_nat "#" n ++ String c rest
      ∧ m = [Some (repeat_nat "#" n ++ String c ""); Some (repeat_nat "#" n)].
Proof.
  split; [apply HEADING_regExp_shape|].
  intros (n & c & rest & ? & ? & -> & ->). by apply HEADING_regExp_matches.
Qed.

(** A line that the quote expression matches begins with a closing angle
    bracket and a white space character. *)
Lemma QUOTE_regExp_shape line m :
  exec (regExp QUOTE) line = Some m →
  ∃ c rest, isSpace c = true ∧ line = String ">" (String c rest)
            ∧ m = [Some (String ">" (String c ""))].
Proof.
  simpl. rewrite exec_anchored by done. unfold matchAt. simpl.
  destruct line as [|a line]; [done|].
  destruct (bool_decide (a = ">"%char)) eqn:Ha; [|done].
  destruct line as [|c rest]; [done|].
  destruct (isSpace c) eqn:Hc; [|done]. intros [= <-].
  apply bool_decide_eq_true in Ha as ->. by exists c, rest.
Qed.

(** The quote expression matches a closing angle bracket followed by a
    white space character. *)
Lemma QUOTE_regExp_matches c rest :
  isSpace c = true →
  exec (regExp QUOTE) (String ">" (String c rest))
  = Some [Some (String ">" (String c ""))].
Proof.
  intros Hc.
  remember (String ">" (String c rest)) as line eqn:Hline.
  remember [Some (String ">" (String c ""))] as m eqn:Hm.
  simpl. rewrite exec_anchored by done. unfold matchAt. simpl.
  subst line m. simpl. by rewrite Hc.
Qed.

(** X2: the regular expression of the quote transformer matches exactly the
    lines that begin with a closing angle bracket followed by a white space
    character, and the match is these two characters. *)
Theorem QUOTE_regExp_spec (line : string) (m : MatchResult) :
  exec (regExp QUOTE) line = Some m
  ↔ ∃ c rest, isSpace c = true ∧ line = String ">" (String c rest)
              ∧ m = [Some (String ">" (String c ""))].
Proof.
  split; [apply QUOTE_regExp_shape|].
  intros (c & rest & ? & -> & ->). by apply QUOTE_regExp_matches.
Qed.

Lemma sliceTo_snoc2 w b c rest :
  sliceTo (S (S (String.length w))) (w ++ String b (String c rest))
  = w ++ String b (String c "").
Proof. induction w as [|c' w IH]; [done|]. simpl in *. by rewrite IH. Qed.

Lemma isSpace_not_marker c :
  isSpace c = true → bool_decide (c ∈ ["-"; "*"; "+"]%char) = false.
Proof.
  intros Hc. apply bool_decide_eq_false. intros Hin.
  repeat (apply elem_of_cons in Hin as [-> | Hin]; [by vm_compute in Hc|]).
  by apply elem_of_nil in Hin.
Qed.

Lemma marker_not_space b :
  b ∈ ["-"; "*"; "+"]%char → isSpace b = false.
Proof.
  intros Hin.
  repeat (apply elem_of_cons in Hin as [-> | Hin]; [done|]).
  by apply elem_of_nil in Hin.
Qed.

(** A line that the expression of the unordered list matches is white
    space, a marker character and a white space character. *)
Lemma UNORDERED_LIST_regExp_shape line m :
  exec (regExp UNORDERED_LIST) line = Some m →
  ∃ ws b c rest,
    allAccepted Space ws = true ∧ b ∈ ["-"; "*"; "+"]%char ∧ isSpace c = true
    ∧ line = ws ++ String b (String c rest)
    ∧ m = [Some (ws ++ String b (String c "")); Some ws].
Proof.
  simpl. rewrite exec_anchored by done. unfold matchAt. simpl.
  destruct (matchRep _ _ _ _ _ _ _ _) as [[pos' caps]|] eqn:Hm; [|done].
  intros [= <-].
  apply matchRep_Some in Hm as (w & rest & -> & Hw & _ & _ & Hk); [|done].
  simpl in Hk. destruct rest as [|b [|c rest]]; try done.
  { by case_match. }
  destruct (bool_decide (b ∈ _)) eqn:Hb; [|done].
  destruct (isSpace c) eqn:Hc; [|done]. injection Hk as <- <-.
  apply bool_decide_eq_true in Hb.
  exists w, b, c, rest. split_and!; try done.
  simpl. rewrite Nat.sub_0_r, sliceTo_prefix.
  by rewrite <- (sliceTo_snoc2 w b c rest).
Qed.

(** The expression of the unordered list matches white space, a marker
    character and a white space character. *)
Lemma UNORDERED_LIST_regExp_matches ws b c rest :
  allAccepted Space ws = true →
  b ∈ ["-"; "*"; "+"]%char →
  isSpace c = true →
  exec (regExp UNORDERED_LIST) (ws ++ String b (String c rest))
  = Some [Some (ws ++ String b (String c "")); Some ws].
Proof.
  intros Hws Hb Hc.
  remember (ws ++ String b (String c rest)) as line eqn:Hline.
  remember [Some (ws ++ String b (String c "")); Some ws] as m eqn:Hm.
  simpl. rewrite exec_anchored by done. unfold matchAt. simpl.
  subst line m.
  match goal with
  | |- context [matchRep ?a ?b ?c ?d ?e ?s ?caps ?k] =>
      assert (Hrep : matchRep a b c d e s caps k
                     = Some (S (S (String.length ws)), [None; Some ws]))
  end.
  { apply matchRep_greedy; try done.
    - right. simpl. by apply marker_not_space.
    - simpl; lia.
    - simpl. rewrite bool_decide_eq_true_2 by done. rewrite Hc, Nat.sub_0_r.
      by rewrite sliceTo_prefix. }
  rewrite Hrep, Nat.sub_0_r. by rewrite sliceTo_snoc2.
Qed.

(** X3: the regular expression of the unordered list matches exactly the
    lines made of white space, one of the characters [-], [*] and [+], and a
    white space character; the first capture is the white space at the
    start. *)
Theorem UNORDERED_LIST_regExp_spec (line : string) (m : MatchResult) :
  exec (regExp UNORDERED_LIST) line = Some m
  ↔ ∃ ws b c rest,
      allAccepted Space ws = true ∧ b ∈ ["-"; "*"; "+"]%char ∧ isSpace c = true
      ∧ line = ws ++ String b (String c rest)
      ∧ m = [Some (ws ++ String b (String c "")); Some ws].
Proof.
  split; [apply UNORDERED_LIST_regExp_shape|].
  intros (ws & b & c & rest & ? & ? & ? & -> & ->). by apply UNORDERED_LIST_regExp_matches.
Qed.

Lemma app_assoc_string (a b c : string) : (a ++ b) ++ c = a ++ b ++ c.
Proof.
  induction a as [|x a IH]; [done|].
  change (String x ((a ++ b) ++ c) = String x (a ++ b ++ c)). by rewrite IH.
Qed.

Lemma allAccepted_cons cls c w :
  allAccepted cls (String c w) = accepts cls c && allAccepted cls w.
Proof. done. Qed.

Lemma allAccepted_app cls a b :
  allAccepted cls (a ++ b) = allAccepted cls a && allAccepted cls b.
Proof.
  induction a as [|c a IH]; [done|].
  change (allAccepted cls (String c (a ++ b))
          = allAccepted cls (String c a) && allAccepted cls b).
  rewrite !allAccepted_cons, IH. by rewrite andb_assoc.
Qed.

Lemma isDigit_not_dot c : isDigit c = true → bool_decide (c = "."%char) = false.
Proof. destruct c as [[] [] [] [] [] [] [] []]; vm_compute; congruence. Qed.

(** A line that the expression of the ordered list matches is white space,
    digits, a dot and a white space character. *)
Lemma ORDERED_LIST_regExp_shape line m :
  exec (regExp ORDERED_LIST) line = Some m →
  ∃ ws ds c rest,
    allAccepted Space ws = true ∧ allAccepted Digit ds = true ∧ ds ≠ ""
    ∧ isSpace c = true
    ∧ line = ws ++ ds ++ String "." (String c rest)
    ∧ m = [Some (ws ++ ds ++ String "." (String c "")); Some ws; Some ds].
Proof.
  simpl. rewrite exec_anchored by done. unfold matchAt. simpl.
  destruct (matchRep _ _ _ _ _ _ _ _) as [[pos' caps]|] eqn:Hm; [|done].
  intros [= <-].
  apply matchRep_Some in Hm as (w & rest & -> & Hw & _ & _ & Hk); [|done].
  apply matchRep_Some in Hk as (d & rest' & -> & Hd & Hmin & _ & Hk); [|done].
  simpl in Hk. destruct rest' as [|b [|c rest]]; try done.
  { by case_match. }
  destruct (bool_decide (b = _)) eqn:Hb; [|done].
  destruct (isSpace c) eqn:Hc; [|done]. injection Hk as <- <-.
  apply bool_decide_eq_true in Hb as ->.
  exists w, d, c, rest. split_and!; try done.
  { intros ->. simpl in Hmin. lia. }
  simpl. rewrite !Nat.sub_0_r, sliceTo_prefix.
  replace (String.length w + String.length d - String.length w)%nat
    with (String.length d) by lia.
  rewrite sliceTo_prefix. do 2 f_equal.
  rewrite <- !app_assoc_string, <- length_app_string.
  exact (sliceTo_snoc2 (w ++ d) "." c rest).
Qed.

(** The expression of the ordered list matches white space, digits, a dot
    and a white space character. *)
Lemma ORDERED_LIST_regExp_matches ws ds c rest :
  allAccepted Space ws = true →
  allAccepted Digit ds = true →
  ds ≠ "" →
  isSpace c = true →
  exec (regExp ORDERED_LIST) (ws ++ ds ++ String "." (String c rest))
  = Some [Some (ws ++ ds ++ String "." (String c "")); Some ws; Some ds].
Proof.
  intros Hws Hds Hne Hc.
  remember (ws ++ ds ++ String "." (String c rest)) as line eqn:Hline.
  remember [Some (ws ++ ds ++ String "." (String c "")); Some ws; Some ds] as m eqn:Hm.
  simpl. rewrite exec_anchored by done. unfold matchAt. simpl.
  subst line m.
  match goal with
  | |- context [matchRep ?a ?b ?c ?d ?e ?s ?caps ?k] =>
      assert (Hrep : matchRep a b c d e s caps k
                     = Some (S (S (String.length ws + String.length ds)),
                             [None; Some ws; Some ds]))
  end.
  { apply matchRep_greedy; try done.
    - right. destruct ds as [|d ds]; [done|]. simpl.
      rewrite allAccepted_cons in Hds. apply andb_prop in Hds as [Hd _].
      by apply isDigit_not_space.
    - simpl; lia.
    - simpl. apply matchRep_greedy; try done.
      + right. done.
      + destruct ds; [done|]. simpl. lia.
      + simpl. rewrite Hc, !Nat.sub_0_r, sliceTo_prefix.
        replace (String.length ws + String.length ds - String.length ws)%nat
          with (String.length ds) by lia.
        by rewrite sliceTo_prefix. }
  rewrite Hrep, Nat.sub_0_r.
  rewrite <- !app_assoc_string, <- length_app_string.
  by rewrite sliceTo_snoc2.
Qed.

(** X4: the regular expression of the ordered list matches exactly the lines
    made of white space, one or more digits, a dot and a white space
    character; the first capture is the white space and the second the
    digits. *)
Theorem ORDERED_LIST_regExp_spec (line : string) (m : MatchResult) :
  exec (regExp ORDERED_LIST) line = Some m
  ↔ ∃ ws ds c rest,
      allAccepted Space ws = true ∧ allAccepted Digit ds = true ∧ ds ≠ ""
      ∧ isSpace c = true
      ∧ line = ws ++ ds ++ String "." (String c rest)
      ∧ m = [Some (ws ++ ds ++ String "." (String c "")); Some ws; Some ds].
Proof.
  split; [apply ORDERED_LIST_regExp_shape|].
  intros (ws & ds & c & rest & ? & ? & ? & ? & -> & ->). by apply ORDERED_LIST_regExp_matches.
Qed.

(** A line that the code-fence expression matches begins with a triple
    backtick, a tag of word characters and a white space character. *)
Lemma CODE_regExp_shape getTextContent line m :
  exec (regExp (CODE getTextContent)) line = Some m →
  ∃ tag c rest,
    (String.length tag ≤ 10)%nat ∧ allWord tag = true ∧ isSpace c = true
    ∧ line = "```" ++ tag ++ String c rest
    ∧ m = [Some ("```" ++ tag ++ String c "");
           if decide (tag = "") then None else Some tag].
Proof.
  simpl. rewrite exec_anchored by done. unfold matchAt. simpl.
  destruct line as [|c1 line]; [done|].
  destruct (bool_decide (c1 = "`"%char)) eqn:H1; [|done].
  destruct line as [|c2 line]; [done|].
  destruct (bool_decide (c2 = "`"%char)) eqn:H2; [|done].
  destruct line as [|c3 s]; [done|].
  destruct (bool_decide (c3 = "`"%char)) eqn:H3; [|done].
  apply bool_decide_eq_true in H1, H2, H3. subst.
  destruct (matchRep Word 1 (Some 10) 0 3 s _ _) as [[pos' caps]|] eqn:Hrep.
  + intros [= <-].
    apply matchRep_Some in Hrep as (w & rest & -> & Hw & Hmin & Hmax & Hk); [|simpl; lia].
    simpl in Hk. destruct rest as [|c rest]; [done|].
    destruct (isSpace c) eqn:Hc; [|done]. injection Hk as <- <-.
    exists w, c, rest. simpl in *. split_and!; try done.
    rewrite decide_False by (intros ->; simpl in Hmin; lia).
    rewrite Nat.sub_0_r, sliceTo_prefix. do 2 f_equal.
    change (String "`" (String "`" (String "`"
              (sliceTo (S (String.length w)) (w ++ String c rest))))
            = "```" ++ w ++ String c "").
    by rewrite sliceTo_snoc.
  + destruct s as [|c rest]; [done|].
    destruct (isSpace c) eqn:Hc; [|done]. intros [= <-].
    exists "", c, rest. split_and!; try done. simpl; lia.
Qed.

(** The code-fence expression matches a triple backtick, a tag of at most
    10 word characters and a white space character. *)
Lemma CODE_regExp_accepts getTextContent tag c rest :
  (String.length tag ≤ 10)%nat →
  allWord tag = true →
  isSpace c = true →
  exec (regExp (CODE getTextContent)) ("```" ++ tag ++ String c rest)
  = Some [Some ("```" ++ tag ++ String c ""); if decide (tag = "") then None else Some tag].
Proof.
  intros Hlen Htag Hc.
  remember ("```" ++ tag ++ String c rest) as line eqn:Hline.
  remember [Some ("```" ++ tag ++ String c "");
            if decide (tag = "") then None else Some tag] as m eqn:Hm.
  simpl. rewrite exec_anchored by done. unfold matchAt. simpl.
  subst line m.
  change ("```" ++ tag ++ String c rest)
    with (String "`" (String "`" (String "`" (tag ++ String c rest)))).
  simpl. destruct tag as [|t tag].
  + change ("" ++ String c rest) with (String c rest). simpl.
    rewrite (isSpace_not_word c Hc). simpl. by rewrite Hc.
  + match goal with
    | |- context [matchRep ?a ?b ?c ?d ?e ?s ?caps ?k] =>
        assert (Hrep : matchRep a b c d e s caps k
                       = Some (S (3 + String.length (String t tag)),
                               [None; Some (String t tag)]))
    end.
    { apply matchRep_greedy; try done.
      - right. by apply isSpace_not_word.
      - simpl; lia.
      - simpl. rewrite Hc.
        replace (S (S (S (S (String.length tag)))) - 3)%nat
          with (S (String.length tag)) by lia.
        change (String t (tag ++ String c rest)) with (String t tag ++ String c rest).
        change (S (String.length tag)) with (String.length (String t tag)).
        by rewrite sliceTo_prefix. }
    rewrite Hrep. rewrite decide_False by done.
    by rewrite <- (sliceTo_snoc (String t tag) c rest).
Qed.

(** X5: the regular expression of the code-fence transformer matches exactly
    the lines that begin with a triple backtick, a tag of at most 10 word
    characters and a white space character; the first capture is the tag,
    and it is undefined when the tag is empty. *)
Theorem CODE_regExp_spec (getTextContent : EditorState → NodeKey → string)
    (line : string) (m : MatchResult) :
  exec (regExp (CODE getTextContent)) line = Some m
  ↔ ∃ tag c rest,
      (String.length tag ≤ 10)%nat ∧ allWord tag = true ∧ isSpace c = true
      ∧ line = "```" ++ tag ++ String c rest
      ∧ m = [Some ("```" ++ tag ++ String c "");
             if decide (tag = "") then None else Some tag].
Proof.
  split; [apply CODE_regExp_shape|].
  intros (tag & c & rest & ? & ? & ? & -> & ->). by apply CODE_regExp_accepts.
Qed.

(** *** No line belongs to two element transformers *)

Lemma firstMark_app ws b rest :
  allAccepted Space ws = true → isSpace b = false →
  firstMark (ws ++ String b rest) = Some b.
Proof.
  intros Hws Hb. induction ws as [|c ws IH].
  - simpl. by rewrite Hb.
  - rewrite allAccepted_cons in Hws. apply andb_prop in Hws as [Hc Hws].
    change (firstMark (String c (ws ++ String b rest)) = Some b).
    simpl in *. rewrite Hc. by apply IH.
Qed.

Lemma HEADING_firstMark line :
  is_Some (exec (regExp HEADING) line) → firstMark line = Some "#"%char.
Proof.
  simpl. rewrite exec_anchored by done. rewrite matchAt_is_Some. simpl.
  intros [r Hr].
  apply matchRep_Some in Hr as (w & rest & -> & Hw & Hmin & _ & _); [|simpl; lia].
  destruct w as [|c w]; [simpl in Hmin; lia|].
  rewrite allAccepted_cons in Hw. apply andb_prop in Hw as [Hc _].
  apply bool_decide_eq_true in Hc as ->. done.
Qed.

Lemma QUOTE_firstMark line :
  is_Some (exec (regExp QUOTE) line) → firstMark line = Some ">"%char.
Proof.
  simpl. rewrite exec_anchored by done. rewrite matchAt_is_Some. simpl.
  intros [r Hr]. destruct line as [|c line]; [done|].
  destruct (bool_decide (c = ">"%char)) eqn:Hc; [|done].
  by apply bool_decide_eq_true in Hc as ->.
Qed.

Lemma CODE_firstMark getTextContent line :
  is_Some (exec (regExp (CODE getTextContent)) line) → firstMark line = Some "`"%char.
Proof.
  simpl. rewrite exec_anchored by done. rewrite matchAt_is_Some. simpl.
  intros [r Hr]. destruct line as [|c line]; [done|].
  destruct (bool_decide (c = "`"%char)) eqn:Hc; [|done].
  by apply bool_decide_eq_true in Hc as ->.
Qed.

Lemma UNORDERED_LIST_firstMark line :
  is_Some (exec (regExp UNORDERED_LIST) line) →
  ∃ b, firstMark line = Some b ∧ b ∈ ["-"; "*"; "+"]%char.
Proof.
  simpl. rewrite exec_anchored by done. rewrite matchAt_is_Some. simpl.
  intros [r Hr].
  apply matchRep_Some in Hr as (w & rest & -> & Hw & _ & _ & Hk); [|done].
  simpl in Hk. destruct rest as [|b rest]; [done|].
  destruct (bool_decide (b ∈ _)) eqn:Hb; [|done].
  apply bool_decide_eq_true in Hb. exists b. split; [|done].
  apply firstMark_app; [done|]. by apply marker_not_space.
Qed.

Lemma ORDERED_LIST_firstMark line :
  is_Some (exec (regExp ORDERED_LIST) line) →
  ∃ d, firstMark line = Some d ∧ isDigit d = true.
Proof.
  simpl. rewrite exec_anchored by done. rewrite matchAt_is_Some. simpl.
  intros [r Hr].
  apply matchRep_Some in Hr as (w & rest & -> & Hw & _ & _ & Hk); [|done].
  apply matchRep_Some in Hk as (ds & rest' & -> & Hds & Hmin & _ & _); [|done].
  destruct ds as [|d ds]; [simpl in Hmin; lia|].
  rewrite allAccepted_cons in Hds. apply andb_prop in Hds as [Hd _].
  exists d. split; [|done].
  apply (firstMark_app w d (ds ++ rest')); [done|]. by apply isDigit_not_space.
Qed.

(** X6: no line is matched by the regular expressions of two different
    element transformers, so that the order in which an importer tries them
    does not change the transformer that takes a line. *)
Theorem element_regExps_disjoint (getTextContent : EditorState → NodeKey → string)
    (line : string) (i j : nat) (t t' : ElementTransformer) :
  elementTransformers getTextContent !! i = Some t →
  elementTransformers getTextContent !! j = Some t' →
  is_Some (exec (regExp t) line) →
  is_Some (exec (regExp t') line) →
  i = j.
Proof.
  intros Hi Hj Ht Ht'.
  assert (Hmark : ∀ k u, elementTransformers getTextContent !! k = Some u →
            is_Some (exec (regExp u) line) →
            match k with
            | 0 => firstMark line = Some "#"%char
            | 1 => firstMark line = Some ">"%char
            | 2 => firstMark line = Some "`"%char
            | 3 => ∃ b, firstMark line = Some b ∧ b ∈ ["-"; "*"; "+"]%char
            | _ => ∃ d, firstMark line = Some d ∧ isDigit d = true
            end).
  { intros k u Hk Hu.
    destruct k as [|[|[|[|[|k]]]]]; simpl in Hk; [injection Hk as <- ..|done].
    - by apply HEADING_firstMark.
    - by apply QUOTE_firstMark.
    - by eapply CODE_firstMark.
    - by apply UNORDERED_LIST_firstMark.
    - by apply ORDERED_LIST_firstMark. }
  pose proof (Hmark i t Hi Ht) as H1. pose proof (Hmark j t' Hj Ht') as H2.
  assert (Hi5 : (i < 5)%nat) by (apply lookup_lt_Some in Hi; simpl in Hi; lia).
  assert (Hj5 : (j < 5)%nat) by (apply lookup_lt_Some in Hj; simpl in Hj; lia).
  clear Hmark Hi Hj Ht Ht'.
  destruct i as [|[|[|[|[|i]]]]]; try lia;
    destruct j as [|[|[|[|[|j]]]]]; try lia; try done;
    repeat match goal with
           | H : ∃ _, _ |- _ => destruct H as (? & ? & ?)
           end;
    match goal with
    | H : firstMark line = _, H' : firstMark line = _ |- _ =>
        rewrite H in H'; first [discriminate H' | injection H' as ->]
    end;
    try done;
    repeat match goal with
           | H : _ ∈ _ :: _ |- _ => apply elem_of_cons in H as [? | H]; [subst; try done|]
           | H : _ ∈ [] |- _ => by apply elem_of_nil in H
           end.
Qed.

(** *** The regular expressions of the link transformer *)

(** A search that finds a match finds it at some position of the text. *)
Lemma search_Some re pos s m :
  search re pos s = Some m →
  ∃ pre suf, s = pre ++ suf ∧ matchAt re (pos + String.length pre) suf = Some m.
Proof.
  revert pos. induction s as [|c s IH]; intros pos; simpl.
  - destruct (matchAt re pos "") eqn:Hm; [|done]. intros [= <-].
    exists "", "". by rewrite Nat.add_0_r.
  - destruct (matchAt re pos (String c s)) eqn:Hm.
    + intros [= <-]. exists "", (String c s). by rewrite Nat.add_0_r.
    + intros (pre & suf & -> & Hsuf)%IH. exists (String c pre), suf. split; [done|].
      simpl. by rewrite <- Nat.add_succ_comm.
Qed.

(** A text that has a match at some position is not searched in vain. *)
Lemma search_is_Some re pos pre suf :
  is_Some (matchAt re (pos + String.length pre) suf) →
  is_Some (search re pos (pre ++ suf)).
Proof.
  revert pos. induction pre as [|c pre IH]; intros pos Hm.
  - simpl in *. rewrite Nat.add_0_r in Hm. destruct Hm as [m Hm].
    destruct suf; simpl; by rewrite Hm.
  - change (is_Some (search re pos (String c (pre ++ suf)))). simpl.
    destruct (matchAt re pos _); [done|]. apply IH.
    simpl in Hm. by rewrite Nat.add_succ_comm.
Qed.

(** A repetition fails when the rest of the pattern fails after every
    prefix of accepted characters. *)
Lemma matchRep_fails cls min max count pos s caps k :
  (∀ v rest, s = v ++ rest → allAccepted cls v = true →
     k (pos + String.length v)%nat rest caps = None) →
  matchRep cls min max count pos s caps k = None.
Proof.
  revert count pos. induction s as [|c s IH]; intros count pos Hk.
  - simpl. destruct (min <=? count)%nat; [|done].
    specialize (Hk "" "" eq_refl eq_refl). by rewrite Nat.add_0_r in Hk.
  - assert (Hstop : (if (min <=? count)%nat then k pos (String c s) caps else None) = None).
    { destruct (min <=? count)%nat; [|done].
      specialize (Hk "" (String c s) eq_refl eq_refl). by rewrite Nat.add_0_r in Hk. }
    simpl. destruct (below max count && accepts cls c) eqn:Hc; [|done].
    rewrite IH; [done|]. intros v rest -> Hv.
    specialize (Hk (String c v) rest eq_refl). simpl in Hk.
    rewrite <- Nat.add_succ_comm in Hk. apply Hk.
    rewrite allAccepted_cons, Hv. by apply andb_prop in Hc as [_ ->].
Qed.

(** An unbounded repetition gives back characters until the rest of the
    pattern matches: the result is that of the longest run of accepted
    characters after which the rest matches. *)
Lemma matchRep_backtrack cls min count pos w rest caps k r :
  allAccepted cls w = true →
  (min ≤ count + String.length w)%nat →
  k (pos + String.length w)%nat rest caps = Some r →
  (∀ v rest', rest = v ++ rest' → v ≠ "" → allAccepted cls v = true →
     k (pos + String.length w + String.length v)%nat rest' caps = None) →
  matchRep cls min None count pos (w ++ rest) caps k = Some r.
Proof.
  revert count pos. induction w as [|c w IH]; intros count pos Hw Hmin Hk Hlonger.
  - simpl in Hmin, Hk, Hlonger. rewrite Nat.add_0_r in Hmin, Hk.
    apply Nat.leb_le in Hmin.
    change ("" ++ rest) with rest. destruct rest as [|c s]; simpl; rewrite Hmin; [done|].
    destruct (accepts cls c) eqn:Hc; [|done].
    rewrite matchRep_fails; [done|]. intros v rest' -> Hv.
    specialize (Hlonger (String c v) rest' eq_refl). simpl in Hlonger.
    rewrite Nat.add_0_r, <- Nat.add_succ_comm in Hlonger. apply Hlonger; [done|].
    by rewrite allAccepted_cons, Hc, Hv.
  - rewrite allAccepted_cons in Hw. apply andb_prop in Hw as [Hc Hw].
    change (matchRep cls min None count pos (String c (w ++ rest)) caps k = Some r).
    simpl. rewrite Hc. simpl in Hmin, Hk, Hlonger.
    rewrite (IH (S count) (S pos)); [done|done|lia| |].
    + by rewrite Nat.add_succ_comm.
    + intros v rest' Hrest Hne Hv. rewrite Nat.add_succ_comm. by apply Hlonger.
Qed.

Lemma bracketForm_app t u post :
  bracketForm t u ++ post
  = String "[" (t ++ String "]" (String "(" (u ++ String ")" post))).
Proof.
  unfold bracketForm.
  change (String "[" ((t ++ String "]" (String "(" (u ++ ")"))) ++ post)
          = String "[" (t ++ String "]" (String "(" (u ++ String ")" post)))).
  rewrite app_assoc_string.
  change (String "[" (t ++ String "]" (String "(" ((u ++ ")") ++ post)))
          = String "[" (t ++ String "]" (String "(" (u ++ String ")" post)))).
  by rewrite app_assoc_string.
Qed.

Lemma length_bracketForm t u :
  String.length (bracketForm t u) = (String.length t + String.length u + 4)%nat.
Proof.
  unfold bracketForm.
  change (S (String.length (t ++ String "]" (String "(" (u ++ ")"))))
          = (String.length t + String.length u + 4)%nat).
  rewrite length_app_string. simpl. rewrite length_app_string. simpl. lia.
Qed.

(** A match of the import expression of [LINK] at a position is a link text
    in brackets and a URL in parentheses, which are the captures. *)
Lemma LINK_importRegExp_shape pos s m :
  matchAt LINK_importRegExp pos s = Some m →
  ∃ t u post, capturable t u ∧ s = bracketForm t u ++ post
              ∧ m = [Some (bracketForm t u); Some t; Some u].
Proof.
  unfold matchAt. simpl.
  destruct s as [|c1 s1]; [done|].
  destruct (bool_decide (c1 = "["%char)) eqn:H1; [|done].
  apply bool_decide_eq_true in H1 as ->.
  destruct (matchRep _ _ _ _ _ _ _ _) as [[pos' caps]|] eqn:Hm; [|done].
  intros [= <-].
  apply matchRep_Some in Hm as (t & rest1 & -> & Ht & Hmin1 & _ & Hk); [|done].
  simpl in Hk. destruct rest1 as [|c2 rest1]; [done|].
  destruct (bool_decide (c2 = "]"%char)) eqn:H2; [|done].
  apply bool_decide_eq_true in H2 as ->.
  destruct rest1 as [|c3 s2]; [done|].
  destruct (bool_decide (c3 = "("%char)) eqn:H3; [|done].
  apply bool_decide_eq_true in H3 as ->.
  apply matchRep_Some in Hk as (u & rest2 & -> & Hu & Hmin2 & _ & Hk); [|done].
  simpl in Hk. destruct rest2 as [|c4 post]; [done|].
  destruct (bool_decide (c4 = ")"%char)) eqn:H4; [|done].
  apply bool_decide_eq_true in H4 as ->. injection Hk as <- <-.
  exists t, u, post. split; [|split].
  - unfold capturable. split_and!; try done; intros ->; simpl in *; lia.
  - by rewrite bracketForm_app.
  - replace (S (S (S (S (pos + String.length t + String.length u)))) - pos)%nat
      with (String.length (bracketForm t u)) by (rewrite length_bracketForm; lia).
    replace (pos + String.length t - pos)%nat with (String.length t) by lia.
    replace (pos + String.length t + String.length u - (pos + String.length t))%nat
      with (String.length u) by lia.
    by rewrite <- bracketForm_app, !sliceTo_prefix.
Qed.

(** A match of the expression of [LINK] at a position is a link text in
    brackets and a URL in parentheses, up to the end of the text. *)
Lemma LINK_regExp_shape pos s m :
  matchAt LINK_regExp pos s = Some m →
  ∃ t u, capturable t u ∧ s = bracketForm t u
         ∧ m = [Some (bracketForm t u); Some t; Some u].
Proof.
  unfold matchAt. simpl.
  destruct s as [|c1 s1]; [done|].
  destruct (bool_decide (c1 = "["%char)) eqn:H1; [|done].
  apply bool_decide_eq_true in H1 as ->.
  destruct (matchRep _ _ _ _ _ _ _ _) as [[pos' caps]|] eqn:Hm; [|done].
  intros [= <-].
  apply matchRep_Some in Hm as (t & rest1 & -> & Ht & Hmin1 & _ & Hk); [|done].
  simpl in Hk. destruct rest1 as [|c2 rest1]; [done|].
  destruct (bool_decide (c2 = "]"%char)) eqn:H2; [|done].
  apply bool_decide_eq_true in H2 as ->.
  destruct rest1 as [|c3 s2]; [done|].
  destruct (bool_decide (c3 = "("%char)) eqn:H3; [|done].
  apply bool_decide_eq_true in H3 as ->.
  apply matchRep_Some in Hk as (u & rest2 & -> & Hu & Hmin2 & _ & Hk); [|done].
  simpl in Hk. destruct rest2 as [|c4 post]; [done|].
  destruct (bool_decide (c4 = ")"%char)) eqn:H4; [|done].
  apply bool_decide_eq_true in H4 as ->.
  destruct post; [|done]. injection Hk as <- <-.
  exists t, u. split; [|split].
  - unfold capturable. split_and!; try done; intros ->; simpl in *; lia.
  - done.
  - replace (S (S (S (S (pos + String.length t + String.length u)))) - pos)%nat
      with (String.length (bracketForm t u)) by (rewrite length_bracketForm; lia).
    replace (pos + String.length t - pos)%nat with (String.length t) by lia.
    replace (pos + String.length t + String.length u - (pos + String.length t))%nat
      with (String.length u) by lia.
    rewrite !sliceTo_prefix. do 2 f_equal.
    rewrite <- (sliceTo_prefix (bracketForm t u) "") at 2.
    by rewrite bracketForm_app.
Qed.

Lemma sliceTo_full s : sliceTo (String.length s) s = s.
Proof. induction s as [|c s IH]; simpl; [done|]. by rewrite IH. Qed.

Lemma without_cons c x s :
  without c (String x s) = negb (bool_decide (x ∈ [c])) && without c s.
Proof. done. Qed.

Lemma without_app c a b : without c (a ++ b) = without c a && without c b.
Proof. apply allAccepted_app. Qed.

Lemma without_self c s : without c (String c s) = false.
Proof. rewrite without_cons. by rewrite bool_decide_eq_true_2 by set_solver. Qed.

Lemma without_closing u : without "(" u = true → without "(" (u ++ ")") = true.
Proof. intros Hu. by rewrite without_app, Hu. Qed.

(** The expression of [LINK] matches a link text in brackets followed by a
    URL in parentheses, wherever it stands. *)
Lemma LINK_regExp_matches pos t u :
  capturable t u →
  matchAt LINK_regExp pos (bracketForm t u)
  = Some [Some (bracketForm t u); Some t; Some u].
Proof.
  intros (Ht0 & Ht & Hu0 & Hu).
  enough (Hrep : matchPattern (pattern LINK_regExp) pos (bracketForm t u)
                   [None; None; None] (λ pos' _ caps, Some (pos', caps))
                 = Some (S (S (S (S (pos + String.length t + String.length u)))),
                         [None; Some t; Some u])).
  { unfold matchAt. simpl replicate. rewrite Hrep.
    replace (S (S (S (S (pos + String.length t + String.length u)))) - pos)%nat
      with (String.length (bracketForm t u)) by (rewrite length_bracketForm; lia).
    by rewrite sliceTo_full. }
  change (bracketForm t u) with (String "[" (t ++ String "]" (String "(" (u ++ ")")))).
  simpl.
  match goal with
  | |- context [matchRep ?a ?b ?c ?d ?e ?s ?caps ?k] =>
      assert (Hrep : matchRep a b c d e s caps k
                     = Some (S (S (S (S (pos + String.length t + String.length u)))),
                             [None; Some t; Some u]))
  end.
  { apply matchRep_backtrack.
    - done.
    - destruct t; [done|]. simpl; lia.
    - simpl. apply matchRep_backtrack.
      + done.
      + destruct u; [done|]. simpl; lia.
      + simpl.
        replace (pos + String.length t - pos)%nat with (String.length t) by lia.
        replace (pos + String.length t + String.length u - (pos + String.length t))%nat
          with (String.length u) by lia.
        by rewrite !sliceTo_prefix.
      + intros v rest' Hrest Hv _. destruct v as [|c v]; [done|].
        injection Hrest as <- Hrest. destruct v; [|done].
        change ("" ++ rest') with rest' in Hrest. by subst rest'.
    - intros v rest' Hrest Hv _. destruct v as [|c1 v]; [done|].
      injection Hrest as <- Hrest. destruct v as [|c2 v].
      + change ("" ++ rest') with rest' in Hrest. by subst rest'.
      + injection Hrest as <- Hrest.
        destruct rest' as [|c3 [|c4 r]]; simpl; try done; [by case_match|].
        destruct (bool_decide (c3 = "]"%char)); [|done].
        destruct (bool_decide (c4 = "("%char)) eqn:H4; [|done].
        apply bool_decide_eq_true in H4 as ->.
        apply without_closing in Hu. rewrite Hrest in Hu.
        change (v ++ String c3 (String "(" r)) with (v ++ String c3 "" ++ String "(" r) in Hu.
        rewrite <- app_assoc_string, without_app, without_self in Hu.
        by rewrite andb_false_r in Hu. }
  exact Hrep.
Qed.

(** Two texts that agree, cut at the last occurrence of a character. *)
Lemma last_split c x y x' y' :
  without c y = true → without c y' = true →
  x ++ String c y = x' ++ String c y' → x = x' ∧ y = y'.
Proof.
  intros Hy Hy'. revert x'. induction x as [|a x IH]; intros [|a' x'] Heq.
  - by injection Heq as ->.
  - injection Heq as <- ->. by rewrite without_app, without_self, andb_false_r in Hy.
  - injection Heq as -> <-. by rewrite without_app, without_self, andb_false_r in Hy'.
  - injection Heq as -> Heq. by destruct (IH _ Heq) as [-> ->].
Qed.

Lemma snoc_inj c u u' : u ++ String c "" = u' ++ String c "" → u = u'.
Proof.
  revert u'. induction u as [|a u IH]; intros [|a' u'] Heq; try done.
  - injection Heq as _ Heq. by destruct u'.
  - injection Heq as _ Heq. by destruct u.
  - injection Heq as -> Heq. by rewrite (IH _ Heq).
Qed.

Lemma bracketForm_split pre t u :
  pre ++ bracketForm t u = (pre ++ String "[" (t ++ "]")) ++ String "(" (u ++ ")").
Proof.
  unfold bracketForm. rewrite app_assoc_string. f_equal.
  change (String "[" (t ++ String "]" (String "(" (u ++ ")")))
          = String "[" ((t ++ "]") ++ String "(" (u ++ ")"))).
  by rewrite app_assoc_string.
Qed.

(** A text ends in the bracket form of at most one link text and URL. *)
Lemma bracketForm_unique pre t u pre' t' u' :
  capturable t u → capturable t' u' →
  pre ++ bracketForm t u = pre' ++ bracketForm t' u' →
  pre = pre' ∧ t = t' ∧ u = u'.
Proof.
  intros (_ & Ht & _ & Hu) (_ & Ht' & _ & Hu'). rewrite !bracketForm_split.
  intros [Hpre Hurl]%last_split; [|by apply without_closing..].
  apply snoc_inj in Hurl as ->.
  apply last_split in Hpre as [-> Htext]; [|by rewrite without_app, ?Ht, ?Ht'..].
  by apply snoc_inj in Htext as ->.
Qed.

(** X7: the expression of [LINK] matches exactly the texts that end in a
    link text in brackets followed by a URL in parentheses, the link text
    being non-empty and without an opening bracket and the URL non-empty and
    without an opening parenthesis; the match is that end of the text, and
    the captures are the link text and the URL. *)
Theorem LINK_regExp_spec (getTextContent : EditorState → NodeKey → string)
    (text : string) (m : MatchResult) :
  exec (TextMatch.regExp (LINK getTextContent)) text = Some m
  ↔ ∃ pre linkText linkUrl,
      capturable linkText linkUrl
      ∧ text = pre ++ bracketForm linkText linkUrl
      ∧ m = [Some (bracketForm linkText linkUrl); Some linkText; Some linkUrl].
Proof.
  assert (Hshape : ∀ m', exec LINK_regExp text = Some m' →
            ∃ pre t u, capturable t u ∧ text = pre ++ bracketForm t u
                       ∧ m' = [Some (bracketForm t u); Some t; Some u]).
  { intros m' (pre & suf & -> & Hm)%search_Some.
    apply LINK_regExp_shape in Hm as (t & u & Hcap & -> & ->). by exists pre, t, u. }
  simpl. split; [by apply Hshape|].
  intros (pre & t & u & Hcap & -> & ->).
  destruct (search_is_Some LINK_regExp 0 pre (bracketForm t u)) as [m' Hm'].
  { by rewrite LINK_regExp_matches. }
  unfold exec. rewrite Hm'. f_equal.
  destruct (Hshape m' Hm') as (pre' & t' & u' & Hcap' & Heq & ->).
  by apply bracketForm_unique in Heq as (_ & -> & ->).
Qed.

(** X8: a text that the expression of [LINK] matches ends in the trigger of
    the transformer, the closing parenthesis. *)
Theorem LINK_regExp_trigger (getTextContent : EditorState → NodeKey → string)
    (text : string) :
  is_Some (exec (TextMatch.regExp (LINK getTextContent)) text) →
  ∃ pre, text = pre ++ TextMatch.trigger (LINK getTextContent).
Proof.
  simpl. intros [m (pre & suf & -> & Hm)%search_Some].
  apply LINK_regExp_shape in Hm as (t & u & _ & -> & _).
  exists (pre ++ "[" ++ t ++ "](" ++ u). unfold bracketForm.
  by rewrite !app_assoc_string.
Qed.

Lemma element_regExps_disjoint_witness :
  elementTransformers (λ _ _, "") !! 3%nat = Some UNORDERED_LIST
  ∧ is_Some (exec (regExp UNORDERED_LIST) "  * a")
  ∧ 3%nat = 3%nat.
Proof.
  assert (H1 : elementTransformers (λ _ _, "") !! 3%nat = Some UNORDERED_LIST)
    by reflexivity.
  assert (H2 : is_Some (exec (regExp UNORDERED_LIST) "  * a")).
  { vm_compute. eauto. }
  split; [exact H1|]. split; [exact H2|].
  exact (element_regExps_disjoint (λ _ _, "") "  * a" 3 3 UNORDERED_LIST UNORDERED_LIST
           H1 H1 H2 H2).
Defined.

Lemma LINK_regExp_trigger_witness :
  is_Some (exec (TextMatch.regExp (LINK (λ _ _, ""))) "see [a](b)")
  ∧ ∃ pre, "see [a](b)" = pre ++ TextMatch.trigger (LINK (λ _ _, "")).
Proof.
  assert (H1 : is_Some (exec (TextMatch.regExp (LINK (λ _ _, ""))) "see [a](b)")).
  { vm_compute. eauto. }
  split; [exact H1|].
  exact (LINK_regExp_trigger (λ _ _, "") "see [a](b)" H1).
Defined.

(** *** Numbers in markers and tags *)

Lemma string_of_uint_digits d : allAccepted Digit (NilEmpty.string_of_uint d) = true.
Proof.
  induction d as [|d IH|d IH|d IH|d IH|d IH|d IH|d IH|d IH|d IH|d IH]; [done|..];
    simpl NilEmpty.string_of_uint; by rewrite allAccepted_cons, IH.
Qed.

(** The string of a number that is not negative is its decimal digits. *)
Lemma toString_nonneg z :
  (0 ≤ z)%Z →
  ∃ d, d ≠ Decimal.Nil ∧ toString (Num z) = NilEmpty.string_of_uint d ∧ Z.of_uint d = z.
Proof.
  intros Hz. destruct z as [|p|p]; [| |lia].
  - by exists (Decimal.D0 Decimal.Nil).
  - exists (Pos.to_uint p). split; [apply DecimalPos.Unsigned.to_uint_nonnil|]. split.
    + unfold toString. simpl.
      pose proof (DecimalPos.Unsigned.to_uint_nonnil p). by destruct (Pos.to_uint p).
    + exact (DecimalZ.of_to (Z.pos p)).
Qed.

(** [Number] reads back the string of a number that is not negative. *)
Lemma toString_digits z :
  (0 ≤ z)%Z →
  toString (Num z) ≠ ""
  ∧ allAccepted Digit (toString (Num z)) = true
  ∧ Number (Some (toString (Num z))) = Num z.
Proof.
  intros (d & Hd & -> & <-)%toString_nonneg. split_and!.
  - by destruct d.
  - apply string_of_uint_digits.
  - unfold Number. by rewrite NilEmpty.usu.
Qed.

(** The string of a negative number is a minus sign and digits. *)
Lemma toString_negative z :
  (z < 0)%Z →
  ∃ d ds, toString (Num z) = String "-" (String d ds) ∧ isDigit d = true.
Proof.
  intros Hz. destruct z as [|p|p]; [lia|lia|].
  unfold toString. simpl.
  pose proof (DecimalPos.Unsigned.to_uint_nonnil p) as Hnil.
  pose proof (string_of_uint_digits (Pos.to_uint p)) as Hdigits.
  destruct (Pos.to_uint p) eqn:Hp; try done;
    simpl NilEmpty.string_of_uint in *; eexists _, _; (split; [reflexivity|done]).
Qed.

(** *** What an export writes, read again by the regular expression *)

Lemma hashes_split n k c r c' r' :
  c ≠ "#"%char → c' ≠ "#"%char →
  repeat_nat "#" n ++ String c r = repeat_nat "#" k ++ String c' r' → n = k.
Proof.
  intros Hc Hc'. revert k. induction n as [|n IH]; intros [|k] Heq; try done.
  - by injection Heq as ->.
  - by injection Heq as <-.
  - injection Heq as Heq. by rewrite (IH k Heq).
Qed.

Lemma isSpace_hash c : isSpace c = true → c ≠ "#"%char.
Proof. by intros Hc ->. Qed.

(** X9: the export of a heading node whose tag is [h] followed by the
    number [n] is [n] hash characters, a space and the export of the
    children. The regular expression of the heading transformer matches this
    line exactly when [n] is between 1 and 6, and then captures the [n] hash
    characters, from which [replace] computes the same tag. *)
Theorem heading_export_reimport (n fuel : nat) (st : EditorState) (node : NodeKey)
    (exportChildren : ExportChildren) :
  nodeType st node = Some (HeadingNode ("h" ++ toString (Num (Z.of_nat n)))) →
  let line := repeat_nat "#" n ++ " " ++ exportChildren node in
  export HEADING fuel st node exportChildren = Ok (Some line)
  ∧ (is_Some (exec (regExp HEADING) line) ↔ (1 ≤ n ≤ 6)%nat)
  ∧ ∀ m, exec (regExp HEADING) line = Some m → String.length <$> group m 1 = Some n.
Proof.
  intros Hnode line. split; [|split].
  - simpl. unfold isHeadingNode, hasType, getHeadingTag, nodeType in *. simpl.
    destruct (getNodeByKey st node) as [[type ? ? ?]|]; [|done].
    simpl in *. injection Hnode as ->. simpl.
    destruct (toString_digits (Z.of_nat n)) as (_ & _ & Hnum); [lia|].
    unfold Number, toString in Hnum.
    change ("" ++ NilZero.string_of_int (Z.to_int (Z.of_nat n)))
      with (NilZero.string_of_int (Z.to_int (Z.of_nat n))).
    rewrite Hnum. simpl.
    destruct (Z.of_nat n <? 0)%Z eqn:Hneg; [apply Z.ltb_lt in Hneg; lia|].
    by rewrite Nat2Z.id.
  - split.
    + intros [m (k & c & rest & Hk & Hc & Hline & _)%HEADING_regExp_shape].
      apply hashes_split in Hline as ->; [done|done|by apply isSpace_hash].
    + intros Hn.
      change line with (repeat_nat "#" n ++ String " " (exportChildren node)).
      by rewrite HEADING_regExp_matches.
  - intros m (k & c & rest & Hk & Hc & Hline & ->)%HEADING_regExp_shape.
    apply hashes_split in Hline as ->; [|done|by apply isSpace_hash].
    unfold group. simpl. by rewrite length_repeat_nat.
Qed.

Lemma heading_export_reimport_witness :
  nodeType emptyHeadingReplaced 4%positive
  = Some (HeadingNode ("h" ++ toString (Num (Z.of_nat 3))))
  ∧ let line := "### " ++ exportPlainChildren emptyHeadingReplaced 4%positive in
    export HEADING 0 emptyHeadingReplaced 4%positive (exportPlainChildren emptyHeadingReplaced)
    = Ok (Some line)
    ∧ (is_Some (exec (regExp HEADING) line) ↔ (1 ≤ 3 ≤ 6)%nat)
    ∧ ∀ m, exec (regExp HEADING) line = Some m → String.length <$> group m 1 = Some 3%nat.
Proof.
  assert (H1 : nodeType emptyHeadingReplaced 4%positive
               = Some (HeadingNode ("h" ++ toString (Num (Z.of_nat 3))))).
  { vm_compute. reflexivity. }
  split; [exact H1|].
  exact (heading_export_reimport 3 0 emptyHeadingReplaced 4%positive
           (exportPlainChildren emptyHeadingReplaced) H1).
Defined.

Lemma computedIndent_spaces depth line rest :
  computedIndent (Some line :: Some (repeat_nat " " (depth * LIST_INDENT_SIZE)) :: rest)
  = Some depth.
Proof.
  change (Some (String.length (repeat_nat " " (depth * LIST_INDENT_SIZE)) / LIST_INDENT_SIZE)
          = Some depth).
  by rewrite length_repeat_nat, Nat.div_mul.
Qed.

(** X10: the marker line that [listExport] writes for an item of an ordered
    list whose start is not negative, when the number of the marker is a
    safe integer, is matched by the regular expression of the ordered list;
    the indent that [listReplace] computes from the match is the depth of
    the list, and the number that it reads from the second capture is the
    number of the marker. *)
Theorem ordered_marker_reimport (z : Z) (count depth : nat) (text : string) :
  (0 ≤ z)%Z →
  (z + Z.of_nat count ≤ MAX_SAFE_INTEGER)%Z →
  let line := repeat_nat " " (depth * LIST_INDENT_SIZE)
              ++ listMarker ol (Num z) count ++ text in
  ∃ m, exec (regExp ORDERED_LIST) line = Some m
       ∧ computedIndent m = Some depth
       ∧ Number (group m 2) = Num (z + Z.of_nat count).
Proof.
  intros Hz _ line.
  destruct (toString_digits (z + Z.of_nat count)) as (Hne & Hdigits & Hnum); [lia|].
  assert (Hline : line = repeat_nat " " (depth * LIST_INDENT_SIZE)
                         ++ toString (Num (z + Z.of_nat count))
                         ++ String "." (String " " text)).
  { unfold line, listMarker, plus. by rewrite app_assoc_string. }
  rewrite Hline. eexists. split; [|split].
  - apply ORDERED_LIST_regExp_matches; try done. by apply allAccepted_repeat.
  - apply computedIndent_spaces.
  - done.
Qed.

Lemma ordered_marker_reimport_witness :
  (0 ≤ 3)%Z
  ∧ (3 + Z.of_nat 1 ≤ MAX_SAFE_INTEGER)%Z
  ∧ exec (regExp ORDERED_LIST) ("    4. c") = Some [Some "    4. "; Some "    "; Some "4"]
  ∧ let line := repeat_nat " " (1 * LIST_INDENT_SIZE) ++ listMarker ol (Num 3) 1 ++ "c" in
    ∃ m, exec (regExp ORDERED_LIST) line = Some m
         ∧ computedIndent m = Some 1%nat
         ∧ Number (group m 2) = Num (3 + Z.of_nat 1).
Proof.
  assert (H1 : (0 ≤ 3)%Z) by lia.
  assert (H2 : (3 + Z.of_nat 1 ≤ MAX_SAFE_INTEGER)%Z) by (unfold MAX_SAFE_INTEGER; lia).
  split; [exact H1|]. split; [exact H2|]. split; [vm_compute; reflexivity|].
  exact (ordered_marker_reimport 3 1 1 "c" H1 H2).
Defined.

(** X11: the marker line that [listExport] writes for an item of an
    unordered list is matched by the regular expression of the unordered
    list, and the indent that [listReplace] computes from the match is the
    depth of the list. *)
Theorem unordered_marker_reimport (start : number) (count depth : nat) (text : string) :
  ∃ m, exec (regExp UNORDERED_LIST)
         (repeat_nat " " (depth * LIST_INDENT_SIZE) ++ listMarker ul start count ++ text)
       = Some m
       ∧ computedIndent m = Some depth.
Proof.
  eexists. split.
  - change (listMarker ul start count ++ text) with (String "-" (String " " text)).
    apply UNORDERED_LIST_regExp_matches; [by apply allAccepted_repeat|set_solver|done].
  - apply computedIndent_spaces.
Qed.

Lemma app_inv_head_string (w x y : string) : w ++ x = w ++ y → x = y.
Proof.
  induction w as [|c w IH]; [done|]. intros Heq. injection Heq as Heq. by apply IH.
Qed.

(** X12: the marker line that [listExport] writes for an item of an ordered
    list whose number is negative begins with a minus sign and a digit after
    its white space, and the regular expression of no element transformer
    matches it. *)
Theorem negative_marker_not_reimported
    (getTextContent : EditorState → NodeKey → string)
    (z : Z) (count depth : nat) (text : string) (t : ElementTransformer) :
  (z + Z.of_nat count < 0)%Z →
  t ∈ elementTransformers getTextContent →
  exec (regExp t)
    (repeat_nat " " (depth * LIST_INDENT_SIZE) ++ listMarker ol (Num z) count ++ text)
  = None.
Proof.
  intros Hz Ht.
  destruct (toString_negative _ Hz) as (d & ds & Hstring & Hd).
  set (ws := repeat_nat " " (depth * LIST_INDENT_SIZE)).
  assert (Hws : allAccepted Space ws = true) by by apply allAccepted_repeat.
  assert (Hline : ws ++ listMarker ol (Num z) count ++ text
                  = ws ++ String "-" (String d (ds ++ ". " ++ text))).
  { unfold listMarker, plus. rewrite Hstring. f_equal.
    change (String "-" (String d ((ds ++ ". ") ++ text))
            = String "-" (String d (ds ++ ". " ++ text))).
    by rewrite app_assoc_string. }
  rewrite Hline.
  assert (Hmark : firstMark (ws ++ String "-" (String d (ds ++ ". " ++ text)))
                  = Some "-"%char) by by apply firstMark_app.
  destruct (exec (regExp t) _) as [m|] eqn:Hm; [exfalso|done].
  assert (Hsome : is_Some (exec (regExp t)
                             (ws ++ String "-" (String d (ds ++ ". " ++ text))))) by eauto.
  repeat (apply elem_of_cons in Ht as [-> | Ht]).
  - apply HEADING_firstMark in Hsome. by rewrite Hmark in Hsome.
  - apply QUOTE_firstMark in Hsome. by rewrite Hmark in Hsome.
  - apply CODE_firstMark in Hsome. by rewrite Hmark in Hsome.
  - apply UNORDERED_LIST_regExp_shape in Hm
      as (ws' & b & c & rest & Hws' & Hb & Hc & Heq & _).
    assert (Hsame : ws = ws').
    { rewrite <- (leadingSpace_app ws (String "-" (String d (ds ++ ". " ++ text))));
        [|done|done].
      rewrite Heq. apply leadingSpace_app; [done|]. by apply marker_not_space. }
    subst ws'. apply app_inv_head_string in Heq. injection Heq as _ -> _.
    by rewrite (isDigit_not_space _ Hd) in Hc.
  - apply ORDERED_LIST_firstMark in Hsome as (d' & Hd' & Hdigit).
    rewrite Hmark in Hd'. by injection Hd' as <-.
  - by apply elem_of_nil in Ht.
Qed.

Lemma negative_marker_not_reimported_witness :
  (-2 + Z.of_nat 1 < 0)%Z
  ∧ ORDERED_LIST ∈ elementTransformers (λ _ _, "")
  ∧ listMarker ol (Num (-2)) 1 = "-1. "
  ∧ exec (regExp ORDERED_LIST)
      (repeat_nat " " (0 * LIST_INDENT_SIZE) ++ listMarker ol (Num (-2)) 1 ++ "a")
    = None.
Proof.
  assert (H1 : (-2 + Z.of_nat 1 < 0)%Z) by (simpl; lia).
  assert (H2 : ORDERED_LIST ∈ elementTransformers (λ _ _, "")).
  { unfold elementTransformers. repeat constructor. }
  split; [exact H1|]. split; [exact H2|]. split; [vm_compute; reflexivity|].
  exact (negative_marker_not_reimported (λ _ _, "") (-2) 1 0 "a" ORDERED_LIST H1 H2).
Defined.

(** X13: the export of a code node whose language is at most 10 word
    characters is matched by the regular expression of the code-fence
    transformer, the line feed after the language being white space; the
    first capture, from which [replace] creates the code node, is the
    language, and it is undefined for a code node without language or with
    the empty language. *)
Theorem CODE_export_reimport (getTextContent : EditorState → NodeKey → string)
    (fuel : nat) (st : EditorState) (node : NodeKey) (exportChildren : ExportChildren)
    (language : option string) :
  nodeType st node = Some (CodeNode language) →
  let tag := default "" language in
  (String.length tag ≤ 10)%nat →
  allWord tag = true →
  ∃ text m,
    export (CODE getTextContent) fuel st node exportChildren = Ok (Some text)
    ∧ exec (regExp (CODE getTextContent)) text = Some m
    ∧ group m 1 = (if decide (tag = "") then None else Some tag).
Proof.
  intros Hnode tag Hlen Hword.
  set (textContent := getTextContent st node).
  set (rest := if decide (textContent = "") then "```" else textContent ++ LF ++ "```").
  exists ("```" ++ tag ++ String "010" rest). eexists. split; [|split].
  - simpl. unfold nodeType in Hnode.
    destruct (getNodeByKey st node) as [[type ? ? ?]|]; [|done].
    simpl in *. injection Hnode as ->. do 2 f_equal.
    assert (Htag : match language with Some (String _ _ as l) => l | _ => "" end = tag)
      by by destruct language as [[|]|].
    rewrite Htag. fold textContent. unfold rest. by case_decide.
  - by apply CODE_regExp_accepts.
  - done.
Qed.

Lemma CODE_export_reimport_witness :
  nodeType codeBlockState 2%positive = Some (CodeNode (Some "js"))
  ∧ (String.length (default "" (Some "js")) ≤ 10)%nat
  ∧ allWord (default "" (Some "js")) = true
  ∧ export (CODE (λ _ _, "x")) 0 codeBlockState 2%positive (λ _, "")
    = Ok (Some ("```js" ++ LF ++ "x" ++ LF ++ "```"))
  ∧ ∃ text m,
      export (CODE (λ _ _, "x")) 0 codeBlockState 2%positive (λ _, "") = Ok (Some text)
      ∧ exec (regExp (CODE (λ _ _, "x"))) text = Some m
      ∧ group m 1 = (if decide (default "" (Some "js") = "") then None else Some "js").
Proof.
  assert (H1 : nodeType codeBlockState 2%positive = Some (CodeNode (Some "js"))).
  { vm_compute. reflexivity. }
  assert (H2 : (String.length (default "" (Some "js")) ≤ 10)%nat) by (simpl; lia).
  assert (H3 : allWord (default "" (Some "js")) = true) by reflexivity.
  split; [exact H1|]. split; [exact H2|]. split; [exact H3|].
  split; [vm_compute; reflexivity|].
  exact (CODE_export_reimport (λ _ _, "x") 0 codeBlockState 2%positive (λ _, "")
           (Some "js") H1 H2 H3).
Defined.

(** X14: the export of a quote node is a closing angle bracket, a space and
    the export of its children, and the regular expression of the quote
    transformer matches it, the match being the bracket and the space. *)
Theorem QUOTE_export_reimport (fuel : nat) (st : EditorState) (node : NodeKey)
    (exportChildren : ExportChildren) :
  nodeType st node = Some QuoteNode →
  export QUOTE fuel st node exportChildren = Ok (Some ("> " ++ exportChildren node))
  ∧ exec (regExp QUOTE) ("> " ++ exportChildren node) = Some [Some "> "].
Proof.
  intros Hnode. split.
  - simpl. unfold isQuoteNode, hasType, nodeType in *. simpl.
    destruct (getNodeByKey st node) as [[type ? ? ?]|]; [|done].
    simpl in *. by injection Hnode as ->.
  - by apply (QUOTE_regExp_matches " " (exportChildren node)).
Qed.

Lemma QUOTE_export_reimport_witness :
  nodeType quoteBlockState 2%positive = Some QuoteNode
  ∧ export QUOTE 0 quoteBlockState 2%positive (λ _, "a") = Ok (Some ("> " ++ "a"))
  ∧ exec (regExp QUOTE) ("> " ++ "a") = Some [Some "> "].
Proof.
  assert (H1 : nodeType quoteBlockState 2%positive = Some QuoteNode) by (vm_compute; reflexivity).
  split; [exact H1|].
  exact (QUOTE_export_reimport 0 quoteBlockState 2%positive (λ _, "a") H1).
Defined.

Lemma search_here re pos s m : matchAt re pos s = Some m → search re pos s = Some m.
Proof. intros Hm. destruct s; simpl; by rewrite Hm. Qed.

(** X15: the export of a link node whose text content and URL can be
    captured, and whose text the format exporter leaves as it is, is the
    bracket form of the two; the regular expression of [LINK] matches it and
    captures the text content and the URL, from which [replace] creates the
    link again. A link node without URL exports, and is read again, with
    the URL [undefined]. *)
Theorem LINK_export_reimport (getTextContent : EditorState → NodeKey → string)
    (st : EditorState) (node : NodeKey) (url : option string)
    (exportChildren : ExportChildren) (exportFormat : ExportFormat) :
  let linkText := getTextContent st node in
  let linkUrl := template url in
  nodeType st node = Some (LinkNode url) →
  capturable linkText linkUrl →
  (∀ child, soleTextChild st node = Some child →
     exportFormat child (bracketForm linkText linkUrl) = bracketForm linkText linkUrl) →
  TextMatch.export (LINK getTextContent) st node exportChildren exportFormat
  = Ok (Some (bracketForm linkText linkUrl))
  ∧ exec (TextMatch.regExp (LINK getTextContent)) (bracketForm linkText linkUrl)
    = Some [Some (bracketForm linkText linkUrl); Some linkText; Some linkUrl].
Proof.
  intros linkText linkUrl Hnode Hcap Hformat. split.
  - simpl. fold linkText. fold linkUrl.
    unfold isLinkNode, hasType, getURL, soleTextChild, childrenOf, getChildrenSize,
      getFirstChild, nodeType in *. simpl.
    destruct (getNodeByKey st node) as [[type parent children indent]|]; [|done].
    simpl in *. injection Hnode as ->. simpl.
    destruct children as [|child [|child' children]]; simpl; try done.
    unfold isTextNode, hasType in *. simpl in *.
    destruct (getNodeByKey st child) as [[[] ? ? ?]|] eqn:Hchild; simpl in *;
      rewrite ?Hchild; try done.
    do 2 f_equal. by apply Hformat.
  - simpl. apply search_here. by apply LINK_regExp_matches.
Qed.

Lemma LINK_export_reimport_witness :
  nodeType linkReplaced 4%positive = Some (LinkNode (Some "b"))
  ∧ capturable (childTexts linkReplaced 4%positive) (template (Some "b"))
  ∧ (∀ child, soleTextChild linkReplaced 4%positive = Some child →
       (λ _ content, content) child
         (bracketForm (childTexts linkReplaced 4%positive) (template (Some "b")))
       = bracketForm (childTexts linkReplaced 4%positive) (template (Some "b")))
  ∧ TextMatch.export (LINK childTexts) linkReplaced 4%positive (λ _, "") (λ _ content, content)
    = Ok (Some (bracketForm (childTexts linkReplaced 4%positive) (template (Some "b"))))
  ∧ exec (TextMatch.regExp (LINK childTexts))
      (bracketForm (childTexts linkReplaced 4%positive) (template (Some "b")))
    = Some [Some (bracketForm (childTexts linkReplaced 4%positive) (template (Some "b")));
            Some (childTexts linkReplaced 4%positive); Some (template (Some "b"))].
Proof.
  assert (H1 : nodeType linkReplaced 4%positive = Some (LinkNode (Some "b"))).
  { vm_compute. reflexivity. }
  assert (H2 : capturable (childTexts linkReplaced 4%positive) (template (Some "b"))).
  { vm_compute. repeat split; congruence. }
  assert (H3 : ∀ child, soleTextChild linkReplaced 4%positive = Some child →
       (λ _ content, content) child
         (bracketForm (childTexts linkReplaced 4%positive) (template (Some "b")))
       = bracketForm (childTexts linkReplaced 4%positive) (template (Some "b")))
    by (intros; reflexivity).
  split; [exact H1|]. split; [exact H2|]. split; [exact H3|].
  exact (LINK_export_reimport childTexts linkReplaced 4%positive (Some "b") (λ _, "")
           (λ _ content, content) H1 H2 H3).
Defined.

(** *** What [listReplace] reads from the match *)

Lemma bind_ext {A B} (m : M A) (f g : A → M B) st :
  (∀ a st', m st = Ok (a, st') → f a st' = g a st') → (m ≫= f) st = (m ≫= g) st.
Proof. unfold mbind, M_bind. intros H. destruct (m st) as [[a st']| |]; auto. Qed.

(** X16: of the match, [listReplace] reads the length of the first capture,
    through the indent that it computes, and the second capture only when it
    creates an ordered list. Two matches with the same computed indent give
    the same document when the list item joins the previous list, whatever
    the number of the line, and the import flag is not read at all. *)
Theorem listReplace_reads (listTag : ListTag) (parentNode : NodeKey)
    (children : list NodeKey) (match1 match2 : MatchResult) (isImport1 isImport2 : bool)
    (st : EditorState) :
  keysBelowCounter st →
  computedIndent match1 = computedIndent match2 →
  (listTag = ol → previousIsList listTag st parentNode = false →
   Number (group match1 2) = Number (group match2 2)) →
  listReplace listTag parentNode children match1 isImport1 st
  = listReplace listTag parentNode children match2 isImport2 st.
Proof.
  intros Hst Hindent Hnumber. unfold listReplace, listReplaceWith.
  apply bind_ext. intros previousNode st0 Hprev.
  pose proof Hprev as (-> & _ & Hprevious)%getPreviousSibling_Ok.
  apply bind_ext. intros listItem st1 Hitem.
  apply bind_ext. intros sameList ? [-> ->]%gets_Ok.
  destruct (hasType_createNode
              (λ t, match t with ListNode _ _ => true | _ => false end)
              _ _ _ _ previousNode Hitem Hst Hprevious) as [Hlist Htag].
  fold isListNode in Hlist. rewrite Hlist, Htag.
  assert (Hsame : previousIsList listTag st parentNode
                  = isListNode st previousNode
                    && bool_decide (getListTag st previousNode = Some listTag)).
  { unfold previousIsList. by rewrite Hprev. }
  rewrite <- Hsame.
  assert (Hstart : previousIsList listTag st parentNode = false →
            (if decide (listTag = ol) then Some (Number (group match1 2)) else None)
            = (if decide (listTag = ol) then Some (Number (group match2 2)) else None)).
  { intros Hnew. destruct (decide (listTag = ol)); [|done]. by rewrite Hnumber. }
  destruct (previousIsList listTag st parentNode); [|rewrite Hstart by done];
    (apply bind_ext; intros [] st2 _;
     apply bind_ext; intros [] st3 _;
     apply bind_ext; intros [] st4 _;
     unfold computedIndent in Hindent;
     destruct (group match1 1) as [ws1|], (group match2 1) as [ws2|];
     simpl in Hindent; try done;
     injection Hindent as Hindent; simpl;
     unfold mbind, M_bind, mret, M_ret; simpl; by rewrite Hindent).
Qed.

Lemma listReplace_reads_witness :
  keysBelowCounter orderedSecondLineState
  ∧ computedIndent [Some "9. "; Some ""; Some "9"]
    = computedIndent [Some " 2. "; Some " "; Some "2"]
  ∧ previousIsList ol orderedSecondLineState 7%positive = true
  ∧ listReplace ol 7%positive [6%positive] [Some "9. "; Some ""; Some "9"] true
      orderedSecondLineState
    = listReplace ol 7%positive [6%positive] [Some " 2. "; Some " "; Some "2"] false
        orderedSecondLineState.
Proof.
  assert (H1 : keysBelowCounter orderedSecondLineState).
  { apply keysBelowCounter_decide. vm_compute. reflexivity. }
  assert (H2 : computedIndent [Some "9. "; Some ""; Some "9"]
               = computedIndent [Some " 2. "; Some " "; Some "2"]) by reflexivity.
  assert (H3 : previousIsList ol orderedSecondLineState 7%positive = true).
  { vm_compute. reflexivity. }
  assert (H4 : ol = ol → previousIsList ol orderedSecondLineState 7%positive = false →
               Number (group [Some "9. "; Some ""; Some "9"] 2)
               = Number (group [Some " 2. "; Some " "; Some "2"] 2)).
  { intros _ H. rewrite H3 in H. discriminate H. }
  split; [exact H1|]. split; [exact H2|]. split; [exact H3|].
  exact (listReplace_reads ol 7%positive [6%positive] [Some "9. "; Some ""; Some "9"]
           [Some " 2. "; Some " "; Some "2"] true false orderedSecondLineState H1 H2 H4).
Defined.

(** *** Which nodes an element transformer exports *)

(** The kind of node of each element transformer, by its place among
    [elementTransformers]. *)
Lemma export_kind getTextContent fuel st node exportChildren i t s :
  elementTransformers getTextContent !! i = Some t →
  export t fuel st node exportChildren = Ok (Some s) →
  match i with
  | 0 => ∃ tag, nodeType st node = Some (HeadingNode tag)
  | 1 => nodeType st node = Some QuoteNode
  | 2 => ∃ language, nodeType st node = Some (CodeNode language)
  | _ => ∃ tag start, nodeType st node = Some (ListNode tag start)
  end.
Proof.
  intros Hi.
  destruct i as [|[|[|[|[|i]]]]]; simpl in Hi; [injection Hi as <- ..|done]; simpl;
    unfold isHeadingNode, isQuoteNode, isListNode, hasType, nodeType; simpl;
    destruct (getNodeByKey st node) as [[[] ? ? ?]|]; simpl; try done; eauto.
Qed.

(** X17: two element transformers that both export a node, that is, return
    a text for it and not [null], are the same transformer or the two list
    transformers, and they export the same text, so that the order in which
    an exporter tries them does not change the export of a node. *)
Theorem exports_agree (getTextContent : EditorState → NodeKey → string)
    (fuel : nat) (st : EditorState) (node : NodeKey) (exportChildren : ExportChildren)
    (i j : nat) (t t' : ElementTransformer) (s s' : string) :
  elementTransformers getTextContent !! i = Some t →
  elementTransformers getTextContent !! j = Some t' →
  export t fuel st node exportChildren = Ok (Some s) →
  export t' fuel st node exportChildren = Ok (Some s') →
  (i = j ∨ (3 ≤ i ∧ 3 ≤ j)%nat) ∧ s = s'.
Proof.
  intros Hi Hj Hs Hs'.
  pose proof (export_kind _ _ _ _ _ _ _ _ Hi Hs) as Hkind.
  pose proof (export_kind _ _ _ _ _ _ _ _ Hj Hs') as Hkind'.
  assert (Hi5 : (i < 5)%nat) by (apply lookup_lt_Some in Hi; simpl in Hi; lia).
  assert (Hj5 : (j < 5)%nat) by (apply lookup_lt_Some in Hj; simpl in Hj; lia).
  destruct i as [|[|[|[|[|i]]]]]; try lia;
    destruct j as [|[|[|[|[|j]]]]]; try lia;
    simpl in Hi, Hj; injection Hi as <-; injection Hj as <-;
    repeat match goal with
           | H : ∃ _, _ |- _ => destruct H as [? H]
           end;
    try congruence;
    (split; [first [by left | right; lia]|]);
    simpl in Hs, Hs'; rewrite Hs in Hs'; by injection Hs' as ->.
Qed.

Lemma exports_agree_witness :
  elementTransformers (λ _ _, "") !! 3%nat = Some UNORDERED_LIST
  ∧ elementTransformers (λ _ _, "") !! 4%nat = Some ORDERED_LIST
  ∧ export UNORDERED_LIST 2 nestedListState 6%positive (exportPlainChildren nestedListState)
    = Ok (Some ("3. b" ++ LF ++ "4. c"))
  ∧ export ORDERED_LIST 2 nestedListState 6%positive (exportPlainChildren nestedListState)
    = Ok (Some ("3. b" ++ LF ++ "4. c"))
  ∧ (3%nat = 4%nat ∨ (3 ≤ 3 ∧ 3 ≤ 4)%nat)
    ∧ "3. b" ++ LF ++ "4. c" = "3. b" ++ LF ++ "4. c".
Proof.
  assert (H1 : elementTransformers (λ _ _, "") !! 3%nat = Some UNORDERED_LIST)
    by reflexivity.
  assert (H2 : elementTransformers (λ _ _, "") !! 4%nat = Some ORDERED_LIST)
    by reflexivity.
  assert (H3 : export UNORDERED_LIST 2 nestedListState 6%positive
                 (exportPlainChildren nestedListState)
               = Ok (Some ("3. b" ++ LF ++ "4. c"))).
  { vm_compute. reflexivity. }
  assert (H4 : export ORDERED_LIST 2 nestedListState 6%positive
                 (exportPlainChildren nestedListState)
               = Ok (Some ("3. b" ++ LF ++ "4. c"))).
  { vm_compute. reflexivity. }
  split; [exact H1|]. split; [exact H2|]. split; [exact H3|]. split; [exact H4|].
  exact (exports_agree (λ _ _, "") 2 nestedListState 6%positive
           (exportPlainChildren nestedListState) 3 4 UNORDERED_LIST ORDERED_LIST
           _ _ H1 H2 H3 H4).
Defined.

(** *** What the block replacements leave behind *)

(** A node that had a parent has none after [remove]. *)
Lemma remove_detached key st u st' :
  remove key st = Ok (u, st') → is_Some (getParent st key) → parentOf st' key = None.
Proof.
  unfold remove. intros H [parent Hparent]. steps. rewrite Hparent in H. steps.
  apply setNode_Ok in H as (Hget & _).
  unfold parentOf. by rewrite Hget, decide_True.
Qed.

(** The node that [replace] took out of the tree has no parent. *)
Lemma replaceNode_detached self replaceWith st u st' :
  replaceNode self replaceWith st = Ok (u, st') →
  replaceWith ≠ self →
  parentOf st' self = None.
Proof.
  unfold replaceNode. intros H Hne. steps.
  destruct (getParent _ self) as [parentKey|] eqn:Hparent; steps.
  match goal with
  | H : context [indexOf ?k ?l] |- _ => destruct (indexOf k l) as [index|] eqn:Hindex
  end; steps.
  match goal with
  | H1 : setNode parentKey _ _ = Ok (_, ?s2), H2 : setNode replaceWith _ ?s2 = Ok (_, ?s3),
    H3 : getNodeByKey _ parentKey = Some _, H4 : remove self _ = Ok _ |- _ =>
      apply setNode_Ok in H1 as (Hget1 & _); apply setNode_Ok in H2 as (Hget2 & _);
      rename H3 into Hpnode; rename H4 into Hremove
  end.
  apply remove_detached in Hremove; [done|].
  apply getParent_Some in Hparent as [Hp _].
  exists parentKey. apply getParent_Some. split.
  - unfold parentOf in *. rewrite Hget2, decide_False by done. rewrite Hget1.
    case_decide as Heq; [|done]. subst. rewrite Hpnode in Hp. by rewrite <- Hp.
  - rewrite Hget2. case_decide; [eauto|]. rewrite Hget1, decide_True by done. eauto.
Qed.

(** After [self.append(...nodes)] the parent of each of the nodes is
    [self]. *)
Lemma append_parent self nodes st u st' :
  append self nodes st = Ok (u, st') →
  Forall (λ node, parentOf st' node = Some self) nodes.
Proof.
  unfold append. intros H. steps. clear dependent x.
  revert st H. induction nodes as [|node nodes IH]; intros st H; [done|].
  simpl in H. steps.
  match goal with
  | H1 : appendNode self node st = Ok (_, ?s1) |- _ =>
      apply appendNode_child in H1 as [Hnode _]
  end.
  pose proof (IH _ H) as Hrest. constructor; [|done].
  destruct (decide (node ∈ nodes)) as [Hin|Hout].
  - rewrite Forall_forall in Hrest. by apply Hrest.
  - eapply forEach_unmoved in H as [_ _ _ Hp _];
      [|intros; by eapply appendNode_unmoved].
    by rewrite Hp.
Qed.

Lemma select_Ok_selection key anchorOffset focusOffset st u st' :
  select key anchorOffset focusOffset st = Ok (u, st') →
  _selection st' = Some (key, anchorOffset, focusOffset).
Proof.
  unfold select. destruct (getNodeByKey st key); [|done]. by intros [= <- <-].
Qed.

Lemma select_children key anchorOffset focusOffset st u st' :
  select key anchorOffset focusOffset st = Ok (u, st') →
  ∀ k, childrenOf st' k = childrenOf st k.
Proof.
  unfold select. destruct (getNodeByKey st key); [|done]. by intros [= <- <-].
Qed.

Lemma setIndent_wellFormed key indent st u st' :
  setIndent key indent st = Ok (u, st') → wellFormed st →
  wellFormed st' ∧ _selection st' = _selection st.
Proof.
  intros H Hwf. pose proof H as (_ & Hcounter & Hsame)%setIndent_Ok. split.
  - apply attachedTo_wellFormed.
    + intros k node Hnode. simpl. rewrite Hcounter. destruct Hwf as [Hkeys _].
      assert (is_Some (getNodeByKey st k)) as [n Hn]; [|by apply Hkeys in Hn].
      apply nodeType_is_Some. destruct (Hsame k) as (<- & _ & _).
      apply nodeType_is_Some. by exists node.
    + intros k parent. destruct (Hsame k) as (_ & -> & _).
      destruct (Hsame parent) as (_ & _ & ->). by apply wellFormed_attachedTo.
  - unfold setIndent in H. steps. by apply setNode_Ok in H as (_ & _ & ->).
Qed.

(** *** The children of a node, in order *)

Lemma removeFromParent_children key k st u st' :
  removeFromParent key st = Ok (u, st') →
  getParent st key ≠ Some k →
  childrenOf st' k = childrenOf st k.
Proof.
  unfold removeFromParent. intros H Hk. steps.
  destruct (getParent _ key) as [parentKey|]; steps; [|done].
  match goal with
  | H : context [indexOf ?k ?l] |- _ => destruct (indexOf k l) as [index|] eqn:Hindex
  end; steps.
  apply setNode_Ok in H as (Hget & _). unfold childrenOf.
  rewrite Hget, decide_False; [done|congruence].
Qed.

Lemma unmoved_getParent moved st st' key :
  unmoved moved st st' → key ∉ moved → getParent st' key = getParent st key.
Proof.
  intros [_ Ht _ Hp _] Hkey.
  assert (Hsome : ∀ k, is_Some (getNodeByKey st' k) ↔ is_Some (getNodeByKey st k)).
  { intros k. by rewrite <- !nodeType_is_Some, Ht. }
  destruct (getParent st key) as [p|] eqn:Hparent.
  - apply getParent_Some. apply getParent_Some in Hparent as [? ?].
    rewrite Hp, Hsome by done. done.
  - destruct (getParent st' key) as [p|] eqn:Hparent'; [|done].
    apply getParent_Some in Hparent' as [Hparent' Hnode].
    rewrite Hp in Hparent' by done. apply Hsome in Hnode.
    assert (getParent st key = Some p) by by apply getParent_Some.
    congruence.
Qed.

(** [self.append(node)] adds the node after the children of [self], and
    changes the children of no node but [self] and the parent that the node
    had. *)
Lemma appendNode_children self nodeToAppend st u st' :
  appendNode self nodeToAppend st = Ok (u, st') →
  (getParent st nodeToAppend ≠ Some self →
   childrenOf st' self = (childrenOf st self ++ [nodeToAppend])%list)
  ∧ ∀ k, k ≠ self → getParent st nodeToAppend ≠ Some k →
         childrenOf st' k = childrenOf st k.
Proof.
  unfold appendNode. intros H. steps.
  match goal with
  | H0 : removeFromParent _ _ = Ok (_, ?s1),
    H1 : setNode nodeToAppend _ ?s1 = Ok (_, ?s2), H2 : setNode self _ ?s2 = Ok _,
    H3 : getNodeByKey ?s1 nodeToAppend = Some _,
    H4 : getNodeByKey ?s2 self = Some _ |- _ =>
      apply setNode_Ok in H1 as (Hget1 & _); apply setNode_Ok in H2 as (Hget2 & _);
      rename H0 into Hremove; rename H3 into Hnode; rename H4 into Hself;
      rename s2 into sB
  end.
  assert (Hkeep : ∀ k, getParent st nodeToAppend ≠ Some k →
            childrenOf sB k = childrenOf st k).
  { intros k Hk. rewrite <- (removeFromParent_children _ _ _ _ _ Hremove Hk).
    unfold childrenOf. rewrite Hget1. case_decide; [|done]. subst. by rewrite Hnode. }
  split.
  - intros Hk. unfold childrenOf at 1. rewrite Hget2, decide_True by done. simpl.
    rewrite <- (Hkeep self Hk). unfold childrenOf. by rewrite Hself.
  - intros k Hne Hk. unfold childrenOf at 1. rewrite Hget2, decide_False by done.
    by apply Hkeep.
Qed.

(** [self.append(...nodes)] adds the nodes, in their order, after the
    children of [self]. *)
Lemma append_children self nodes st u st' :
  append self nodes st = Ok (u, st') →
  NoDup nodes →
  (∀ node, node ∈ nodes → getParent st node ≠ Some self) →
  childrenOf st' self = (childrenOf st self ++ nodes)%list.
Proof.
  unfold append. intros H. steps. clear dependent x.
  revert st H. induction nodes as [|node nodes IH]; intros st H Hnodup Hparent.
  - simpl in H. steps. by rewrite app_nil_r.
  - simpl in H. steps. apply NoDup_cons in Hnodup as [Hnotin Hnodup].
    match goal with
    | H1 : appendNode self node st = Ok (_, ?s1) |- _ =>
        pose proof (appendNode_unmoved _ _ _ _ _ H1) as Hun;
        apply appendNode_children in H1 as [Hself _]
    end.
    rewrite (IH _ H Hnodup).
    + rewrite Hself by (apply Hparent; set_solver). by rewrite <- app_assoc.
    + intros node' Hin. rewrite (unmoved_getParent _ _ _ _ Hun) by set_solver.
      apply Hparent. set_solver.
Qed.

Lemma remove_children key k st u st' :
  remove key st = Ok (u, st') →
  getParent st key ≠ Some k →
  childrenOf st' k = childrenOf st k.
Proof.
  unfold remove. intros H Hk. steps.
  destruct (getParent _ key) as [parentKey|] eqn:Hparent; steps; [|done].
  match goal with
  | H0 : removeFromParent _ _ = Ok (_, ?s1), H3 : getNodeByKey ?s1 key = Some _ |- _ =>
      rename H0 into Hremove; rename H3 into Hnode
  end.
  apply setNode_Ok in H as (Hget & _). rewrite <- Hparent in Hk.
  rewrite <- (removeFromParent_children _ _ _ _ _ Hremove Hk).
  unfold childrenOf. rewrite Hget. case_decide; [|done]. subst. by rewrite Hnode.
Qed.

(** [self.replace(node)] changes the children of no node but the parents
    that [self] and the node had. *)
Lemma replaceNode_children self replaceWith k st u st' :
  replaceNode self replaceWith st = Ok (u, st') →
  replaceWith ≠ self →
  getParent st self ≠ Some k →
  getParent st replaceWith ≠ Some k →
  childrenOf st' k = childrenOf st k.
Proof.
  unfold replaceNode. intros H Hne Hself Hnew. steps.
  match goal with
  | H0 : removeFromParent _ _ = Ok (_, ?s1) |- _ =>
      pose proof (removeFromParent_unmoved _ _ _ _ H0) as Hun;
      pose proof (removeFromParent_children _ _ _ _ _ H0 Hnew) as Hchildren1;
      rename s1 into sA
  end.
  destruct (getParent _ self) as [parentKey|] eqn:Hparent; steps.
  rewrite (unmoved_getParent _ _ _ _ Hun) in Hparent by set_solver.
  match goal with
  | H : context [indexOf ?k ?l] |- _ => destruct (indexOf k l) as [index|] eqn:Hindex
  end; steps.
  match goal with
  | H1 : setNode parentKey _ _ = Ok (_, ?s2), H2 : setNode replaceWith _ ?s2 = Ok (_, ?s3),
    H3 : getNodeByKey _ parentKey = Some _, H4 : remove self _ = Ok _,
    H5 : getNodeByKey ?s2 replaceWith = Some _ |- _ =>
      apply setNode_Ok in H1 as (Hget1 & _); apply setNode_Ok in H2 as (Hget2 & _);
      rename H3 into Hpnode; rename H4 into Hremove; rename H5 into Hnode
  end.
  assert (Hne' : parentKey ≠ k) by congruence.
  rewrite (remove_children _ k _ _ _ Hremove).
  - rewrite <- Hchildren1. unfold childrenOf. rewrite Hget2.
    case_decide as Heq.
    + subst. simpl. rewrite Hget1, decide_False in Hnode by done. by rewrite Hnode.
    + by rewrite Hget1, decide_False.
  - intros Hk. apply getParent_Some in Hk as [Hk _]. unfold parentOf in Hk.
    rewrite Hget2, decide_False in Hk by done. rewrite Hget1 in Hk.
    apply getParent_Some in Hparent as [Hp _].
    destruct Hun as [_ _ _ Hpar _]. rewrite <- Hpar in Hp by set_solver.
    case_decide as Heq.
    + subst. simpl in Hk. unfold parentOf in Hp. rewrite Hpnode in Hp. simpl in Hp.
      congruence.
    + unfold parentOf in Hp. congruence.
Qed.

(** X18: on a well-formed document, for a block that has a parent and
    children that are nodes of the document other than the block,
    [replaceWithBlock] succeeds and leaves a well-formed document with one
    node more, the node that [createNode] made; the caret is at the start
    of that node, the children have it as their parent, and the block that
    was replaced has no parent. When no child is given twice, the children
    of the new node are the given children, in their order. *)
Theorem replaceWithBlock_effect (create : MatchResult → M NodeKey) (type : NodeType)
    (parentNode : NodeKey) (children : list NodeKey) (match_ : MatchResult)
    (isImport : bool) (st : EditorState) :
  (∀ s, create match_ s = createNode type s) →
  wellFormed st →
  is_Some (parentOf st parentNode) →
  Forall (λ child, is_Some (getNodeByKey st child)) children →
  parentNode ∉ children →
  ∃ st',
    replaceWithBlock create parentNode children match_ isImport st = Ok ((), st')
    ∧ wellFormed st'
    ∧ _keyCounter st' = Pos.succ (_keyCounter st)
    ∧ _selection st' = Some (_keyCounter st, 0, 0)%nat
    ∧ parentOf st' parentNode = None
    ∧ Forall (λ child, parentOf st' child = Some (_keyCounter st)) children
    ∧ (NoDup children → childrenOf st' (_keyCounter st) = children).
Proof.
  intros Hcreate Hwf Hparent Hchildren Hnotin.
  destruct (replaceWithBlock_Ok create type parentNode children match_ isImport st)
    as [st' H]; [done..|].
  exists st'. split; [done|]. destruct Hparent as [parent Hparent].
  pose proof Hwf as [Hkeys _].
  assert (Hblock : is_Some (getNodeByKey st parentNode)).
  { unfold parentOf in Hparent. by destruct (getNodeByKey st parentNode). }
  unfold replaceWithBlock in H.
  apply bind_Ok in H as (node & st1 & Hnode & H).
  apply bind_Ok in H as ([] & st2 & Happend & H).
  apply bind_Ok in H as ([] & st3 & Hreplace & Hselect).
  rewrite Hcreate in Hnode.
  pose proof (createNode_wellFormed _ _ _ _ Hnode Hwf) as Hwf1.
  pose proof Hnode as (-> & Hcounter1 & Hget1)%createNode_Ok.
  set (node := _keyCounter st) in *.
  assert (Hfresh : ∀ k, is_Some (getNodeByKey st k) → k ≠ node).
  { intros k [n Hn] ->. rewrite keysBelowCounter_fresh in Hn; [done|done|unfold node; lia]. }
  assert (Hnode1 : is_Some (getNodeByKey st1 node)).
  { rewrite Hget1, decide_True by done. eauto. }
  assert (Hwf2 : wellFormed st2).
  { destruct (append_Ok node children st1) as (st2' & Happend' & Hwf2); [done|done| |].
    - eapply Forall_impl; [exact Hchildren|]. intros k Hk. simpl.
      by apply (createNode_is_Some _ _ _ _ _ Hnode).
    - congruence. }
  pose proof (append_parent _ _ _ _ _ Happend) as Hchildren2.
  pose proof (append_unmoved _ _ _ _ _ Happend) as [Hc2 _ _ Hp2 _].
  assert (Hwf3 : wellFormed st3).
  { destruct (replaceNode_Ok parentNode node st2) as (st3' & Hreplace' & Hwf3);
      [done|by eapply append_is_Some| |by apply not_eq_sym, Hfresh|congruence].
    exists parent. rewrite Hp2 by done. unfold parentOf.
    rewrite Hget1, decide_False by (by apply not_eq_sym, Hfresh). apply Hparent. }
  pose proof (replaceNode_detached _ _ _ _ _ Hreplace
                (not_eq_sym (Hfresh _ Hblock))) as Hdetached.
  pose proof (replaceNode_unmoved _ _ _ _ _ Hreplace) as [Hc3 _ _ Hp3 _].
  pose proof (select_Ok_selection _ _ _ _ _ _ Hselect) as Hselection.
  pose proof (select_unmoved _ _ _ _ _ _ Hselect) as Hun4.
  pose proof Hun4 as [Hc4 _ _ Hp4 _].
  split_and!.
  - eapply unmoved_wellFormed; [exact Hun4|done|]. by intros k ?%elem_of_nil.
  - by rewrite Hc4, Hc3, Hc2.
  - done.
  - rewrite Hp4 by apply not_elem_of_nil. done.
  - rewrite Forall_forall in Hchildren, Hchildren2. apply Forall_forall.
    intros child Hin. rewrite Hp4 by apply not_elem_of_nil.
    rewrite Hp3; [by apply Hchildren2|].
    intros [->|[->|[]%elem_of_nil]%elem_of_cons]%elem_of_cons; [done|].
    exact (Hfresh node (Hchildren node Hin) eq_refl).
  - intros Hnodup. rewrite (select_children _ _ _ _ _ _ Hselect).
    rewrite (replaceNode_children _ _ node _ _ _ Hreplace).
    + rewrite (append_children _ _ _ _ _ Happend Hnodup).
      * unfold childrenOf. by rewrite Hget1, decide_True.
      * intros child Hin [Hchild _]%getParent_Some. unfold parentOf in Hchild.
        rewrite Forall_forall in Hchildren.
        rewrite Hget1, decide_False in Hchild
          by (by apply not_eq_sym, Hfresh, Hchildren).
        pose proof (wellFormed_attachedTo _ child Hwf _ Hchild) as Hheld.
        apply elem_of_childrenOf in Hheld as (pnode & Hpnode & _).
        by apply (Hfresh node).
    + by apply not_eq_sym, Hfresh.
    + intros [Hblock2 _]%getParent_Some. rewrite Hp2 in Hblock2 by done.
      unfold parentOf in Hblock2.
      rewrite Hget1, decide_False in Hblock2 by (by apply not_eq_sym, Hfresh).
      fold (parentOf st parentNode) in Hblock2. rewrite Hparent in Hblock2.
      injection Hblock2 as ->.
      pose proof (wellFormed_attachedTo _ parentNode Hwf _ Hparent) as Hheld.
      apply elem_of_childrenOf in Hheld as (pnode & Hpnode & _).
      by apply (Hfresh node).
    + intros [Hnew _]%getParent_Some. rewrite Hp2 in Hnew.
      * unfold parentOf in Hnew. by rewrite Hget1, decide_True in Hnew.
      * intros Hin. rewrite Forall_forall in Hchildren.
        exact (Hfresh node (Hchildren node Hin) eq_refl).
Qed.

Lemma replaceWithBlock_effect_witness :
  (∀ s, (λ _ : MatchResult, createQuoteNode) [Some "> "] s = createNode QuoteNode s)
  ∧ wellFormed emptyHeadingBlock
  ∧ is_Some (parentOf emptyHeadingBlock 3%positive)
  ∧ Forall (λ child, is_Some (getNodeByKey emptyHeadingBlock child)) [2%positive]
  ∧ (3%positive ∉ [2%positive])
  ∧ ∃ st',
      replaceWithBlock (λ _, createQuoteNode) 3%positive [2%positive] [Some "> "] true
        emptyHeadingBlock = Ok ((), st')
      ∧ wellFormed st'
      ∧ _keyCounter st' = Pos.succ (_keyCounter emptyHeadingBlock)
      ∧ _selection st' = Some (_keyCounter emptyHeadingBlock, 0, 0)%nat
      ∧ parentOf st' 3%positive = None
      ∧ Forall (λ child, parentOf st' child = Some (_keyCounter emptyHeadingBlock))
          [2%positive]
      ∧ (NoDup [2%positive] → childrenOf st' (_keyCounter emptyHeadingBlock) = [2%positive]).
Proof.
  assert (H0 : ∀ s, (λ _ : MatchResult, createQuoteNode) [Some "> "] s
                    = createNode QuoteNode s) by reflexivity.
  assert (H1 : wellFormed emptyHeadingBlock).
  { apply wellFormed_decide. vm_compute. reflexivity. }
  assert (H2 : is_Some (parentOf emptyHeadingBlock 3%positive)).
  { vm_compute. eauto. }
  assert (H3 : Forall (λ child, is_Some (getNodeByKey emptyHeadingBlock child)) [2%positive]).
  { repeat constructor. vm_compute. eauto. }
  assert (H4 : 3%positive ∉ [2%positive]).
  { intros [H|H]%elem_of_cons; [discriminate H|by apply elem_of_nil in H]. }
  split; [exact H0|]. split; [exact H1|]. split; [exact H2|]. split; [exact H3|].
  split; [exact H4|].
  exact (replaceWithBlock_effect (λ _, createQuoteNode) QuoteNode 3%positive [2%positive]
           [Some "> "] true emptyHeadingBlock H0 H1 H2 H3 H4).
Defined.

(** X19: on a well-formed document, for a block that has a parent, children
    that are nodes of the document other than the block and a match with a
    first capture, [listReplace] succeeds and leaves a well-formed document;
    the caret is at the start of the list item that it created, the children
    have the list item as their parent, and the block has no parent, whether
    the item joined the previous list or a new one. When no child is given
    twice, the children of the list item are the given children, in their
    order. *)
Theorem listReplace_effect (listTag : ListTag) (parentNode : NodeKey)
    (children : list NodeKey) (match_ : MatchResult) (isImport : bool)
    (st : EditorState) :
  wellFormed st →
  is_Some (parentOf st parentNode) →
  Forall (λ child, is_Some (getNodeByKey st child)) children →
  parentNode ∉ children →
  is_Some (group match_ 1) →
  ∃ st',
    listReplace listTag parentNode children match_ isImport st = Ok ((), st')
    ∧ wellFormed st'
    ∧ _selection st' = Some (_keyCounter st, 0, 0)%nat
    ∧ parentOf st' parentNode = None
    ∧ Forall (λ child, parentOf st' child = Some (_keyCounter st)) children
    ∧ (NoDup children → childrenOf st' (_keyCounter st) = children).
Proof.
  intros Hwf Hparent Hchildren Hnotin Hws.
  destruct (listReplace_Ok listTag parentNode children match_ isImport st) as [st' H];
    [done..|].
  exists st'. split; [done|]. destruct Hparent as [parent Hparent].
  pose proof Hwf as [Hkeys _].
  assert (Hblock : is_Some (getNodeByKey st parentNode)).
  { unfold parentOf in Hparent. by destruct (getNodeByKey st parentNode). }
  assert (Hparent' : is_Some (getNodeByKey st parent)).
  { pose proof (wellFormed_attachedTo _ parentNode Hwf _ Hparent) as Hin.
    apply elem_of_childrenOf in Hin as (pnode & Hp & _). eauto. }
  unfold listReplace, listReplaceWith in H.
  apply bind_Ok in H as (previousNode & st0 & Hprev & H).
  pose proof Hprev as (-> & _ & Hprevious)%getPreviousSibling_Ok.
  apply bind_Ok in H as (listItem & st1 & Hitem & H).
  apply bind_Ok in H as (sameList & ? & [-> ->]%gets_Ok & H).
  apply bind_Ok in H as ([] & st2 & Hplace & H).
  apply bind_Ok in H as ([] & st3 & Happend & H).
  apply bind_Ok in H as ([] & st4 & Hselect & H).
  pose proof (createNode_wellFormed _ _ _ _ Hitem Hwf) as Hwf1.
  pose proof Hitem as (-> & Hcounter1 & Hget1)%createNode_Ok.
  set (listItem := _keyCounter st) in *.
  assert (Hfresh : ∀ k, is_Some (getNodeByKey st k) → listItem ≠ k).
  { intros k [n Hn] <-.
    rewrite keysBelowCounter_fresh in Hn; [done|done|unfold listItem; lia]. }
  assert (Hitem1 : is_Some (getNodeByKey st1 listItem)).
  { rewrite Hget1, decide_True by done. eauto. }
  assert (Hold1 : ∀ k, is_Some (getNodeByKey st k) → is_Some (getNodeByKey st1 k)).
  { intros k. by apply (createNode_is_Some _ _ _ _ _ Hitem). }
  assert (Hparent1 : parentOf st1 parentNode = Some parent).
  { unfold parentOf. rewrite Hget1, decide_False by by apply Hfresh. done. }
  assert (Hitems1 : childrenOf st1 listItem = []).
  { unfold childrenOf. by rewrite Hget1, decide_True. }
  assert (Hnone1 : parentOf st1 listItem = None).
  { unfold parentOf. by rewrite Hget1, decide_True. }
  assert (Hchild : ∀ child, child ∈ children → listItem ≠ child ∧ parentNode ≠ child).
  { intros child Hin. rewrite Forall_forall in Hchildren. split.
    - by apply Hfresh, Hchildren.
    - by intros <-. }
  assert (Hplaced : wellFormed st2 ∧ parentOf st2 parentNode = None
                    ∧ (∀ k, is_Some (getNodeByKey st1 k) → is_Some (getNodeByKey st2 k))
                    ∧ childrenOf st2 listItem = []
                    ∧ ∀ child, child ∈ children → parentOf st2 child = parentOf st1 child).
  { destruct (isListNode st1 previousNode
              && bool_decide (getListTag st1 previousNode = Some listTag)) eqn:Hsame.
    - destruct previousNode as [previous|]; [|done]. simpl in Hplace.
      apply bind_Ok in Hplace as (? & ? & [-> ->]%ret_Ok & Hplace).
      apply bind_Ok in Hplace as ([] & s & Happend1 & Hremove).
      destruct (append_Ok previous [listItem] st1) as (s' & Happend1' & Hwfs);
        [done|by apply Hold1, Hprevious|by repeat constructor|].
      assert (s' = s) as -> by congruence.
      destruct (remove_Ok parentNode s Hwfs) as (st2' & Hremove' & Hwf2).
      assert (st2' = st2) as -> by congruence.
      pose proof (append_unmoved _ _ _ _ _ Happend1) as Hun.
      assert (Hparents : parentOf s parentNode = Some parent).
      { destruct Hun as [_ _ _ Hp _]. rewrite Hp; [done|].
        intros [Heq|[]%elem_of_nil]%elem_of_cons.
        exact (Hfresh _ Hblock (eq_sym Heq)). }
      split_and!; [done| | | |].
      + eapply remove_detached; [done|]. exists parent. apply getParent_Some.
        split; [done|]. eapply unmoved_is_Some; [done|]. by apply Hold1.
      + intros k Hk. apply remove_unmoved in Hremove.
        eapply unmoved_is_Some; [done|]. by eapply unmoved_is_Some.
      + rewrite (remove_children _ listItem _ _ _ Hremove).
        * apply append_one, appendNode_children in Happend1 as [_ Hother].
          rewrite Hother; [done| |].
          -- by apply Hfresh, Hprevious.
          -- intros [Hitem' _]%getParent_Some. congruence.
        * intros [Hblock' _]%getParent_Some. rewrite Hparents in Hblock'.
          injection Hblock' as ->. by apply (Hfresh listItem).
      + intros child [Hne1 Hne2]%Hchild.
        apply remove_unmoved in Hremove as [_ _ _ Hp' _]. destruct Hun as [_ _ _ Hp _].
        rewrite Hp', Hp; [done| |];
          intros [Heq|[]%elem_of_nil]%elem_of_cons; congruence.
    - apply bind_Ok in Hplace as (list & s1 & Hlist & Hplace).
      apply bind_Ok in Hplace as ([] & s2 & Happend1 & Hreplace).
      pose proof (createNode_wellFormed _ _ _ _ Hlist Hwf1) as Hwfs1.
      pose proof Hlist as (-> & Hcounters & Hgets)%createNode_Ok.
      rewrite Hcounter1 in *. set (list := Pos.succ listItem) in *.
      assert (Holds : ∀ k, is_Some (getNodeByKey st1 k) → is_Some (getNodeByKey s1 k)).
      { intros k. by apply (createNode_is_Some _ _ _ _ _ Hlist). }
      assert (Hlists : is_Some (getNodeByKey s1 list)).
      { rewrite Hgets, decide_True by done. eauto. }
      destruct (append_Ok list [listItem] s1) as (s2' & Happend1' & Hwfs2);
        [done|done|by repeat constructor; apply Holds|].
      assert (s2' = s2) as -> by congruence.
      assert (Hne2 : list ≠ parentNode).
      { intros <-. destruct Hblock as [n Hn].
        rewrite keysBelowCounter_fresh in Hn; [done|done|unfold list, listItem; lia]. }
      pose proof (append_unmoved _ _ _ _ _ Happend1) as Hun.
      assert (Hparents2 : parentOf s2 parentNode = Some parent).
      { destruct Hun as [_ _ _ Hp _]. rewrite Hp.
        - unfold parentOf. rewrite Hgets, decide_False by done. apply Hparent1.
        - intros [Heq|[]%elem_of_nil]%elem_of_cons.
          exact (Hfresh _ Hblock (eq_sym Heq)). }
      assert (Hnew : ∀ k, is_Some (getNodeByKey st1 k) → list ≠ k).
      { intros k [n Hn] <-. rewrite keysBelowCounter_fresh in Hn; [done| |].
        - by destruct Hwf1.
        - rewrite Hcounter1. unfold list. lia. }
      destruct (replaceNode_Ok parentNode list s2) as (st2' & Hreplace' & Hwf2);
        [done|by eapply append_is_Some|by eexists|done|].
      assert (st2' = st2) as -> by congruence.
      split_and!; [done|by eapply replaceNode_detached| | |].
      + intros k Hk. apply replaceNode_unmoved in Hreplace.
        eapply unmoved_is_Some; [done|]. eapply append_is_Some; [done|]. by apply Holds.
      + rewrite (replaceNode_children _ _ listItem _ _ _ Hreplace Hne2).
        * apply append_one, appendNode_children in Happend1 as [_ Hother].
          rewrite Hother.
          -- unfold childrenOf. rewrite Hgets, decide_False by by apply Hnew.
             apply Hitems1.
          -- by apply not_eq_sym, Hnew.
          -- intros [Hitem' _]%getParent_Some. unfold parentOf in Hitem'.
             rewrite Hgets, decide_False in Hitem' by by apply Hnew.
             fold (parentOf st1 listItem) in Hitem'. congruence.
        * intros [Hblock' _]%getParent_Some. rewrite Hparents2 in Hblock'.
          injection Hblock' as ->. by apply (Hfresh listItem).
        * intros [Hlist' _]%getParent_Some. destruct Hun as [_ _ _ Hp _].
          rewrite Hp in Hlist'.
          -- unfold parentOf in Hlist'. by rewrite Hgets, decide_True in Hlist'.
          -- intros [Heq|[]%elem_of_nil]%elem_of_cons. by apply (Hnew listItem).
      + intros child Hin. pose proof (Hchild _ Hin) as [Hne1' Hne2'].
        apply replaceNode_unmoved in Hreplace as [_ _ _ Hp' _].
        destruct Hun as [_ _ _ Hp _].
        assert (list ≠ child).
        { apply Hnew, Hold1. rewrite Forall_forall in Hchildren. by apply Hchildren. }
        rewrite Hp', Hp.
        * unfold parentOf. by rewrite Hgets, decide_False.
        * intros [Heq|[]%elem_of_nil]%elem_of_cons. congruence.
        * intros [Heq|[Heq|[]%elem_of_nil]%elem_of_cons]%elem_of_cons; congruence. }
  destruct Hplaced as (Hwf2 & Hdetached & Hold2 & Hitems2 & Hparents2).
  assert (Hwf3 : wellFormed st3).
  { destruct (append_Ok listItem children st2) as (st3' & Happend' & Hwf3);
      [done|auto| |congruence].
    eapply Forall_impl; [exact Hchildren|]. intros k Hk. simpl. auto. }
  pose proof (append_parent _ _ _ _ _ Happend) as Hchildren3.
  pose proof (append_unmoved _ _ _ _ _ Happend) as [_ _ _ Hp3 _].
  pose proof (select_Ok_selection _ _ _ _ _ _ Hselect) as Hselection.
  pose proof (select_unmoved _ _ _ _ _ _ Hselect) as Hun4.
  pose proof Hun4 as [_ _ _ Hp4 _].
  assert (Hwf4 : wellFormed st4).
  { eapply unmoved_wellFormed; [exact Hun4|done|]. by intros k ?%elem_of_nil. }
  assert (Hfinal : wellFormed st' ∧ _selection st' = _selection st4
                   ∧ ∀ k, parentOf st' k = parentOf st4 k
                          ∧ childrenOf st' k = childrenOf st4 k).
  { destruct (group match_ 1) as [ws|]; simpl in H; [|done].
    apply bind_Ok in H as (len & ? & [-> ->]%ret_Ok & H).
    case_decide.
    - pose proof (setIndent_wellFormed _ _ _ _ _ H Hwf4) as [? ?].
      apply setIndent_Ok in H as (_ & _ & Hsame). split_and!; try done.
      intros k. by destruct (Hsame k) as (_ & -> & ->).
    - by apply ret_Ok in H as [_ ->]. }
  destruct Hfinal as (Hwf' & Hsel' & Hp').
  split_and!.
  - done.
  - by rewrite Hsel'.
  - destruct (Hp' parentNode) as [-> _]. rewrite Hp4 by apply not_elem_of_nil.
    by rewrite Hp3.
  - rewrite Forall_forall in Hchildren3. apply Forall_forall. intros child Hin.
    destruct (Hp' child) as [-> _]. rewrite Hp4 by apply not_elem_of_nil.
    by apply Hchildren3.
  - intros Hnodup. destruct (Hp' listItem) as [_ ->].
    rewrite (select_children _ _ _ _ _ _ Hselect).
    rewrite (append_children _ _ _ _ _ Happend Hnodup); [by rewrite Hitems2|].
    intros child Hin [Hheld _]%getParent_Some.
    rewrite Hparents2 in Hheld by done. unfold parentOf in Hheld.
    rewrite Hget1, decide_False in Hheld by by apply Hchild.
    pose proof (wellFormed_attachedTo _ child Hwf _ Hheld) as Hin'.
    apply elem_of_childrenOf in Hin' as (pnode & Hpnode & _).
    by apply (Hfresh listItem).
Qed.

Lemma listReplace_effect_witness :
  wellFormed secondLineState
  ∧ is_Some (parentOf secondLineState 7%positive)
  ∧ Forall (λ child, is_Some (getNodeByKey secondLineState child)) [6%positive]
  ∧ (7%positive ∉ [6%positive])
  ∧ is_Some (group secondLineMatch 1)
  ∧ ∃ st',
      listReplace ul 7%positive [6%positive] secondLineMatch true secondLineState
      = Ok ((), st')
      ∧ wellFormed st'
      ∧ _selection st' = Some (_keyCounter secondLineState, 0, 0)%nat
      ∧ parentOf st' 7%positive = None
      ∧ Forall (λ child, parentOf st' child = Some (_keyCounter secondLineState))
          [6%positive]
      ∧ (NoDup [6%positive] → childrenOf st' (_keyCounter secondLineState) = [6%positive]).
Proof.
  assert (H1 : wellFormed secondLineState).
  { apply wellFormed_decide. vm_compute. reflexivity. }
  assert (H2 : is_Some (parentOf secondLineState 7%positive)).
  { vm_compute. eauto. }
  assert (H3 : Forall (λ child, is_Some (getNodeByKey secondLineState child)) [6%positive]).
  { repeat constructor. vm_compute. eauto. }
  assert (H4 : 7%positive ∉ [6%positive]).
  { intros [H|H]%elem_of_cons; [discriminate H|by apply elem_of_nil in H]. }
  assert (H5 : is_Some (group secondLineMatch 1)).
  { vm_compute. eauto. }
  split; [exact H1|]. split; [exact H2|]. split; [exact H3|]. split; [exact H4|].
  split; [exact H5|].
  exact (listReplace_effect ul 7%positive [6%positive] secondLineMatch true secondLineState
           H1 H2 H3 H4 H5).
Defined.

(** *** The blocks that the quote and the code-fence transformers create *)

(** X20: for a line that the regular expression of the code-fence
    transformer matches, [CODE.replace] succeeds on a well-formed document
    and creates a code node whose language is the tag after the backticks,
    and which has no language when there is no tag. *)
Theorem CODE_replace_language (getTextContent : EditorState → NodeKey → string)
    (line : string) (match_ : MatchResult) (parentNode : NodeKey)
    (children : list NodeKey) (isImport : bool) (st : EditorState) :
  exec (regExp (CODE getTextContent)) line = Some match_ →
  wellFormed st →
  is_Some (parentOf st parentNode) →
  Forall (λ child, is_Some (getNodeByKey st child)) children →
  parentNode ∉ children →
  ∃ tag c rest st',
    line = "```" ++ tag ++ String c rest
    ∧ isSpace c = true
    ∧ replace (CODE getTextContent) parentNode children match_ isImport st = Ok ((), st')
    ∧ nodeType st' (_keyCounter st)
      = Some (CodeNode (if decide (tag = "") then None else Some tag)).
Proof.
  intros (tag & c & rest & _ & _ & Hc & -> & ->)%CODE_regExp_shape
    Hwf Hparent Hchildren Hnotin.
  set (match_ := [Some ("```" ++ tag ++ String c "");
                  if decide (tag = "") then None else Some tag]).
  set (create := λ m : MatchResult, createCodeNode (group m 1)).
  assert (Hcreate : ∀ s, create match_ s
            = createNode (CodeNode (if decide (tag = "") then None else Some tag)) s)
    by done.
  destruct (replaceWithBlock_Ok create _ parentNode children match_ isImport st Hcreate)
    as [st' H]; [done..|].
  exists tag, c, rest, st'. split_and!; try done.
  pose proof Hwf as [Hkeys _].
  assert (Hblock : is_Some (getNodeByKey st parentNode)).
  { destruct Hparent as [parent Hparent]. unfold parentOf in Hparent.
    by destruct (getNodeByKey st parentNode). }
  by destruct (replaceWithBlock_spec create _ parentNode children match_ isImport st st'
                 Hcreate Hkeys Hblock H) as [? _].
Qed.

Lemma CODE_replace_language_witness :
  exec (regExp (CODE (λ _ _, ""))) "```js " = Some [Some "```js "; Some "js"]
  ∧ wellFormed emptyHeadingBlock
  ∧ is_Some (parentOf emptyHeadingBlock 3%positive)
  ∧ Forall (λ child, is_Some (getNodeByKey emptyHeadingBlock child)) [2%positive]
  ∧ (3%positive ∉ [2%positive])
  ∧ ∃ tag c rest st',
      "```js " = "```" ++ tag ++ String c rest
      ∧ isSpace c = true
      ∧ replace (CODE (λ _ _, "")) 3%positive [2%positive] [Some "```js "; Some "js"] true
          emptyHeadingBlock = Ok ((), st')
      ∧ nodeType st' (_keyCounter emptyHeadingBlock)
        = Some (CodeNode (if decide (tag = "") then None else Some tag)).
Proof.
  assert (H0 : exec (regExp (CODE (λ _ _, ""))) "```js " = Some [Some "```js "; Some "js"]).
  { vm_compute. reflexivity. }
  assert (H1 : wellFormed emptyHeadingBlock).
  { apply wellFormed_decide. vm_compute. reflexivity. }
  assert (H2 : is_Some (parentOf emptyHeadingBlock 3%positive)).
  { vm_compute. eauto. }
  assert (H3 : Forall (λ child, is_Some (getNodeByKey emptyHeadingBlock child)) [2%positive]).
  { repeat constructor. vm_compute. eauto. }
  assert (H4 : 3%positive ∉ [2%positive]).
  { intros [H|H]%elem_of_cons; [discriminate H|by apply elem_of_nil in H]. }
  split; [exact H0|]. split; [exact H1|]. split; [exact H2|]. split; [exact H3|].
  split; [exact H4|].
  exact (CODE_replace_language (λ _ _, "") "```js " [Some "```js "; Some "js"] 3%positive
           [2%positive] true emptyHeadingBlock H0 H1 H2 H3 H4).
Defined.

(** *** The import expression of the link transformer *)

(** An unbounded repetition succeeds when the rest of the pattern matches
    after some run of accepted characters. *)
Lemma matchRep_is_Some cls min count pos w rest caps k :
  allAccepted cls w = true →
  (min ≤ count + String.length w)%nat →
  is_Some (k (pos + String.length w)%nat rest caps) →
  is_Some (matchRep cls min None count pos (w ++ rest) caps k).
Proof.
  revert count pos. induction w as [|c w IH]; intros count pos Hw Hmin Hk.
  - simpl in Hmin, Hk. rewrite Nat.add_0_r in Hmin, Hk. apply Nat.leb_le in Hmin.
    change ("" ++ rest) with rest. destruct rest as [|c s]; simpl; rewrite Hmin; [done|].
    destruct (accepts cls c); [|done]. by destruct (matchRep _ _ _ _ _ _ _ _).
  - rewrite allAccepted_cons in Hw. apply andb_prop in Hw as [Hc Hw].
    change (is_Some (matchRep cls min None count pos (String c (w ++ rest)) caps k)).
    simpl. rewrite Hc. simpl in Hmin, Hk.
    destruct (IH (S count) (S pos)) as [r ->]; [done|lia| |done].
    by rewrite Nat.add_succ_comm.
Qed.

(** The import expression of [LINK] matches where a link text in brackets
    and a URL in parentheses stand, whatever follows. *)
Lemma LINK_importRegExp_is_Some pos t u post :
  capturable t u → is_Some (matchAt LINK_importRegExp pos (bracketForm t u ++ post)).
Proof.
  intros (Ht0 & Ht & Hu0 & Hu). apply matchAt_is_Some. rewrite bracketForm_app. simpl.
  apply matchRep_is_Some; [done|destruct t; [done|simpl; lia]|]. simpl.
  apply matchRep_is_Some; [done|destruct u; [done|simpl; lia]|]. simpl. eauto.
Qed.

(** X21: the import expression of [LINK] finds a match exactly in the texts
    that hold a link text in brackets followed by a URL in parentheses, the
    link text being non-empty and without an opening bracket and the URL
    non-empty and without an opening parenthesis; a match is such a part of
    the text, with the link text and the URL as captures. *)
Theorem LINK_importRegExp_spec (getTextContent : EditorState → NodeKey → string)
    (text : string) :
  (is_Some (exec (TextMatch.importRegExp (LINK getTextContent)) text)
   ↔ ∃ pre linkText linkUrl post,
       capturable linkText linkUrl ∧ text = pre ++ bracketForm linkText linkUrl ++ post)
  ∧ ∀ m,
      exec (TextMatch.importRegExp (LINK getTextContent)) text = Some m →
      ∃ pre linkText linkUrl post,
        capturable linkText linkUrl
        ∧ text = pre ++ bracketForm linkText linkUrl ++ post
        ∧ m = [Some (bracketForm linkText linkUrl); Some linkText; Some linkUrl].
Proof.
  assert (Hshape : ∀ m, exec LINK_importRegExp text = Some m →
            ∃ pre t u post, capturable t u ∧ text = pre ++ bracketForm t u ++ post
                            ∧ m = [Some (bracketForm t u); Some t; Some u]).
  { intros m (pre & suf & -> & Hm)%search_Some.
    apply LINK_importRegExp_shape in Hm as (t & u & post & Hcap & -> & ->).
    by exists pre, t, u, post. }
  simpl. split; [split|done].
  - intros [m (pre & t & u & post & Hcap & -> & _)%Hshape]. by exists pre, t, u, post.
  - intros (pre & t & u & post & Hcap & ->).
    apply search_is_Some. by apply LINK_importRegExp_is_Some.
Qed.

Lemma app_empty_string (s : string) : s ++ "" = s.
Proof.
  induction s as [|c s IH]; [done|].
  change (String c (s ++ "") = String c s). by rewrite IH.
Qed.

(** X22: a text in which the expression of [LINK] finds a match, at its
    end, is a text in which the import expression finds one. *)
Theorem LINK_regExp_importRegExp (getTextContent : EditorState → NodeKey → string)
    (text : string) :
  is_Some (exec (TextMatch.regExp (LINK getTextContent)) text) →
  is_Some (exec (TextMatch.importRegExp (LINK getTextContent)) text).
Proof.
  simpl. intros [m (pre & suf & -> & Hm)%search_Some].
  apply LINK_regExp_shape in Hm as (t & u & Hcap & -> & _).
  apply search_is_Some. rewrite <- (app_empty_string (bracketForm t u)).
  by apply LINK_importRegExp_is_Some.
Qed.

Lemma LINK_regExp_importRegExp_witness :
  is_Some (exec (TextMatch.regExp (LINK (λ _ _, ""))) "see [a](b)")
  ∧ is_Some (exec (TextMatch.importRegExp (LINK (λ _ _, ""))) "see [a](b)").
Proof.
  assert (H1 : is_Some (exec (TextMatch.regExp (LINK (λ _ _, ""))) "see [a](b)")).
  { vm_compute. eauto. }
  split; [exact H1|].
  exact (LINK_regExp_importRegExp (λ _ _, "") "see [a](b)" H1).
Defined.

(** *** Lists without items *)

(** X23: a list node without list items among its children is exported as
    the empty text, not as [null], at every depth and by both list
    transformers. *)
Theorem empty_list_export (fuel : nat) (st : EditorState) (listNode : NodeKey)
    (exportChildren : ExportChildren) (depth : nat) (tag : ListTag) (start : number) :
  nodeType st listNode = Some (ListNode tag start) →
  listItems st listNode = [] →
  listExport (S fuel) st listNode exportChildren depth = Ok ""
  ∧ export UNORDERED_LIST (S fuel) st listNode exportChildren = Ok (Some "")
  ∧ export ORDERED_LIST (S fuel) st listNode exportChildren = Ok (Some "").
Proof.
  intros Htype Hitems.
  assert (Hexport : ∀ d, listExport (S fuel) st listNode exportChildren d = Ok "").
  { intros d. rewrite (listExport_unfold _ _ _ _ _ _ _ Htype), Hitems. done. }
  assert (Hlist : isListNode st (Some listNode) = true).
  { unfold isListNode, hasType, nodeType in *. simpl.
    destruct (getNodeByKey st listNode) as [[type ? ? ?]|]; [|done].
    simpl in *. by injection Htype as ->. }
  split; [apply Hexport|].
  change (export ORDERED_LIST) with (export UNORDERED_LIST).
  assert (export UNORDERED_LIST (S fuel) st listNode exportChildren = Ok (Some "")).
  { change ((if isListNode st (Some listNode)
             then Some <$> listExport (S fuel) st listNode exportChildren 0
             else Ok None) = Ok (Some "")).
    by rewrite Hlist, Hexport. }
  done.
Qed.

Lemma empty_list_export_witness :
  nodeType emptyListState 2%positive = Some (ListNode ol (Num 7))
  ∧ listItems emptyListState 2%positive = []
  ∧ listExport 1 emptyListState 2%positive (λ _, "x") 3 = Ok ""
  ∧ export UNORDERED_LIST 1 emptyListState 2%positive (λ _, "x") = Ok (Some "")
  ∧ export ORDERED_LIST 1 emptyListState 2%positive (λ _, "x") = Ok (Some "").
Proof.
  assert (H1 : nodeType emptyListState 2%positive = Some (ListNode ol (Num 7))).
  { vm_compute. reflexivity. }
  assert (H2 : listItems emptyListState 2%positive = []).
  { vm_compute. reflexivity. }
  split; [exact H1|]. split; [exact H2|].
  exact (empty_list_export 0 emptyListState 2%positive (λ _, "x") 3 ol (Num 7) H1 H2).
Defined.

(** *** The first link of a text *)

Lemma without_head c x s : without c (String x s) = true → bool_decide (x = c) = false.
Proof.
  rewrite without_cons. intros [Hx _]%andb_prop. apply negb_true_iff in Hx.
  apply bool_decide_eq_false. apply bool_decide_eq_false in Hx. set_solver.
Qed.

(** The import expression of [LINK] matches nowhere in a text without an
    opening bracket, so that a search goes past such a text. *)
Lemma search_past_text pos pre suf :
  without "[" pre = true →
  search LINK_importRegExp pos (pre ++ suf)
  = search LINK_importRegExp (pos + String.length pre) suf.
Proof.
  revert pos. induction pre as [|c pre IH]; intros pos Hpre.
  - simpl. by rewrite Nat.add_0_r.
  - change (search LINK_importRegExp pos (String c (pre ++ suf))
            = search LINK_importRegExp (pos + S (String.length pre)) suf).
    pose proof (without_head _ _ _ Hpre) as Hc.
    rewrite without_cons in Hpre. apply andb_prop in Hpre as [_ Hpre].
    simpl. unfold matchAt at 1. simpl. rewrite Hc.
    rewrite IH by done. by rewrite Nat.add_succ_comm.
Qed.

(** After a URL without an opening parenthesis, an opening parenthesis of
    the text stands after the closing parenthesis of the URL. *)
Lemma parenthesis_after u post v c r :
  without "(" u = true →
  u ++ String ")" post = v ++ String c (String "(" r) →
  ∃ x, post = x ++ String "(" r.
Proof.
  intros Hu. revert v. induction u as [|a u IH]; intros [|a' v] Heq.
  - injection Heq as _ ->. by exists "".
  - injection Heq as _ ->. exists (v ++ String c ""). by rewrite app_assoc_string.
  - injection Heq as _ Heq. destruct u as [|b u]; [done|].
    injection Heq as -> _. rewrite without_cons, without_self in Hu.
    by rewrite andb_false_r in Hu.
  - injection Heq as _ Heq. rewrite without_cons in Hu.
    apply andb_prop in Hu as [_ Hu]. by apply (IH Hu v).
Qed.

(** The rest of the import expression, from the URL on, fails on a text
    without a closing parenthesis. *)
Lemma url_fails pos r caps (k : Cont) :
  without ")" r = true →
  (∀ pos' s caps', k pos' s caps' = match s with
                                     | String c s' =>
                                         if bool_decide (c = ")"%char)
                                         then k pos' s caps' else None
                                     | EmptyString => None
                                     end) →
  matchRep (NoneOf ["("%char]) 1 None 0 pos r caps k = None.
Proof.
  intros Hr Hk. apply matchRep_fails. intros v rest -> _.
  rewrite without_app in Hr. apply andb_prop in Hr as [_ Hrest].
  rewrite Hk. destruct rest as [|c rest]; [done|].
  by rewrite (without_head _ _ _ Hrest).
Qed.

Lemma LINK_importRegExp_matches pos t u post :
  capturable t u →
  without ")" post = true →
  matchAt LINK_importRegExp pos (bracketForm t u ++ post)
  = Some [Some (bracketForm t u); Some t; Some u].
Proof.
  intros (Ht0 & Ht & Hu0 & Hu) Hpost.
  enough (Hrep : matchPattern (pattern LINK_importRegExp) pos (bracketForm t u ++ post)
                   [None; None; None] (λ pos' _ caps, Some (pos', caps))
                 = Some (S (S (S (S (pos + String.length t + String.length u)))),
                         [None; Some t; Some u])).
  { unfold matchAt. simpl replicate. rewrite Hrep.
    replace (S (S (S (S (pos + String.length t + String.length u)))) - pos)%nat
      with (String.length (bracketForm t u)) by (rewrite length_bracketForm; lia).
    by rewrite sliceTo_prefix. }
  rewrite bracketForm_app. simpl.
  apply matchRep_backtrack.
  - done.
  - destruct t; [done|]. simpl; lia.
  - simpl. apply matchRep_backtrack.
    + done.
    + destruct u; [done|]. simpl; lia.
    + simpl.
      replace (pos + String.length t - pos)%nat with (String.length t) by lia.
      replace (pos + String.length t + String.length u - (pos + String.length t))%nat
        with (String.length u) by lia.
      by rewrite !sliceTo_prefix.
    + intros v rest' Hrest Hv _. destruct v as [|c v]; [done|].
      injection Hrest as <- ->. rewrite without_app in Hpost.
      apply andb_prop in Hpost as [_ Hrest']. destruct rest' as [|c r]; [done|].
      by rewrite (without_head _ _ _ Hrest').
  - intros v rest' Hrest Hv _. destruct v as [|c1 v]; [done|].
    injection Hrest as <- Hrest. destruct v as [|c2 v].
    + change ("" ++ rest') with rest' in Hrest. by subst rest'.
    + injection Hrest as <- Hrest.
      destruct rest' as [|c3 [|c4 r]]; simpl; try done; [by case_match|].
      destruct (bool_decide (c3 = "]"%char)); [|done].
      destruct (bool_decide (c4 = "("%char)) eqn:H4; [|done].
      apply bool_decide_eq_true in H4 as ->.
      apply parenthesis_after in Hrest as [x ->]; [|done].
      rewrite without_app, without_cons in Hpost.
      apply andb_prop in Hpost as [_ [_ Hr]%andb_prop].
      apply url_fails; [done|]. intros pos' s caps'. destruct s as [|c s]; [done|].
      by destruct (bool_decide (c = ")"%char)).
Qed.

(** X24: in a text that begins without an opening bracket, then holds a
    link text in brackets and a URL in parentheses, and has no closing
    parenthesis after them, the import expression of [LINK] finds this link
    first, and captures the link text and the URL, which may itself hold
    closing parentheses. *)
Theorem LINK_importRegExp_first (getTextContent : EditorState → NodeKey → string)
    (pre linkText linkUrl post : string) :
  without "[" pre = true →
  capturable linkText linkUrl →
  without ")" post = true →
  exec (TextMatch.importRegExp (LINK getTextContent))
    (pre ++ bracketForm linkText linkUrl ++ post)
  = Some [Some (bracketForm linkText linkUrl); Some linkText; Some linkUrl].
Proof.
  intros Hpre Hcap Hpost. simpl. unfold exec. rewrite search_past_text by done.
  apply search_here. by apply LINK_importRegExp_matches.
Qed.

Lemma LINK_importRegExp_first_witness :
  without "[" "see " = true
  ∧ capturable "a" "b) c"
  ∧ without ")" " now" = true
  ∧ exec (TextMatch.importRegExp (LINK (λ _ _, ""))) "see [a](b) c) now"
    = Some [Some "[a](b) c)"; Some "a"; Some "b) c"]
  ∧ exec (TextMatch.importRegExp (LINK (λ _ _, "")))
      ("see " ++ bracketForm "a" "b) c" ++ " now")
    = Some [Some (bracketForm "a" "b) c"); Some "a"; Some "b) c"].
Proof.
  assert (H1 : without "[" "see " = true) by reflexivity.
  assert (H2 : capturable "a" "b) c").
  { unfold capturable. repeat split; congruence. }
  assert (H3 : without ")" " now" = true) by reflexivity.
  split; [exact H1|]. split; [exact H2|]. split; [exact H3|].
  split; [vm_compute; reflexivity|].
  exact (LINK_importRegExp_first (λ _ _, "") "see " "a" "b) c" " now" H1 H2 H3).
Defined.

(** *** The start of a new list *)

Lemma of_lu_bound d :
  (DecimalPos.Unsigned.of_lu d < 10 ^ N.of_nat (Decimal.nb_digits d))%N.
Proof.
  induction d as [|d IH|d IH|d IH|d IH|d IH|d IH|d IH|d IH|d IH|d IH];
    [simpl; lia|..];
    change (Decimal.nb_digits (_ d)) with (S (Decimal.nb_digits d));
    rewrite Nat2N.inj_succ, N.pow_succ_r';
    cbn [DecimalPos.Unsigned.of_lu]; lia.
Qed.

Lemma uint_of_digits_length ds :
  allAccepted Digit ds = true →
  ∃ d, NilEmpty.uint_of_string ds = Some d ∧ Decimal.nb_digits d = String.length ds.
Proof.
  induction ds as [|c ds IH]; [by eexists|].
  rewrite allAccepted_cons. intros [Hc (d & Hd & Hlength)%IH]%andb_prop.
  simpl. rewrite Hd, <- Hlength.
  destruct c as [[] [] [] [] [] [] [] []]; vm_compute in Hc; try discriminate Hc;
    simpl; eauto.
Qed.

(** [Number] of a string of digits is a number that is not negative, below
    the power of ten of the length of the string. *)
Lemma Number_digits ds :
  allAccepted Digit ds = true →
  ∃ z, Number (Some ds) = Num z ∧ (0 ≤ z < 10 ^ Z.of_nat (String.length ds))%Z.
Proof.
  intros (d & Hd & <-)%uint_of_digits_length. exists (Z.of_uint d).
  unfold Number. rewrite Hd. split; [done|]. unfold Z.of_uint.
  rewrite DecimalPos.Unsigned.of_uint_alt, <- (DecimalFacts.nb_digits_rev d).
  pose proof (of_lu_bound (Decimal.rev d)) as Hbound.
  split; [apply N2Z.is_nonneg|].
  apply N2Z.inj_lt in Hbound. rewrite N2Z.inj_pow, nat_N_Z in Hbound. exact Hbound.
Qed.

(** A string of at most 15 digits is the numeral of a safe integer. *)
Lemma Number_safe ds :
  allAccepted Digit ds = true → (String.length ds ≤ 15)%nat →
  ∃ z, Number (Some ds) = Num z ∧ (0 ≤ z < MAX_SAFE_INTEGER)%Z.
Proof.
  intros (z & Hz & Hpos & Hbound)%Number_digits Hlength. exists z. split; [done|].
  split; [done|]. eapply Z.lt_le_trans; [exact Hbound|].
  transitivity (10 ^ 15)%Z; [apply Z.pow_le_mono_r; lia|]. by vm_compute.
Qed.

(** X25: a match of the regular expression of the ordered list has digits in
    its second capture, at least one; when they are at most 15, the number
    that [listReplace] reads from them is a safe integer that is not
    negative, never [NaN]. *)
Theorem ORDERED_LIST_number (line : string) (match_ : MatchResult) :
  exec (regExp ORDERED_LIST) line = Some match_ →
  ∃ digits,
    group match_ 2 = Some digits
    ∧ digits ≠ ""
    ∧ allAccepted Digit digits = true
    ∧ ((String.length digits ≤ 15)%nat →
       ∃ z, Number (group match_ 2) = Num z ∧ (0 ≤ z < MAX_SAFE_INTEGER)%Z).
Proof.
  intros (ws & ds & c & rest & _ & Hds & Hne & _ & _ & ->)%ORDERED_LIST_regExp_shape.
  exists ds. split_and!; try done. intros Hlength. by apply Number_safe.
Qed.

Lemma ORDERED_LIST_number_witness :
  exec (regExp ORDERED_LIST) "007. a" = Some [Some "007. "; Some ""; Some "007"]
  ∧ Number (Some "007") = Num 7
  ∧ ∃ digits,
      group [Some "007. "; Some ""; Some "007"] 2 = Some digits
      ∧ digits ≠ ""
      ∧ allAccepted Digit digits = true
      ∧ ((String.length digits ≤ 15)%nat →
         ∃ z, Number (group [Some "007. "; Some ""; Some "007"] 2) = Num z
              ∧ (0 ≤ z < MAX_SAFE_INTEGER)%Z).
Proof.
  assert (H1 : exec (regExp ORDERED_LIST) "007. a"
               = Some [Some "007. "; Some ""; Some "007"]).
  { vm_compute. reflexivity. }
  split; [exact H1|]. split; [vm_compute; reflexivity|].
  exact (ORDERED_LIST_number "007. a" [Some "007. "; Some ""; Some "007"] H1).
Defined.

(** X26: when the previous sibling of the block is not a list of the kind of
    the transformer, [listReplace] on a well-formed document creates, after
    the list item, a list node of that kind; the start of an ordered list is
    the number read from the second capture, whatever it is, and an
    unordered list is created without a start, which leaves it at 1. *)
Theorem listReplace_start (listTag : ListTag) (parentNode : NodeKey)
    (children : list NodeKey) (match_ : MatchResult) (isImport : bool)
    (st : EditorState) :
  wellFormed st →
  is_Some (parentOf st parentNode) →
  Forall (λ child, is_Some (getNodeByKey st child)) children →
  is_Some (group match_ 1) →
  previousIsList listTag st parentNode = false →
  ∃ st',
    listReplace listTag parentNode children match_ isImport st = Ok ((), st')
    ∧ nodeType st' (Pos.succ (_keyCounter st))
      = Some (ListNode listTag
                (if decide (listTag = ol) then Number (group match_ 2) else Num 1)).
Proof.
  intros Hwf Hparent Hchildren Hws Hnew.
  destruct (listReplace_Ok listTag parentNode children match_ isImport st) as [st' H];
    [done..|].
  exists st'. split; [done|]. pose proof Hwf as [Hkeys _].
  unfold listReplace, listReplaceWith in H.
  apply bind_Ok in H as (previousNode & st0 & Hprev & H).
  pose proof Hprev as (-> & _ & Hprevious)%getPreviousSibling_Ok.
  apply bind_Ok in H as (listItem & st1 & Hitem & H).
  apply bind_Ok in H as (sameList & ? & [-> ->]%gets_Ok & H).
  apply bind_Ok in H as ([] & st2 & Hplace & H).
  apply bind_Ok in H as ([] & st3 & Happend & H).
  apply bind_Ok in H as ([] & st4 & Hselect & H).
  destruct (hasType_createNode
              (λ t, match t with ListNode _ _ => true | _ => false end)
              _ _ _ _ previousNode Hitem Hkeys Hprevious) as [Hlist Htag].
  fold isListNode in Hlist. rewrite Hlist, Htag in Hplace.
  unfold previousIsList in Hnew. rewrite Hprev in Hnew. rewrite Hnew in Hplace.
  apply bind_Ok in Hplace as (list & s1 & Hcreate & Hplace).
  apply bind_Ok in Hplace as ([] & s2 & Happend1 & Hreplace).
  pose proof Hitem as (-> & Hcounter1 & _)%createNode_Ok.
  pose proof Hcreate as (-> & _ & Hget)%createNode_Ok. rewrite Hcounter1 in *.
  assert (Htype1 : nodeType s1 (Pos.succ (_keyCounter st))
            = Some (ListNode listTag
                      (if decide (listTag = ol) then Number (group match_ 2) else Num 1))).
  { unfold nodeType. rewrite Hget, decide_True by done. simpl. by case_decide. }
  apply append_unmoved in Happend1 as [_ Ht2 _ _ _].
  apply replaceNode_unmoved in Hreplace as [_ Ht3 _ _ _].
  apply append_unmoved in Happend as [_ Ht4 _ _ _].
  apply select_unmoved in Hselect as [_ Ht5 _ _ _].
  assert (Ht6 : ∀ k, nodeType st' k = nodeType st4 k).
  { destruct (group match_ 1) as [ws|]; simpl in H; [|done].
    apply bind_Ok in H as (len & ? & [-> ->]%ret_Ok & H).
    match type of H with context [decide ?P] => destruct (decide P) end.
    - apply setIndent_Ok in H as (_ & _ & Hsame). intros k.
      by destruct (Hsame k) as (-> & _ & _).
    - by apply ret_Ok in H as [_ ->]. }
  by rewrite Ht6, Ht5, Ht4, Ht3, Ht2.
Qed.

Lemma listReplace_start_witness :
  wellFormed emptyHeadingBlock
  ∧ is_Some (parentOf emptyHeadingBlock 3%positive)
  ∧ Forall (λ child, is_Some (getNodeByKey emptyHeadingBlock child)) [2%positive]
  ∧ is_Some (group [Some "007. "; Some ""; Some "007"] 1)
  ∧ previousIsList ol emptyHeadingBlock 3%positive = false
  ∧ ∃ st',
      listReplace ol 3%positive [2%positive] [Some "007. "; Some ""; Some "007"] true
        emptyHeadingBlock = Ok ((), st')
      ∧ nodeType st' (Pos.succ (_keyCounter emptyHeadingBlock))
        = Some (ListNode ol
                  (if decide (ol = ol)
                   then Number (group [Some "007. "; Some ""; Some "007"] 2)
                   else Num 1)).
Proof.
  assert (H1 : wellFormed emptyHeadingBlock).
  { apply wellFormed_decide. vm_compute. reflexivity. }
  assert (H2 : is_Some (parentOf emptyHeadingBlock 3%positive)).
  { vm_compute. eauto. }
  assert (H3 : Forall (λ child, is_Some (getNodeByKey emptyHeadingBlock child)) [2%positive]).
  { repeat constructor. vm_compute. eauto. }
  assert (H4 : is_Some (group [Some "007. "; Some ""; Some "007"] 1)).
  { vm_compute. eauto. }
  assert (H5 : previousIsList ol emptyHeadingBlock 3%positive = false).
  { vm_compute. reflexivity. }
  split; [exact H1|]. split; [exact H2|]. split; [exact H3|]. split; [exact H4|].
  split; [exact H5|].
  exact (listReplace_start ol 3%positive [2%positive] [Some "007. "; Some ""; Some "007"]
           true emptyHeadingBlock H1 H2 H3 H4 H5).
Defined.

(** *** The start of an ordered list, from the import to the export *)

Lemma splitLines_app current line rest :
  without "010" line = true →
  splitLines current (line ++ String "010" rest) = (current ++ line) :: splitLines "" rest.
Proof.
  revert current. induction line as [|c line IH]; intros current Hline.
  - simpl. by rewrite app_empty_string.
  - pose proof (without_head _ _ _ Hline) as Hc.
    unfold without in Hline. rewrite allAccepted_cons in Hline.
    apply andb_prop in Hline as [_ Hline].
    change (splitLines current (String c (line ++ String "010" rest))
            = (current ++ String c line) :: splitLines "" rest).
    simpl. apply bool_decide_eq_false in Hc. rewrite decide_False by done.
    rewrite (IH _ Hline), app_assoc_string. done.
Qed.

Lemma sliceFrom_app prefix text : sliceFrom (String.length prefix) (prefix ++ text) = text.
Proof.
  unfold sliceFrom. rewrite length_app_string.
  replace (String.length prefix + String.length text - String.length prefix)%nat
    with (String.length text) by lia.
  induction prefix as [|c prefix IH]; [|exact IH].
  change (substring 0 (String.length text) text = text).
  induction text as [|c text IH]; [done|]. simpl. by rewrite IH.
Qed.

Lemma firstMark_digit d rest : isDigit d = true → firstMark (String d rest) = Some d.
Proof. intros Hd. simpl. by rewrite (isDigit_not_space _ Hd). Qed.

(** A line that begins with digits, a dot and a space goes to the
    transformer of the ordered list. *)
Lemma firstMatch_ordered getTextContent digits text :
  allAccepted Digit digits = true → digits ≠ "" →
  firstMatch (ELEMENT_TRANSFORMERS getTextContent) (digits ++ ". " ++ text)
  = Some (ORDERED_LIST, [Some (digits ++ ". "); Some ""; Some digits]).
Proof.
  intros Hdigits Hne.
  pose proof (ORDERED_LIST_regExp_matches "" digits " " text eq_refl Hdigits Hne eq_refl)
    as Hmatch.
  change (exec (regExp ORDERED_LIST) (digits ++ ". " ++ text)
          = Some [Some (digits ++ ". "); Some ""; Some digits]) in Hmatch.
  destruct digits as [|d digits]; [done|].
  rewrite allAccepted_cons in Hdigits. apply andb_prop in Hdigits as [Hd _].
  assert (Hmark : firstMark (String d digits ++ ". " ++ text) = Some d)
    by by apply firstMark_digit.
  unfold ELEMENT_TRANSFORMERS, firstMatch.
  destruct (exec (regExp (CODE getTextContent)) _) eqn:Hcode.
  { assert (Some d = Some "`"%char) as [= ->]; [|done].
    rewrite <- Hmark. apply (CODE_firstMark getTextContent). by rewrite Hcode. }
  destruct (exec (regExp HEADING) _) eqn:Hheading.
  { assert (Some d = Some "#"%char) as [= ->]; [|done].
    rewrite <- Hmark. apply HEADING_firstMark. by rewrite Hheading. }
  destruct (exec (regExp QUOTE) _) eqn:Hquote.
  { assert (Some d = Some ">"%char) as [= ->]; [|done].
    rewrite <- Hmark. apply QUOTE_firstMark. by rewrite Hquote. }
  destruct (exec (regExp UNORDERED_LIST) _) eqn:Hul.
  { destruct (UNORDERED_LIST_firstMark (String d digits ++ ". " ++ text))
      as (b & Hb & Hin); [by rewrite Hul|].
    rewrite Hmark in Hb. injection Hb as <-.
    rewrite !elem_of_cons, elem_of_nil in Hin.
    destruct Hin as [->|[->|[->|[]]]]; vm_compute in Hd; discriminate. }
  by rewrite Hmatch.
Qed.

Lemma without_digits c digits :
  isDigit c = false → allAccepted Digit digits = true → without c digits = true.
Proof.
  intros Hc. induction digits as [|d digits IH]; [done|].
  rewrite allAccepted_cons, without_cons. intros [Hd Hdigits]%andb_prop.
  rewrite (IH Hdigits), andb_true_r. apply negb_true_iff, bool_decide_eq_false.
  intros [->|[]%elem_of_nil]%elem_of_cons. simpl in Hd. congruence.
Qed.

Lemma splitLines_ordered digits1 text1 digits2 text2 :
  allAccepted Digit digits1 = true → allAccepted Digit digits2 = true →
  without "010" text1 = true → without "010" text2 = true →
  splitLines "" (orderedLines digits1 text1 digits2 text2)
  = [digits1 ++ ". " ++ text1; digits2 ++ ". " ++ text2; ""].
Proof.
  intros Hd1 Hd2 Ht1 Ht2.
  assert (Heq : orderedLines digits1 text1 digits2 text2
                = (digits1 ++ ". " ++ text1)
                  ++ String "010" ((digits2 ++ ". " ++ text2) ++ String "010" "")).
  { unfold orderedLines, LF. by rewrite !app_assoc_string. }
  rewrite Heq, !splitLines_app; [done| |];
    rewrite !without_app, without_digits by done; by rewrite ?Ht1, ?Ht2.
Qed.

(** C2: the import of an ordered list of two lines, the first of which begins
    with at most 15 digits, creates one ordered list, whose start value is
    the number of the digits captured on the first line and whose items are
    the two lines; the export of the list gives the first item the marker of
    that number, which [Number] reads back, and the second item the marker
    of the next number, whatever the digits of the second line. *)
Theorem ordered_list_start_round_trip (getTextContent : EditorState → NodeKey → string)
    (digits1 text1 digits2 text2 : string) :
  allAccepted Digit digits1 = true → digits1 ≠ "" → (String.length digits1 ≤ 15)%nat →
  allAccepted Digit digits2 = true → digits2 ≠ "" →
  without "010" text1 = true → without "010" text2 = true →
  ∃ st start,
    convertFromMarkdownString (orderedLines digits1 text1 digits2 text2)
      (ELEMENT_TRANSFORMERS getTextContent) emptyEditorState = Ok ((), st)
    ∧ exec (regExp ORDERED_LIST) (digits1 ++ ". " ++ text1)
      = Some [Some (digits1 ++ ". "); Some ""; Some digits1]
    ∧ Number (Some digits1) = Num start
    ∧ (0 ≤ start < MAX_SAFE_INTEGER)%Z
    ∧ filter (λ key, isListNode st (Some key)) (getChildren st root) = [5%positive]
    ∧ getNodeByKey st 5%positive
      = Some {| __type := ListNode ol (Num start); __parent := Some root;
                __children := [4%positive; 8%positive]; __indent := 0 |}
    ∧ exportPlainChildren st 4%positive = text1
    ∧ exportPlainChildren st 8%positive = text2
    ∧ (∀ fuel exportChildren,
         export ORDERED_LIST (S fuel) st 5%positive exportChildren
         = Ok (Some (toString (Num start) ++ ". " ++ exportChildren 4%positive ++ LF
                     ++ toString (Num (start + 1)) ++ ". " ++ exportChildren 8%positive)))
    ∧ Number (Some (toString (Num start))) = Num start.
Proof.
  intros Hd1 Hn1 Hl1 Hd2 Hn2 Ht1 Ht2.
  destruct (Number_safe digits1 Hd1 Hl1) as (start & Hstart & Hsafe).
  pose proof (firstMatch_ordered getTextContent digits1 text1 Hd1 Hn1) as Hfirst.
  pose proof (firstMatch_ordered getTextContent digits2 text2 Hd2 Hn2) as Hsecond.
  unfold convertFromMarkdownString.
  rewrite splitLines_ordered by done. unfold forEach, importBlocks.
  rewrite Hfirst, Hsecond.
  match goal with
  | |- ∃ st start, ?prog emptyEditorState = _ ∧ _ =>
      set (st := execState prog emptyEditorState);
      assert (Hst : prog emptyEditorState = Ok ((), st)) by (vm_compute; reflexivity)
  end.
  assert (Hlist : getNodeByKey st 5%positive
                  = Some {| __type := ListNode ol (Number (Some digits1));
                            __parent := Some root;
                            __children := [4%positive; 8%positive]; __indent := 0 |}).
  { vm_compute. reflexivity. }
  assert (Htext1 : exportPlainChildren st 4%positive
                   = sliceFrom (String.length (digits1 ++ ". ")) ((digits1 ++ ". ") ++ text1)).
  { rewrite app_assoc_string. vm_compute. reflexivity. }
  assert (Htext2 : exportPlainChildren st 8%positive
                   = sliceFrom (String.length (digits2 ++ ". ")) ((digits2 ++ ". ") ++ text2)).
  { rewrite app_assoc_string. vm_compute. reflexivity. }
  assert (Hexport : ∀ fuel exportChildren,
            export ORDERED_LIST (S fuel) st 5%positive exportChildren
            = Ok (Some (join LF
                 [(toString (plus (Number (Some digits1)) 0) ++ ". ")
                  ++ exportChildren 4%positive;
                  (toString (plus (Number (Some digits1)) 1) ++ ". ")
                  ++ exportChildren 8%positive]))).
  { intros fuel exportChildren. vm_compute. reflexivity. }
  assert (Hlists : filter (λ key, isListNode st (Some key)) (getChildren st root)
                   = [5%positive]).
  { vm_compute. reflexivity. }
  clearbody st.
  pose proof (ORDERED_LIST_regExp_matches "" digits1 " " text1 eq_refl Hd1 Hn1 eq_refl)
    as Hmatch.
  destruct (toString_digits start) as (_ & _ & Hread); [lia|].
  exists st, start.
  split; [exact Hst|]. split; [exact Hmatch|].
  split; [exact Hstart|]. split; [exact Hsafe|]. split; [exact Hlists|].
  split; [by rewrite Hlist, Hstart|].
  split; [rewrite Htext1; apply sliceFrom_app|].
  split; [rewrite Htext2; apply sliceFrom_app|].
  split; [|exact Hread].
  intros fuel exportChildren. rewrite Hexport, Hstart.
  unfold plus, join. rewrite Z.add_0_r.
  match goal with
  | |- context [String.concat LF [?x; ?y]] =>
      change (String.concat LF [x; y]) with (x ++ LF ++ y)
  end.
  by rewrite !app_assoc_string.
Qed.

Lemma ordered_list_start_round_trip_witness :
  allAccepted Digit "5" = true ∧ "5" ≠ "" ∧ (String.length "5" ≤ 15)%nat
  ∧ allAccepted Digit "6" = true ∧ "6" ≠ ""
  ∧ without "010" "a" = true ∧ without "010" "b" = true
  ∧ orderedLines "5" "a" "6" "b" = orderedExample
  ∧ ∃ st start,
      convertFromMarkdownString (orderedLines "5" "a" "6" "b")
        (ELEMENT_TRANSFORMERS (λ _ _, "")) emptyEditorState = Ok ((), st)
      ∧ exec (regExp ORDERED_LIST) ("5" ++ ". " ++ "a")
        = Some [Some ("5" ++ ". "); Some ""; Some "5"]
      ∧ Number (Some "5") = Num start
      ∧ (0 ≤ start < MAX_SAFE_INTEGER)%Z
      ∧ filter (λ key, isListNode st (Some key)) (getChildren st root) = [5%positive]
      ∧ getNodeByKey st 5%positive
        = Some {| __type := ListNode ol (Num start); __parent := Some root;
                  __children := [4%positive; 8%positive]; __indent := 0 |}
      ∧ exportPlainChildren st 4%positive = "a"
      ∧ exportPlainChildren st 8%positive = "b"
      ∧ (∀ fuel exportChildren,
           export ORDERED_LIST (S fuel) st 5%positive exportChildren
           = Ok (Some (toString (Num start) ++ ". " ++ exportChildren 4%positive ++ LF
                       ++ toString (Num (start + 1)) ++ ". "
                       ++ exportChildren 8%positive)))
      ∧ Number (Some (toString (Num start))) = Num start.
Proof.
  assert (H1 : allAccepted Digit "5" = true) by reflexivity.
  assert (H2 : "5" ≠ "") by discriminate.
  assert (H3 : (String.length "5" ≤ 15)%nat) by (simpl; lia).
  assert (H4 : allAccepted Digit "6" = true) by reflexivity.
  assert (H5 : "6" ≠ "") by discriminate.
  assert (H6 : without "010" "a" = true) by reflexivity.
  assert (H7 : without "010" "b" = true) by reflexivity.
  split; [exact H1|]. split; [exact H2|]. split; [exact H3|]. split; [exact H4|].
  split; [exact H5|]. split; [exact H6|]. split; [exact H7|].
  split; [reflexivity|].
  exact (ordered_list_start_round_trip (λ _ _, "") "5" "a" "6" "b" H1 H2 H3 H4 H5 H6 H7).
Defined.


(** *** Where [listReplace] puts the list item *)

Lemma last_spliceOut key keys index lastKey :
  indexOf key keys = Some index → lastKey ≠ key →
  last keys = Some lastKey → last (spliceOut index keys) = Some lastKey.
Proof.
  intros [Hkeys _]%indexOf_Some Hne Hlast. unfold spliceOut.
  rewrite Hkeys in Hlast. rewrite last_app in Hlast.
  rewrite last_app.
  destruct (drop (S index) keys) as [|k rest] eqn:Hdrop.
  - simpl in Hlast. congruence.
  - simpl in Hlast. destruct (last (k :: rest)) eqn:Hrest; [done|].
    rewrite last_cons in Hrest. by destruct (last rest).
Qed.

Lemma removeFromParent_last key k lastKey st u st' :
  removeFromParent key st = Ok (u, st') → lastKey ≠ key →
  last (childrenOf st k) = Some lastKey → last (childrenOf st' k) = Some lastKey.
Proof.
  unfold removeFromParent. intros H Hne Hlast. steps.
  destruct (getParent _ key) as [parentKey|]; steps; [|done].
  match goal with
  | H : context [indexOf ?k ?l] |- _ => destruct (indexOf k l) as [index|] eqn:Hindex
  end; steps.
  match goal with H : getNodeByKey _ parentKey = Some _ |- _ => rename H into Hparent end.
  apply setNode_Ok in H as (Hget & _). unfold childrenOf in *. rewrite Hget.
  case_decide as Heq; [|done]. subst. rewrite Hparent in Hlast. simpl in *.
  by eapply last_spliceOut.
Qed.

(** [self.append(node)] makes the node the last child of [self], and leaves
    the last child of every other node in place, unless it is the node. *)
Lemma appendNode_last self nodeToAppend st u st' :
  appendNode self nodeToAppend st = Ok (u, st') →
  last (childrenOf st' self) = Some nodeToAppend
  ∧ ∀ k lastKey, k ≠ self → lastKey ≠ nodeToAppend →
           last (childrenOf st k) = Some lastKey → last (childrenOf st' k) = Some lastKey.
Proof.
  unfold appendNode. intros H. steps.
  match goal with
  | H0 : removeFromParent _ _ = Ok (_, ?s1),
    H1 : setNode nodeToAppend _ ?s1 = Ok (_, ?s2), H2 : setNode self _ ?s2 = Ok _,
    H3 : getNodeByKey ?s1 nodeToAppend = Some _,
    H4 : getNodeByKey ?s2 self = Some _ |- _ =>
      apply setNode_Ok in H1 as (Hget1 & _); apply setNode_Ok in H2 as (Hget2 & _);
      rename H0 into Hremove; rename H3 into Hnode; rename H4 into Hself;
      rename s2 into sB
  end.
  split.
  - unfold childrenOf. rewrite Hget2, decide_True by done. simpl. apply last_snoc.
  - intros k lastKey Hk Hx Hlast.
    apply (removeFromParent_last _ k lastKey _ _ _ Hremove Hx) in Hlast.
    unfold childrenOf in *. rewrite Hget2, decide_False by done. rewrite Hget1.
    case_decide; [|done]. subst. by rewrite Hnode in Hlast.
Qed.

Lemma append_last self nodes k lastKey st u st' :
  append self nodes st = Ok (u, st') → k ≠ self → lastKey ∉ nodes →
  last (childrenOf st k) = Some lastKey → last (childrenOf st' k) = Some lastKey.
Proof.
  unfold append. intros H Hk. steps. clear dependent x.
  revert st H. induction nodes as [|node nodes IH]; intros st H Hx Hlast.
  - simpl in H. by steps.
  - simpl in H. steps.
    match goal with
    | H1 : appendNode self node st = Ok _ |- _ => apply appendNode_last in H1 as [_ Hother]
    end.
    apply (IH _ H); [set_solver|]. apply Hother; [done|set_solver|done].
Qed.

Lemma remove_last key k lastKey st u st' :
  remove key st = Ok (u, st') → lastKey ≠ key →
  last (childrenOf st k) = Some lastKey → last (childrenOf st' k) = Some lastKey.
Proof.
  unfold remove. intros H Hne Hlast. steps.
  destruct (getParent _ key) as [parentKey|] eqn:Hparent; steps; [|done].
  match goal with
  | H0 : removeFromParent _ _ = Ok (_, ?s1), H3 : getNodeByKey ?s1 key = Some _ |- _ =>
      rename H0 into Hremove; rename H3 into Hnode
  end.
  apply setNode_Ok in H as (Hget & _).
  apply (removeFromParent_last _ k lastKey _ _ _ Hremove Hne) in Hlast.
  unfold childrenOf in *. rewrite Hget. case_decide; [|done]. subst.
  by rewrite Hnode in Hlast.
Qed.

(** [self.append(...nodes)] leaves the children of a node other than [self]
    that is the parent of none of the nodes. *)
Lemma append_children_other self nodes k st u st' :
  append self nodes st = Ok (u, st') → k ≠ self →
  (∀ node, node ∈ nodes → getParent st node ≠ Some k) →
  childrenOf st' k = childrenOf st k.
Proof.
  unfold append. intros H Hk. steps. clear dependent x.
  revert st H. induction nodes as [|node nodes IH]; intros st H Hparent.
  - simpl in H. by steps.
  - simpl in H. steps.
    match goal with
    | H1 : appendNode self node st = Ok (_, ?s1) |- _ =>
        pose proof (appendNode_unmoved _ _ _ _ _ H1) as Hun;
        pose proof (appendNode_child _ _ _ _ _ H1) as [Hnew _];
        apply appendNode_children in H1 as [_ Hother]
    end.
    rewrite (IH _ H).
    + apply Hother; [done|]. apply Hparent. set_solver.
    + intros node' Hin. destruct (decide (node' = node)) as [->|Hne].
      * intros [Hp _]%getParent_Some. congruence.
      * rewrite (unmoved_getParent _ _ _ _ Hun) by set_solver. apply Hparent. set_solver.
Qed.

(** The steps of [listReplace] up to the call of [setIndent]. *)
Lemma placeListItem_steps listTag parentNode children match_ isImport st placed :
  placeListItem listTag parentNode children match_ isImport st = Ok ((), placed) →
  ∃ previousNode st1 st2 st3 ws,
    getPreviousSibling parentNode st = Ok (previousNode, st)
    ∧ createListItemNode st = Ok (_keyCounter st, st1)
    ∧ (if isListNode st1 previousNode
          && bool_decide (getListTag st1 previousNode = Some listTag)
       then previous ← deref previousNode;
            append previous [_keyCounter st];; remove parentNode
       else list ← createListNode listTag
                     (if decide (listTag = ol) then Some (Number (group match_ 2)) else None);
            append list [_keyCounter st];; replaceNode parentNode list) st1 = Ok ((), st2)
    ∧ append (_keyCounter st) children st2 = Ok ((), st3)
    ∧ select (_keyCounter st) 0 0 st3 = Ok ((), placed)
    ∧ group match_ 1 = Some ws.
Proof.
  unfold placeListItem, listReplaceWith. intros H.
  apply bind_Ok in H as (previousNode & st0 & Hprev & H).
  pose proof Hprev as (-> & _ & _)%getPreviousSibling_Ok.
  apply bind_Ok in H as (listItem & st1 & Hitem & H).
  pose proof Hitem as (-> & _ & _)%createNode_Ok.
  apply bind_Ok in H as (sameList & ? & [-> ->]%gets_Ok & H).
  apply bind_Ok in H as ([] & st2 & Hplace & H).
  apply bind_Ok in H as ([] & st3 & Happend & H).
  apply bind_Ok in H as ([] & st4 & Hselect & H).
  destruct (group match_ 1) as [ws|] eqn:Hws; simpl in H; [|done].
  apply bind_Ok in H as (len & ? & [-> ->]%ret_Ok & H).
  assert (st4 = placed) as ->.
  { case_decide; by apply ret_Ok in H as [_ ->]. }
  by exists previousNode, st1, st2, st3, ws.
Qed.

(** [listReplace] is the placement of the list item, followed by the call
    of [setIndent] on the item when the computed indent is not 0. *)
Lemma listReplaceWith_placed setItemIndent listTag parentNode children match_ isImport
    st placed indent :
  placeListItem listTag parentNode children match_ isImport st = Ok ((), placed) →
  computedIndent match_ = Some indent →
  listReplaceWith setItemIndent listTag parentNode children match_ isImport st
  = if decide (indent ≠ 0) then setItemIndent (_keyCounter st) indent placed
    else Ok ((), placed).
Proof.
  intros (previousNode & st1 & st2 & st3 & ws & Hprev & Hitem & Hplace & Happend
          & Hselect & Hws)%placeListItem_steps Hindent.
  unfold computedIndent in Hindent. rewrite Hws in Hindent. injection Hindent as <-.
  unfold listReplaceWith.
  eapply bind_intro; [exact Hprev|]. eapply bind_intro; [exact Hitem|].
  eapply bind_intro; [reflexivity|]. eapply bind_intro; [exact Hplace|].
  eapply bind_intro; [exact Happend|]. eapply bind_intro; [exact Hselect|].
  rewrite Hws. simpl. eapply bind_intro; [reflexivity|]. by destruct (decide (_ ≠ 0)).
Qed.

(** On a well-formed document, for a block that has a parent, children that
    are nodes of the document and a match with a first capture, the
    placement succeeds. *)
Lemma placeListItem_Ok listTag parentNode children match_ isImport st :
  wellFormed st →
  is_Some (parentOf st parentNode) →
  Forall (λ child, is_Some (getNodeByKey st child)) children →
  is_Some (group match_ 1) →
  ∃ placed, placeListItem listTag parentNode children match_ isImport st = Ok ((), placed).
Proof.
  intros Hwf Hparent Hchildren Hws.
  destruct (listReplace_Ok listTag parentNode children match_ isImport st) as [st' H];
    [done..|].
  unfold listReplace, listReplaceWith in H.
  apply bind_Ok in H as (previousNode & st0 & Hprev & H).
  apply bind_Ok in H as (listItem & st1 & Hitem & H).
  apply bind_Ok in H as (sameList & ? & [-> ->]%gets_Ok & H).
  apply bind_Ok in H as ([] & st2 & Hplace & H).
  apply bind_Ok in H as ([] & st3 & Happend & H).
  apply bind_Ok in H as ([] & st4 & Hselect & H).
  destruct Hws as [ws Hws].
  exists st4. unfold placeListItem, listReplaceWith.
  eapply bind_intro; [exact Hprev|]. eapply bind_intro; [exact Hitem|].
  eapply bind_intro; [reflexivity|]. eapply bind_intro; [exact Hplace|].
  eapply bind_intro; [exact Happend|]. eapply bind_intro; [exact Hselect|].
  rewrite Hws. simpl. eapply bind_intro; [reflexivity|]. by destruct (decide (_ ≠ 0)).
Qed.

(** Where the placement leaves the list item: at the end of the previous
    sibling of the block when that sibling is a list of the kind of the
    transformer, and in a new list of that kind otherwise. *)
Lemma placeListItem_spec listTag parentNode children match_ isImport st placed :
  wellFormed st →
  Forall (λ child, is_Some (getNodeByKey st child)) children →
  placeListItem listTag parentNode children match_ isImport st = Ok ((), placed) →
  if previousIsList listTag st parentNode
  then appendedToPrevious parentNode st placed
  else heldByNewList listTag st placed.
Proof.
  intros Hwf Hchildren
    (previousNode & st1 & st2 & st3 & ws & Hprev & Hitem & Hplace & Happend
     & Hselect & Hws)%placeListItem_steps.
  pose proof Hwf as [Hst _].
  pose proof Hprev as (_ & Hblock & Hprevious)%getPreviousSibling_Ok.
  destruct (hasType_createNode
              (λ t, match t with ListNode _ _ => true | _ => false end)
              _ _ _ _ previousNode Hitem Hst Hprevious) as [HisList Htag].
  fold isListNode in HisList. rewrite HisList, Htag in Hplace.
  unfold previousIsList. rewrite Hprev.
  pose proof Hitem as (_ & Hcounter1 & Hget1)%createNode_Ok.
  set (listItem := _keyCounter st) in *.
  assert (Hfresh : ∀ k, is_Some (getNodeByKey st k) → listItem ≠ k).
  { intros k [n Hn] <-.
    rewrite keysBelowCounter_fresh in Hn; [done|done|unfold listItem; lia]. }
  assert (HnotChild : listItem ∉ children).
  { intros Hin. rewrite Forall_forall in Hchildren.
    exact (Hfresh listItem (Hchildren _ Hin) eq_refl). }
  assert (HnotParent : listItem ≠ parentNode) by by apply Hfresh.
  assert (Htype1 : nodeType st1 listItem = Some ListItemNode).
  { unfold nodeType. by rewrite Hget1, decide_True. }
  assert (Hnone1 : parentOf st1 listItem = None).
  { unfold parentOf. by rewrite Hget1, decide_True. }
  pose proof (append_unmoved _ _ _ _ _ Happend) as Hun3.
  pose proof (select_unmoved _ _ _ _ _ _ Hselect) as Hun4.
  pose proof (unmoved_trans _ _ _ _ _ Hun3 Hun4) as [Hc3 Ht3 _ Hp3 _].
  rewrite app_nil_r in Hp3.
  destruct (isListNode st previousNode
            && bool_decide (getListTag st previousNode = Some listTag)) eqn:Hsame.
  - (* the previous sibling is a list of the same kind *)
    destruct previousNode as [previous|]; [|done]. simpl in Hplace.
    apply bind_Ok in Hplace as (? & ? & [-> ->]%ret_Ok & Hplace).
    apply bind_Ok in Hplace as ([] & st1' & Happend1 & Hremove).
    apply append_one in Happend1.
    pose proof (appendNode_child _ _ _ _ _ Happend1) as [Hp _].
    pose proof (appendNode_last _ _ _ _ _ Happend1) as [Hlast _].
    apply appendNode_unmoved in Happend1 as [Hc1 Ht1 _ _ _].
    pose proof (remove_last _ previous listItem _ _ _ Hremove HnotParent Hlast) as Hlast2.
    apply remove_unmoved in Hremove as [Hc2 Ht2 _ Hp2 _].
    exists previous. split_and!.
    + done.
    + by rewrite Ht3, Ht2, Ht1.
    + rewrite Hp3, Hp2 by set_solver. done.
    + rewrite (select_children _ _ _ _ _ _ Hselect).
      apply (append_last _ _ _ _ _ _ _ Happend); [|done|done].
      apply not_eq_sym, Hfresh. by apply Hprevious.
    + by rewrite Hc3, Hc2, Hc1.
  - (* another sibling, or none: a new list *)
    apply bind_Ok in Hplace as (list & s1 & Hlist & Hplace).
    apply bind_Ok in Hplace as ([] & s2 & Happend1 & Hreplace).
    pose proof (createNode_wellFormed _ _ _ _ Hitem Hwf) as Hwf1.
    pose proof Hlist as (-> & Hcounter2 & Hget2)%createNode_Ok.
    rewrite Hcounter1 in *. set (list := Pos.succ listItem) in *.
    assert (Hne : listItem ≠ list) by (unfold list; lia).
    assert (Hnew : ∀ k, is_Some (getNodeByKey st1 k) → list ≠ k).
    { intros k [n Hn] <-. rewrite keysBelowCounter_fresh in Hn; [done| |].
      - by destruct Hwf1.
      - rewrite Hcounter1. unfold list. lia. }
    assert (Hold1 : ∀ k, is_Some (getNodeByKey st k) → is_Some (getNodeByKey st1 k)).
    { intros k. by apply (createNode_is_Some _ _ _ _ _ Hitem). }
    assert (Hne2 : list ≠ parentNode) by by apply Hnew, Hold1.
    apply append_one in Happend1.
    pose proof (appendNode_child _ _ _ _ _ Happend1) as [Hp _].
    pose proof (appendNode_unmoved _ _ _ _ _ Happend1) as Hun.
    pose proof (appendNode_children _ _ _ _ _ Happend1) as [Hitems _].
    destruct Hun as [Hc1 Ht1 _ Hp1 _].
    pose proof (replaceNode_unmoved _ _ _ _ _ Hreplace) as [Hc2 Ht2 _ Hp2 _].
    assert (Hnone : nodeType st list = None).
    { unfold nodeType. rewrite keysBelowCounter_fresh; [done|done|].
      unfold list, listItem. lia. }
    assert (Hnotlist : ∀ k, is_Some (getNodeByKey st k) → parentOf st k ≠ Some list).
    { intros k Hk Hheld.
      pose proof (wellFormed_attachedTo _ k Hwf _ Hheld) as Hin.
      apply elem_of_childrenOf in Hin as (pnode & Hpnode & _).
      unfold nodeType in Hnone. by rewrite Hpnode in Hnone. }
    assert (Hparents : ∀ k, is_Some (getNodeByKey st k) → parentOf s2 k = parentOf st k).
    { intros k Hk. rewrite Hp1.
      - unfold parentOf. rewrite Hget2, decide_False by by apply Hnew, Hold1.
        by rewrite Hget1, decide_False by by apply Hfresh.
      - intros [Heq|[]%elem_of_nil]%elem_of_cons. by apply (Hfresh k). }
    split_and!.
    + done.
    + eexists. rewrite Ht3, Ht2, Ht1. unfold nodeType. by rewrite Hget2, decide_True.
    + rewrite Ht3, Ht2, Ht1. unfold nodeType. rewrite Hget2, decide_False by done.
      apply Htype1.
    + rewrite Hp3, Hp2 by set_solver. done.
    + change (childrenOf placed list = [listItem]).
      rewrite (select_children _ _ _ _ _ _ Hselect).
      rewrite (append_children_other _ _ list _ _ _ Happend); [|done|].
      * rewrite (replaceNode_children _ _ list _ _ _ Hreplace Hne2).
        -- rewrite Hitems.
           ++ unfold childrenOf. by rewrite Hget2, decide_True.
           ++ intros [Hitem' _]%getParent_Some. unfold parentOf in Hitem'.
              rewrite Hget2, decide_False in Hitem' by done.
              fold (parentOf st1 listItem) in Hitem'. congruence.
        -- intros [Hblock' _]%getParent_Some. rewrite Hparents in Hblock' by done.
           by apply (Hnotlist parentNode).
        -- intros [Hlist' _]%getParent_Some. rewrite Hp1 in Hlist'.
           ++ unfold parentOf in Hlist'. by rewrite Hget2, decide_True in Hlist'.
           ++ intros [Heq|[]%elem_of_nil]%elem_of_cons. by apply Hne.
      * intros child Hin [Hheld _]%getParent_Some.
        rewrite Forall_forall in Hchildren. pose proof (Hchildren _ Hin) as Hchild.
        destruct (decide (child = parentNode)) as [->|Hother].
        -- by rewrite (replaceNode_detached _ _ _ _ _ Hreplace Hne2) in Hheld.
        -- rewrite Hp2, Hparents in Hheld; [by apply (Hnotlist child)|done|].
           intros [Heq|[Heq|[]%elem_of_nil]%elem_of_cons]%elem_of_cons; [done|].
           exact (Hnew child (Hold1 _ Hchild) (eq_sym Heq)).
    + by rewrite Hc3, Hc2, Hc1.
Qed.

(** C1, as the code has it: on a well-formed document the list item is
    appended to the previous sibling of the block, as its last child,
    exactly when that sibling is a list of the kind of the transformer,
    whatever the computed indent; otherwise a new list node of that kind is
    created to hold the item. That is all [listReplace] does when the
    computed indent is 0. When it is not 0, [listReplace] then calls
    [setIndent] with the indent on the item so placed, and ends as that call
    ends, whatever [setIndent] is. *)
Theorem listReplace_placement (setItemIndent : NodeKey → nat → M unit) (listTag : ListTag)
    (parentNode : NodeKey) (children : list NodeKey) (match_ : MatchResult)
    (isImport : bool) (indent : nat) (st : EditorState) :
  wellFormed st →
  is_Some (parentOf st parentNode) →
  Forall (λ child, is_Some (getNodeByKey st child)) children →
  computedIndent match_ = Some indent →
  ∃ placed,
    placeListItem listTag parentNode children match_ isImport st = Ok ((), placed)
    ∧ (appendedToPrevious parentNode st placed ↔ previousIsList listTag st parentNode = true)
    ∧ (previousIsList listTag st parentNode = false → heldByNewList listTag st placed)
    ∧ listReplaceWith setItemIndent listTag parentNode children match_ isImport st
      = if decide (indent ≠ 0) then setItemIndent (_keyCounter st) indent placed
        else Ok ((), placed).
Proof.
  intros Hwf Hparent Hchildren Hindent.
  destruct (placeListItem_Ok listTag parentNode children match_ isImport st)
    as [placed H]; [done..| |].
  { unfold computedIndent in Hindent. by destruct (group match_ 1); eauto. }
  exists placed. split; [done|].
  pose proof (placeListItem_spec _ _ _ _ _ _ _ Hwf Hchildren H) as Hplace.
  split_and!; [| |by apply listReplaceWith_placed].
  - destruct (previousIsList listTag st parentNode); [done|].
    split; [|done]. intros (previous & Hprev & _ & Hheld & _).
    destruct Hplace as (Hnone & _ & _ & Hheld' & _).
    rewrite Hheld in Hheld'. injection Hheld' as ->.
    apply getPreviousSibling_Ok in Hprev as (_ & _ & Hprevious).
    destruct (Hprevious _ eq_refl) as [node Hnode].
    unfold nodeType in Hnone. by rewrite Hnode in Hnone.
  - intros Hother. by rewrite Hother in Hplace.
Qed.

Lemma listReplace_placement_witness :
  wellFormed secondLineState
  ∧ is_Some (parentOf secondLineState 7%positive)
  ∧ Forall (λ child, is_Some (getNodeByKey secondLineState child)) [6%positive]
  ∧ computedIndent secondLineMatch = Some 1
  ∧ previousIsList ul secondLineState 7%positive = true
  ∧ ∃ placed,
      placeListItem ul 7%positive [6%positive] secondLineMatch true secondLineState
      = Ok ((), placed)
      ∧ (appendedToPrevious 7%positive secondLineState placed
         ↔ previousIsList ul secondLineState 7%positive = true)
      ∧ (previousIsList ul secondLineState 7%positive = false
         → heldByNewList ul secondLineState placed)
      ∧ listReplaceWith ListItem.setIndent ul 7%positive [6%positive] secondLineMatch true
          secondLineState
        = if decide (1 ≠ 0) then ListItem.setIndent (_keyCounter secondLineState) 1 placed
          else Ok ((), placed).
Proof.
  assert (H1 : wellFormed secondLineState).
  { apply wellFormed_decide. vm_compute. reflexivity. }
  assert (H2 : is_Some (parentOf secondLineState 7%positive)).
  { vm_compute. eauto. }
  assert (H3 : Forall (λ child, is_Some (getNodeByKey secondLineState child)) [6%positive]).
  { repeat constructor. vm_compute. eauto. }
  assert (H4 : computedIndent secondLineMatch = Some 1).
  { vm_compute. reflexivity. }
  split; [exact H1|]. split; [exact H2|]. split; [exact H3|]. split; [exact H4|].
  split; [vm_compute; reflexivity|].
  exact (listReplace_placement ListItem.setIndent ul 7%positive [6%positive]
           secondLineMatch true 1 secondLineState H1 H2 H3 H4).
Defined.

(** C1, as the claim states it, fails on the third line of [- a], [    - b],
    [    - c], with [setIndent] as nesting: the previous sibling of the
    block is the unordered list and the computed indent is 1, but no list
    node is created to hold the item; it joins the list that was created
    for the item of the second line. *)
Lemma listReplace_joins_nested_list :
  ¬ listReplaceClaim ListItem.setIndent ul 12%positive [11%positive] secondLineMatch
      thirdLineState.
Proof.
  intros Hclaim.
  destruct (Hclaim thirdLineNested) as [_ Hnew]; [vm_compute; reflexivity|].
  destruct Hnew as (list & Hnone & _ & Hheld).
  - intros [_ Hzero]. vm_compute in Hzero. discriminate.
  - vm_compute in Hheld. injection Hheld as <-. vm_compute in Hnone. discriminate.
Qed.

(** The documents of these lines, with [setIndent] as nesting: the item of
    the second line is held by a new list, which a new item after the first
    one holds, and the item of the third line is the second child of that
    list; the exports have the indented lines. *)
Lemma nested_list_example :
  childrenOf secondLineNested 5%positive = [4%positive; 9%positive]
  ∧ childrenOf secondLineNested 9%positive = [10%positive]
  ∧ childrenOf secondLineNested 10%positive = [8%positive]
  ∧ nodeType secondLineState 10%positive = None
  ∧ nodeType secondLineNested 10%positive = Some (ListNode ul (Num 1))
  ∧ export UNORDERED_LIST 2 secondLineNested 5%positive
      (exportPlainChildren secondLineNested)
    = Ok (Some ("- a" ++ LF ++ "    - b"))
  ∧ childrenOf thirdLineNested 5%positive = [4%positive; 9%positive]
  ∧ childrenOf thirdLineNested 10%positive = [8%positive; 13%positive]
  ∧ _keyCounter thirdLineNested = Pos.succ (_keyCounter thirdLineState)
  ∧ export UNORDERED_LIST 2 thirdLineNested 5%positive
      (exportPlainChildren thirdLineNested)
    = Ok (Some ("- a" ++ LF ++ "    - b" ++ LF ++ "    - c")).
Proof. split_and!; vm_compute; reflexivity. Qed.
